(** * A model of the work tracker: domain objects, store and task statistics

    The development follows the Python modules of the repository:
    [models.py] (classes [Employee], [Task], [Project]), [storage.py]
    (class [DatabaseManager] over three SQL tables), [analytics.py]
    (function [get_task_statistics] and the totals, the overall progress
    and the sorted lists of class [WorkAnalytics]) and [utils.py]
    ([validate_email], [calculate_percentage], [truncate_text]).

    Python objects live in a heap of mutable objects addressed by locations,
    methods are computations in a state-and-exception monad, Python [str] is
    a sequence of Unicode code points and Python [float] is IEEE binary64
    (Rocq's primitive floats). *)

From Stdlib Require Import ZArith NArith PArith List Bool Lia Floats.
From stdpp Require Import base option list strings gmap fin_maps fin_sets
  sorting.

Local Open Scope Z_scope.

(** ** Python strings *)

Module PyStr.

(** A [str] is a sequence of code points. *)
Definition str : Type := list N.

(** [str.isspace] on one code point: the code points that [str.strip]
    removes when it is called without an argument. *)
Definition isspace (c : N) : bool :=
  ((9 <=? c) && (c <=? 13) || (28 <=? c) && (c <=? 32)
   || (c =? 133) || (c =? 160) || (c =? 5760)
   || (8192 <=? c) && (c <=? 8202)
   || (c =? 8232) || (c =? 8233) || (c =? 8239) || (c =? 8287)
   || (c =? 12288))%N.

Fixpoint lstrip (s : str) : str :=
  match s with
  | [] => []
  | c :: s' => if isspace c then lstrip s' else s
  end.

Definition rstrip (s : str) : str := rev (lstrip (rev s)).

(** [s.strip()] *)
Definition strip (s : str) : str := rstrip (lstrip s).

(** Truth value of a string: [not s] holds exactly for the empty string. *)
Definition truthy (s : str) : bool :=
  match s with [] => false | _ :: _ => true end.

(** A string of ASCII characters, for writing examples. *)
Definition of_ascii (s : String.string) : str :=
  map Ascii.N_of_ascii (String.list_ascii_of_string s).

(** Every character of [s] is whitespace ([s] may be empty). *)
Definition blank (s : str) : bool := forallb isspace s.

End PyStr.

Import PyStr.

(** ** Python numbers

    Salaries, hours and percentages are binary64 floats: the interface builds
    them with [float(...)], and the store keeps them in [REAL] columns.  The
    integer literals of the tests (100000, 176, 88) denote the same floats,
    since Python converts an [int] operand of a mixed operation to [float].
    Counters and identifiers are unbounded integers. *)

Module PyNum.

Definition int_to_SF (z : Z) : spec_float :=
  match z with
  | Z0 => S754_zero false
  | Zpos p => S754_finite false p 0
  | Zneg p => S754_finite true p 0
  end.

(** [a / b] on two [int]s with [b <> 0]: the quotient rounded once to the
    nearest float.  (Python raises [OverflowError] when the quotient is
    beyond the floats; that needs an operand above [2^1023] and is left
    out: the model gives an infinity there.) *)
Definition int_truediv (a b : Z) : float :=
  SF2Prim (SFdiv prec emax (int_to_SF a) (int_to_SF b)).

End PyNum.

Import PyNum.

(** ** The order of the floats

    Every finite binary64 float is a multiple of [2^-1074].  The rank of a
    float is that multiple, and [2^2098], which is above every finite float,
    for an infinity.  Comparisons of floats that are not NaN are comparisons
    of ranks. *)

Module Binary64.

Definition SF_is_nan (x : spec_float) : bool :=
  match x with S754_nan => true | _ => false end.

Definition SF_ord (x : spec_float) : Z :=
  match x with
  | S754_zero _ => 0
  | S754_infinity s => cond_Zopp s (2 ^ 2098)
  | S754_nan => 0
  | S754_finite s m e => cond_Zopp s (Z.pos m * 2 ^ (e + 1074))
  end.

Definition is_nan (x : float) : bool := SF_is_nan (Prim2SF x).

Definition ord (x : float) : Z := SF_ord (Prim2SF x).

(** [y] is not below [x], in a form that composes: once NaN, always NaN. *)
Definition not_below (x y : float) : Prop :=
  is_nan y = true ∨ (is_nan x = false ∧ is_nan y = false ∧ ord x ≤ ord y).

(** A bit that is set was shifted out. *)
Definition inexact (mrs : shr_record) : bool := shr_r mrs || shr_s mrs.

(** [mrs'] is [mrs] shifted right by [n] bits: the mantissa is divided, and
    the two location bits tell whether a bit that is set was shifted out. *)
Definition shifted (n : Z) (mrs mrs' : shr_record) : Prop :=
  0 ≤ shr_m mrs →
  shr_m mrs' = shr_m mrs / 2 ^ n
  ∧ (inexact mrs' = true ↔ inexact mrs = true ∨ shr_m mrs mod 2 ^ n ≠ 0).

End Binary64.

Import Binary64.

(** ** Objects *)

Definition loc : Type := positive.

(** Instance attributes of [Employee].  The salary and the hours are floats:
    what the dialogs pass ([float(...)] of the text typed) and what the
    store reads from its [REAL] columns.  The default [0] of [hours_worked],
    an integer, is taken as the float zero, with which it agrees in every
    sum, product and comparison and when it is stored.  Python takes any
    number there: the statements about salary and hours are about floats,
    and [int_add_float] further down shows where an integer beyond [2^53]
    differs. *)
Record employee : Type := mkEmployee {
  emp_id : option Z;
  emp_name : str;
  emp_position : str;
  emp_salary : float;
  emp_hours_worked : float
}.

(** Instance attributes of [Task]; [_assigned_employee] is [None] or a
    reference to an [Employee] object. *)
Record task : Type := mkTask {
  task_id : option Z;
  task_title : str;
  task_description : str;
  task_status : str;
  task_assigned_employee : option loc;
  task_project_id : option Z
}.

(** Instance attributes of [Project]; [_tasks] refers to a list object. *)
Record project : Type := mkProject {
  proj_id : option Z;
  proj_title : str;
  proj_tasks : loc
}.

Inductive object : Type :=
| OEmployee (e : employee)
| OTask (t : task)
| OProject (p : project)
| OList (l : list loc).

(** ** The store: three tables *)

Record employee_row : Type := mkEmployeeRow {
  er_name : str;
  er_position : str;
  er_salary : float;
  er_hours_worked : float
}.

Record project_row : Type := mkProjectRow {
  pr_title : str
}.

Record task_row : Type := mkTaskRow {
  tr_title : str;
  tr_description : str;
  tr_status : str;
  tr_employee_id : option Z;
  tr_project_id : option Z
}.

(** A table with an [INTEGER PRIMARY KEY AUTOINCREMENT] column: the rows by
    key, and the largest key ever handed out. *)
Record table (A : Type) : Type := mkTable {
  rows : gmap Z A;
  seq : Z
}.
Arguments mkTable {A} _ _.
Arguments rows {A} _.
Arguments seq {A} _.

Record DB : Type := mkDB {
  employees : table employee_row;
  projects : table project_row;
  tasks : table task_row
}.

Definition empty_table {A} : table A := mkTable ∅ 0.

(** The database after [_init_database] on a new file. *)
Definition empty_DB : DB := mkDB empty_table empty_table empty_table.

(** The SQL statements of [storage.py] that change rows, with their
    parameters.  A parameter that Python passes as [None] is SQL [NULL]. *)
Inductive Stmt : Type :=
| INSERT_employee (name position : str) (salary hours_worked : float)
| UPDATE_employee (name position : str) (salary hours_worked : float)
                  (id : option Z)
| UPDATE_tasks_SET_employee_NULL (employee_id : option Z)
| DELETE_employee (id : option Z)
| INSERT_project (title : str)
| UPDATE_project (title : str) (id : option Z)
| DELETE_tasks_WHERE_project (project_id : option Z)
| DELETE_project (id : option Z)
| INSERT_task (title description status : str)
              (employee_id project_id : option Z)
| UPDATE_task (title description status : str)
              (employee_id project_id : option Z) (id : option Z)
| DELETE_task (id : option Z).

(** What happened on the connection, oldest first. *)
Inductive event : Type :=
| Executed (s : Stmt)
| Committed.

Definition max_rowid {A} (m : gmap Z A) : Z :=
  foldr Z.max 0 (elements (dom m)).

(** The key of the next inserted row. *)
Definition next_rowid {A} (t : table A) : Z :=
  1 + Z.max (seq t) (max_rowid (rows t)).

Definition table_insert {A} (r : A) (t : table A) : table A * Z :=
  let i := next_rowid t in (mkTable (<[i := r]> (rows t)) i, i).

(** [UPDATE ... WHERE id = ?]: [id = NULL] selects no row. *)
Definition table_update {A} (r : A) (id : option Z) (t : table A) : table A :=
  match id with
  | Some i => mkTable (alter (λ _, r) i (rows t)) (seq t)
  | None => t
  end.

(** [DELETE ... WHERE id = ?] *)
Definition table_delete {A} (id : option Z) (t : table A) : table A :=
  match id with
  | Some i => mkTable (delete i (rows t)) (seq t)
  | None => t
  end.

(** [column = ?] in a [WHERE] clause: never true on [NULL]. *)
Definition sql_eq (column param : option Z) : bool :=
  match column, param with
  | Some a, Some b => bool_decide (a = b)
  | _, _ => false
  end.

Definition clear_employee (employee_id : option Z) (r : task_row) : task_row :=
  if sql_eq (tr_employee_id r) employee_id
  then mkTaskRow (tr_title r) (tr_description r) (tr_status r) None
                 (tr_project_id r)
  else r.

(** One statement on the database; the second component is
    [cursor.lastrowid] for an [INSERT]. *)
Definition exec_stmt (s : Stmt) (d : DB) : DB * option Z :=
  match s with
  | INSERT_employee n p s h =>
      let '(t, i) := table_insert (mkEmployeeRow n p s h) (employees d) in
      (mkDB t (projects d) (tasks d), Some i)
  | UPDATE_employee n p s h id =>
      (mkDB (table_update (mkEmployeeRow n p s h) id (employees d))
            (projects d) (tasks d), None)
  | UPDATE_tasks_SET_employee_NULL eid =>
      (mkDB (employees d) (projects d)
            (mkTable (clear_employee eid <$> rows (tasks d)) (seq (tasks d))),
       None)
  | DELETE_employee id =>
      (mkDB (table_delete id (employees d)) (projects d) (tasks d), None)
  | INSERT_project ti =>
      let '(t, i) := table_insert (mkProjectRow ti) (projects d) in
      (mkDB (employees d) t (tasks d), Some i)
  | UPDATE_project ti id =>
      (mkDB (employees d) (table_update (mkProjectRow ti) id (projects d))
            (tasks d), None)
  | DELETE_tasks_WHERE_project pid =>
      (mkDB (employees d) (projects d)
            (mkTable (filter (λ kr, sql_eq (tr_project_id kr.2) pid = false)
                             (rows (tasks d)))
                     (seq (tasks d))),
       None)
  | DELETE_project id =>
      (mkDB (employees d) (table_delete id (projects d)) (tasks d), None)
  | INSERT_task ti de st eid pid =>
      let '(t, i) := table_insert (mkTaskRow ti de st eid pid) (tasks d) in
      (mkDB (employees d) (projects d) t, Some i)
  | UPDATE_task ti de st eid pid id =>
      (mkDB (employees d) (projects d)
            (table_update (mkTaskRow ti de st eid pid) id (tasks d)), None)
  | DELETE_task id =>
      (mkDB (employees d) (projects d) (table_delete id (tasks d)), None)
  end.

(** ** The world and the monad of Python computations *)

Record World : Type := mkWorld {
  heap : gmap loc object;
  db : DB;
  log : list event
}.

Inductive exn : Type :=
| ValueError
| ZeroDivisionError
| AttributeError.

Inductive res (A : Type) : Type :=
| Ok (a : A)
| Raise (e : exn).
Arguments Ok {A} _.
Arguments Raise {A} _.

(** A computation runs from a world to a result or an exception, and the
    world it leaves behind. *)
Definition M (A : Type) : Type := World → res A * World.

#[global] Instance M_ret : MRet M := λ A a w, (Ok a, w).

#[global] Instance M_bind : MBind M := λ A B f m w,
  match m w with
  | (Ok a, w') => f a w'
  | (Raise e, w') => (Raise e, w')
  end.

Definition raise {A} (e : exn) : M A := λ w, (Raise e, w).

Definition get_heap : M (gmap loc object) := λ w, (Ok (heap w), w).

Definition put_heap (h : gmap loc object) : M unit :=
  λ w, (Ok tt, mkWorld h (db w) (log w)).

(** The world after a call, whether it returned or raised. *)
Definition after {A} (m : M A) (w : World) : World := (m w).2.

(** What a call returned or raised. *)
Definition result {A} (m : M A) (w : World) : res A := (m w).1.

(** A new object. *)
Definition alloc (o : object) : M loc :=
  h ← get_heap;
  let l := fresh (dom h) in
  put_heap (<[l := o]> h);;
  mret l.

(** Reading an object through a reference of the expected class; a reference
    to an object of another class has no such attributes. *)
Definition load_employee (l : loc) : M employee :=
  h ← get_heap;
  match h !! l with Some (OEmployee e) => mret e | _ => raise AttributeError end.

Definition load_task (l : loc) : M task :=
  h ← get_heap;
  match h !! l with Some (OTask t) => mret t | _ => raise AttributeError end.

Definition load_project (l : loc) : M project :=
  h ← get_heap;
  match h !! l with Some (OProject p) => mret p | _ => raise AttributeError end.

Definition load_list (l : loc) : M (list loc) :=
  h ← get_heap;
  match h !! l with Some (OList x) => mret x | _ => raise AttributeError end.

(** Assignment to attributes of the object at [l]. *)
Definition store (l : loc) (o : object) : M unit :=
  h ← get_heap; put_heap (<[l := o]> h).

(** A [for] loop that threads its local variables. *)
Fixpoint foldM {S A} (body : S → A → M S) (s : S) (l : list A) : M S :=
  match l with
  | [] => mret s
  | x :: l' => s' ← body s x; foldM body s' l'
  end.

(** ** models.py

    The methods [to_dict], [__str__] and [__repr__] of the three classes
    only read attributes, to build a dictionary or a string; they are left
    out. *)

Module Employee.

(** [Employee(name, position, salary, hours_worked=0, employee_id=None)] *)
Definition __init__ (name position : str) (salary hours_worked : float)
    (employee_id : option Z) : M loc :=
  alloc (OEmployee (mkEmployee employee_id name position salary hours_worked)).

Definition get_id (self : loc) : M (option Z) :=
  e ← load_employee self; mret (emp_id e).

Definition get_name (self : loc) : M str :=
  e ← load_employee self; mret (emp_name e).

Definition get_position (self : loc) : M str :=
  e ← load_employee self; mret (emp_position e).

Definition get_salary (self : loc) : M float :=
  e ← load_employee self; mret (emp_salary e).

Definition get_hours_worked (self : loc) : M float :=
  e ← load_employee self; mret (emp_hours_worked e).

Definition set_id (self : loc) (value : option Z) : M unit :=
  e ← load_employee self;
  store self (OEmployee (mkEmployee value (emp_name e) (emp_position e)
                                    (emp_salary e) (emp_hours_worked e))).

Definition set_name (self : loc) (value : str) : M unit :=
  if negb (truthy (strip value)) then raise ValueError
  else
    e ← load_employee self;
    store self (OEmployee (mkEmployee (emp_id e) value (emp_position e)
                                      (emp_salary e) (emp_hours_worked e))).

Definition set_position (self : loc) (value : str) : M unit :=
  e ← load_employee self;
  store self (OEmployee (mkEmployee (emp_id e) (emp_name e) value
                                    (emp_salary e) (emp_hours_worked e))).

Definition set_salary (self : loc) (value : float) : M unit :=
  if PrimFloat.ltb value 0 then raise ValueError
  else
    e ← load_employee self;
    store self (OEmployee (mkEmployee (emp_id e) (emp_name e) (emp_position e)
                                      value (emp_hours_worked e))).

Definition add_hours (self : loc) (hours : float) : M unit :=
  if PrimFloat.ltb hours 0 then raise ValueError
  else
    e ← load_employee self;
    store self (OEmployee (mkEmployee (emp_id e) (emp_name e) (emp_position e)
                             (emp_salary e)
                             (PrimFloat.add (emp_hours_worked e) hours))).

Definition calculate_pay (self : loc) : M float :=
  e ← load_employee self;
  let hourly_rate := PrimFloat.div (emp_salary e) 176 in
  mret (PrimFloat.mul (emp_hours_worked e) hourly_rate).

End Employee.

Module Task.

(** ["В процессе"] *)
Definition IN_PROGRESS : str :=
  [1042; 32; 1087; 1088; 1086; 1094; 1077; 1089; 1089; 1077]%N.

(** ["Завершено"] *)
Definition COMPLETED : str :=
  [1047; 1072; 1074; 1077; 1088; 1096; 1077; 1085; 1086]%N.

Definition STATUSES : list str := [IN_PROGRESS; COMPLETED].

(** [Task(title, description, status="В процессе", assigned_employee=None,
    task_id=None, project_id=None)] *)
Definition __init__ (title description status : str)
    (assigned_employee : option loc) (task_id project_id : option Z)
    : M loc :=
  alloc (OTask (mkTask task_id title description status assigned_employee
                       project_id)).

Definition get_id (self : loc) : M (option Z) :=
  t ← load_task self; mret (task_id t).

Definition get_title (self : loc) : M str :=
  t ← load_task self; mret (task_title t).

Definition get_description (self : loc) : M str :=
  t ← load_task self; mret (task_description t).

Definition get_status (self : loc) : M str :=
  t ← load_task self; mret (task_status t).

Definition get_assigned_employee (self : loc) : M (option loc) :=
  t ← load_task self; mret (task_assigned_employee t).

Definition get_project_id (self : loc) : M (option Z) :=
  t ← load_task self; mret (task_project_id t).

Definition set_id (self : loc) (value : option Z) : M unit :=
  t ← load_task self;
  store self (OTask (mkTask value (task_title t) (task_description t)
                       (task_status t) (task_assigned_employee t)
                       (task_project_id t))).

Definition set_title (self : loc) (value : str) : M unit :=
  if negb (truthy (strip value)) then raise ValueError
  else
    t ← load_task self;
    store self (OTask (mkTask (task_id t) value (task_description t)
                         (task_status t) (task_assigned_employee t)
                         (task_project_id t))).

Definition set_description (self : loc) (value : str) : M unit :=
  t ← load_task self;
  store self (OTask (mkTask (task_id t) (task_title t) value
                       (task_status t) (task_assigned_employee t)
                       (task_project_id t))).

Definition set_project_id (self : loc) (value : option Z) : M unit :=
  t ← load_task self;
  store self (OTask (mkTask (task_id t) (task_title t) (task_description t)
                       (task_status t) (task_assigned_employee t) value)).

Definition assign_employee (self : loc) (employee : option loc) : M unit :=
  t ← load_task self;
  store self (OTask (mkTask (task_id t) (task_title t) (task_description t)
                       (task_status t) employee (task_project_id t))).

Definition mark_complete (self : loc) : M unit :=
  t ← load_task self;
  store self (OTask (mkTask (task_id t) (task_title t) (task_description t)
                       COMPLETED (task_assigned_employee t)
                       (task_project_id t))).

Definition is_completed (self : loc) : M bool :=
  t ← load_task self; mret (bool_decide (task_status t = COMPLETED)).

End Task.

(** In-place operations of Python lists. *)
Module PyList.

(** [x in l] and [l.remove(x)] compare the elements with [==], which on
    objects without [__eq__] is identity. *)
Fixpoint remove_first (x : loc) (l : list loc) : list loc :=
  match l with
  | [] => []
  | y :: l' => if decide (x = y) then l' else y :: remove_first x l'
  end.

(** [l.append(x)] *)
Definition append (l : loc) (x : loc) : M unit :=
  xs ← load_list l; store l (OList (xs ++ [x])).

(** [x in l] *)
Definition contains (l : loc) (x : loc) : M bool :=
  xs ← load_list l; mret (bool_decide (x ∈ xs)).

(** [l.remove(x)] *)
Definition remove (l : loc) (x : loc) : M unit :=
  xs ← load_list l;
  if bool_decide (x ∈ xs) then store l (OList (remove_first x xs))
  else raise ValueError.

(** [list(l)] *)
Definition copy (l : loc) : M loc :=
  xs ← load_list l; alloc (OList xs).

(** An arbitrary in-place change of the elements of the list [l]
    (slice assignment, [del], [pop], [clear], [sort], ...). *)
Definition mutate (l : loc) (f : list loc → list loc) : M unit :=
  xs ← load_list l; store l (OList (f xs)).

End PyList.

Module Project.

(** [Project(title, project_id=None)]; the list [[]] is a new object. *)
Definition __init__ (title : str) (project_id : option Z) : M loc :=
  tasks ← alloc (OList []);
  alloc (OProject (mkProject project_id title tasks)).

Definition get_id (self : loc) : M (option Z) :=
  p ← load_project self; mret (proj_id p).

Definition get_title (self : loc) : M str :=
  p ← load_project self; mret (proj_title p).

Definition get_tasks (self : loc) : M loc :=
  p ← load_project self; PyList.copy (proj_tasks p).

Definition set_id (self : loc) (value : option Z) : M unit :=
  p ← load_project self;
  store self (OProject (mkProject value (proj_title p) (proj_tasks p))).

Definition set_title (self : loc) (value : str) : M unit :=
  if negb (truthy (strip value)) then raise ValueError
  else
    p ← load_project self;
    store self (OProject (mkProject (proj_id p) value (proj_tasks p))).

Definition set_tasks (self : loc) (tasks : loc) : M unit :=
  p ← load_project self;
  store self (OProject (mkProject (proj_id p) (proj_title p) tasks)).

Definition add_task (self : loc) (task : loc) : M unit :=
  p ← load_project self; PyList.append (proj_tasks p) task.

Definition remove_task (self : loc) (task : loc) : M unit :=
  p ← load_project self;
  found ← PyList.contains (proj_tasks p) task;
  if (found : bool) then PyList.remove (proj_tasks p) task else mret tt.

Definition project_progress (self : loc) : M float :=
  p ← load_project self;
  tasks ← load_list (proj_tasks p);
  if bool_decide (Z.of_nat (length tasks) = 0) then mret 0%float
  else
    completed ← foldM (λ (completed : Z) (task : loc),
                   status ← Task.get_status task;
                   if bool_decide (status = Task.COMPLETED)
                   then mret (completed + 1)
                   else mret completed) 0 tasks;
    mret (PrimFloat.mul
            (int_truediv completed (Z.of_nat (length tasks))) 100).

Definition get_completed_tasks_count (self : loc) : M Z :=
  p ← load_project self;
  tasks ← load_list (proj_tasks p);
  foldM (λ (count : Z) (task : loc),
           c ← Task.is_completed task;
           if (c : bool) then mret (count + 1) else mret count) 0 tasks.

End Project.

(** ** storage.py

    The methods that change rows.  The connection is opened on first use and
    shared by all calls; [_init_database] creates the three tables of
    [empty_DB] when they are missing.  The queries ([get_all_*],
    [get_*_by_id], [get_tasks_by_project]) follow further down. *)

Module DatabaseManager.

(** [cursor.execute(sql, params)]; the result is [cursor.lastrowid].  The
    statement runs on parameters that the binding accepts.  The binding
    itself is not modelled: it raises [OverflowError] for an integer beyond
    64 bits and [UnicodeEncodeError] for a text with a lone surrogate,
    before the statement runs, and an [INSERT] fails once the largest key
    was handed out.  The statements about calls whose parameters the caller
    chooses assume, with [storable_text], [storable_int] and [has_room]
    further down, that this does not happen. *)
Definition execute (s : Stmt) : M (option Z) :=
  λ w, let '(d, rowid) := exec_stmt s (db w) in
       (Ok rowid, mkWorld (heap w) d (log w ++ [Executed s])).

(** [conn.commit()] *)
Definition commit : M unit :=
  λ w, (Ok tt, mkWorld (heap w) (db w) (log w ++ [Committed])).

Definition add_employee (employee : loc) : M (option Z) :=
  name ← Employee.get_name employee;
  position ← Employee.get_position employee;
  salary ← Employee.get_salary employee;
  hours_worked ← Employee.get_hours_worked employee;
  lastrowid ← execute (INSERT_employee name position salary hours_worked);
  commit;;
  mret lastrowid.

Definition update_employee (employee : loc) : M unit :=
  name ← Employee.get_name employee;
  position ← Employee.get_position employee;
  salary ← Employee.get_salary employee;
  hours_worked ← Employee.get_hours_worked employee;
  id ← Employee.get_id employee;
  execute (UPDATE_employee name position salary hours_worked id);;
  commit.

Definition delete_employee (employee_id : Z) : M unit :=
  execute (UPDATE_tasks_SET_employee_NULL (Some employee_id));;
  execute (DELETE_employee (Some employee_id));;
  commit.

Definition add_project (project : loc) : M (option Z) :=
  title ← Project.get_title project;
  lastrowid ← execute (INSERT_project title);
  commit;;
  mret lastrowid.

Definition update_project (project : loc) : M unit :=
  title ← Project.get_title project;
  id ← Project.get_id project;
  execute (UPDATE_project title id);;
  commit.

Definition delete_project (project_id : Z) : M unit :=
  execute (DELETE_tasks_WHERE_project (Some project_id));;
  execute (DELETE_project (Some project_id));;
  commit.

(** [employee.get_id() if employee else None]: an [Employee] object is
    always true. *)
Definition employee_id_of (employee : option loc) : M (option Z) :=
  match employee with
  | Some e => Employee.get_id e
  | None => mret None
  end.

Definition add_task (task : loc) : M (option Z) :=
  employee ← Task.get_assigned_employee task;
  employee_id ← employee_id_of employee;
  title ← Task.get_title task;
  description ← Task.get_description task;
  status ← Task.get_status task;
  project_id ← Task.get_project_id task;
  lastrowid ← execute (INSERT_task title description status employee_id
                                   project_id);
  commit;;
  mret lastrowid.

Definition update_task (task : loc) : M unit :=
  employee ← Task.get_assigned_employee task;
  employee_id ← employee_id_of employee;
  title ← Task.get_title task;
  description ← Task.get_description task;
  status ← Task.get_status task;
  project_id ← Task.get_project_id task;
  id ← Task.get_id task;
  execute (UPDATE_task title description status employee_id project_id id);;
  commit.

Definition delete_task (task_id : Z) : M unit :=
  execute (DELETE_task (Some task_id));;
  commit.

End DatabaseManager.

(** ** analytics.py: [get_task_statistics] *)

(** The dictionary returned by [get_task_statistics]. *)
Record task_statistics : Type := mkStats {
  total : Z;
  completed : Z;
  in_progress : Z;
  assigned : Z;
  unassigned : Z;
  completion_rate : float;
  assignment_rate : float
}.

(** The five counters of the loop, in the order of their declaration. *)
Definition counters : Type := (Z * Z * Z * Z * Z)%type.

Definition count_task (c : counters) (task : loc) : M counters :=
  let '(total_tasks, completed_tasks, in_progress_tasks, assigned_tasks,
        unassigned_tasks) := c in
  let total_tasks := total_tasks + 1 in
  finished ← Task.is_completed task;
  let '(completed_tasks, in_progress_tasks) :=
    if (finished : bool) then (completed_tasks + 1, in_progress_tasks)
    else (completed_tasks, in_progress_tasks + 1) in
  employee ← Task.get_assigned_employee task;
  let '(assigned_tasks, unassigned_tasks) :=
    if bool_decide (is_Some (employee : option loc))
    then (assigned_tasks + 1, unassigned_tasks)
    else (assigned_tasks, unassigned_tasks + 1) in
  mret (total_tasks, completed_tasks, in_progress_tasks, assigned_tasks,
        unassigned_tasks).

Definition count_project (c : counters) (project : loc) : M counters :=
  l ← Project.get_tasks project;
  tasks ← load_list l;
  foldM count_task c tasks.

Definition rate (part whole : Z) : float :=
  if bool_decide (whole > 0)
  then PrimFloat.mul (int_truediv part whole) 100
  else 0%float.

Definition get_task_statistics (projects : list loc) : M task_statistics :=
  c ← foldM count_project (0, 0, 0, 0, 0) projects;
  let '(total_tasks, completed_tasks, in_progress_tasks, assigned_tasks,
        unassigned_tasks) := c in
  mret (mkStats total_tasks completed_tasks in_progress_tasks assigned_tasks
                unassigned_tasks
                (rate completed_tasks total_tasks)
                (rate assigned_tasks total_tasks)).

(** ** A small world for examples

    One employee, and one project whose list holds a completed task assigned
    to the employee and an unassigned task in progress. *)

Definition sample_employee : employee :=
  mkEmployee None (of_ascii "Ivan"%string) (of_ascii "Developer"%string) 100000 0.

Definition sample_task_done : task :=
  mkTask None (of_ascii "Design"%string) [] Task.COMPLETED (Some 1%positive) (Some 1).

Definition sample_task_open : task :=
  mkTask None (of_ascii "Build"%string) [] Task.IN_PROGRESS None (Some 1).

Definition sample_project : project :=
  mkProject None (of_ascii "Tracker"%string) 2%positive.

Definition sample_heap : gmap loc object :=
  <[1%positive := OEmployee sample_employee]>
  (<[2%positive := OList [3%positive; 4%positive]]>
  (<[3%positive := OTask sample_task_done]>
  (<[4%positive := OTask sample_task_open]>
  (<[5%positive := OProject sample_project]> ∅)))).

Definition sample_world : World := mkWorld sample_heap empty_DB [].

(** ** Vocabulary of the statements about the store *)

(** Table [t'] is table [t] with one more row [r], under the key [i] that no
    row of [t] has and that is above every key handed out before. *)
Definition inserted {A} (t : table A) (r : A) (i : Z) (t' : table A) : Prop :=
  rows t !! i = None ∧ seq t < i
  ∧ rows t' = <[i := r]> (rows t) ∧ seq t' = i.

(** The row written for an employee object. *)
Definition employee_row_of (e : employee) : employee_row :=
  mkEmployeeRow (emp_name e) (emp_position e) (emp_salary e)
                (emp_hours_worked e).

(** The row written for a project object. *)
Definition project_row_of (p : project) : project_row :=
  mkProjectRow (proj_title p).

(** The identifier of the employee object a task refers to, as the heap
    [h] has it. *)
Definition assigned_employee_id (h : gmap loc object) (t : task)
    : option Z :=
  match task_assigned_employee t with
  | Some a => match h !! a with
              | Some (OEmployee ea) => emp_id ea
              | _ => None
              end
  | None => None
  end.

(** The row written for a task object. *)
Definition task_row_of (h : gmap loc object) (t : task) : task_row :=
  mkTaskRow (task_title t) (task_description t) (task_status t)
            (assigned_employee_id h t) (task_project_id t).

(** The employee reference of a task, when there is one, is an employee. *)
Definition assignee_ok (h : gmap loc object) (t : task) : Prop :=
  ∀ a, task_assigned_employee t = Some a →
       ∃ ea, h !! a = Some (OEmployee ea).

(** No row of table [t] is selected by [WHERE id = ?] with the parameter
    [id]. *)
Definition no_row {A} (t : table A) (id : option Z) : Prop :=
  match id with
  | Some i => rows t !! i = None
  | None => True
  end.

(** Table [t'] is table [t] with the row under the key [i] replaced by
    [r]. *)
Definition overwritten {A} (t : table A) (r : A) (i : Z) (t' : table A)
    : Prop :=
  rows t' = <[i := r]> (rows t) ∧ seq t' = seq t.

(** The sample world after the employee was saved under the key 1, then
    promoted and credited with eight hours in memory only. *)
Definition stored_employee : employee :=
  mkEmployee (Some 1) (of_ascii "Ivan"%string) (of_ascii "Lead"%string)
             120000 8.

Definition stored_DB : DB :=
  mkDB (mkTable {[ 1 := employee_row_of sample_employee ]} 1)
       empty_table empty_table.

Definition stored_world : World :=
  mkWorld (<[1%positive := OEmployee stored_employee]> sample_heap)
          stored_DB [].

(** ** Sequences of method calls

    A caller may call any public method of any object, in any order, and
    catch what it raises.  A call is a receiver and a method with its
    arguments; its returned value is dropped. *)

Inductive employee_op : Type :=
| E_get_id
| E_get_name
| E_get_position
| E_get_salary
| E_get_hours_worked
| E_set_id (value : option Z)
| E_set_name (value : str)
| E_set_position (value : str)
| E_set_salary (value : float)
| E_add_hours (hours : float)
| E_calculate_pay.

Inductive task_op : Type :=
| T_get_id
| T_get_title
| T_get_description
| T_get_status
| T_get_assigned_employee
| T_get_project_id
| T_set_id (value : option Z)
| T_set_title (value : str)
| T_set_description (value : str)
| T_set_project_id (value : option Z)
| T_assign_employee (employee : option loc)
| T_mark_complete
| T_is_completed.

Inductive project_op : Type :=
| P_get_id
| P_get_title
| P_get_tasks
| P_set_id (value : option Z)
| P_set_title (value : str)
| P_set_tasks (tasks : loc)
| P_add_task (task : loc)
| P_remove_task (task : loc)
| P_project_progress
| P_get_completed_tasks_count.

(** A call made for its effect. *)
Definition drop {A} (m : M A) : M unit := m ≫= λ _, mret tt.

Definition employee_call (c : loc * employee_op) : M unit :=
  let self := c.1 in
  match c.2 with
  | E_get_id => drop (Employee.get_id self)
  | E_get_name => drop (Employee.get_name self)
  | E_get_position => drop (Employee.get_position self)
  | E_get_salary => drop (Employee.get_salary self)
  | E_get_hours_worked => drop (Employee.get_hours_worked self)
  | E_set_id v => Employee.set_id self v
  | E_set_name v => Employee.set_name self v
  | E_set_position v => Employee.set_position self v
  | E_set_salary v => Employee.set_salary self v
  | E_add_hours h => Employee.add_hours self h
  | E_calculate_pay => drop (Employee.calculate_pay self)
  end.

Definition task_call (c : loc * task_op) : M unit :=
  let self := c.1 in
  match c.2 with
  | T_get_id => drop (Task.get_id self)
  | T_get_title => drop (Task.get_title self)
  | T_get_description => drop (Task.get_description self)
  | T_get_status => drop (Task.get_status self)
  | T_get_assigned_employee => drop (Task.get_assigned_employee self)
  | T_get_project_id => drop (Task.get_project_id self)
  | T_set_id v => Task.set_id self v
  | T_set_title v => Task.set_title self v
  | T_set_description v => Task.set_description self v
  | T_set_project_id v => Task.set_project_id self v
  | T_assign_employee e => Task.assign_employee self e
  | T_mark_complete => Task.mark_complete self
  | T_is_completed => drop (Task.is_completed self)
  end.

Definition project_call (c : loc * project_op) : M unit :=
  let self := c.1 in
  match c.2 with
  | P_get_id => drop (Project.get_id self)
  | P_get_title => drop (Project.get_title self)
  | P_get_tasks => drop (Project.get_tasks self)
  | P_set_id v => Project.set_id self v
  | P_set_title v => Project.set_title self v
  | P_set_tasks l => Project.set_tasks self l
  | P_add_task t => Project.add_task self t
  | P_remove_task t => Project.remove_task self t
  | P_project_progress => drop (Project.project_progress self)
  | P_get_completed_tasks_count =>
      drop (Project.get_completed_tasks_count self)
  end.

(** The world after a sequence of calls, each run to its end or to the
    exception it raises. *)
Definition run_calls {C} (call : C → M unit) (calls : list C) (w : World)
    : World :=
  foldl (λ w c, after (call c) w) w calls.

(** ** Vocabulary of the statements about projects *)

(** The task object at [x], if [x] is a task. *)
Definition task_at (h : gmap loc object) (x : loc) : option task :=
  match h !! x with
  | Some (OTask t) => Some t
  | _ => None
  end.

(** The elements of the list that the project at [self] holds as its
    tasks. *)
Definition project_tasks (h : gmap loc object) (self : loc)
    : option (list loc) :=
  match h !! self with
  | Some (OProject p) =>
      match h !! proj_tasks p with
      | Some (OList xs) => Some xs
      | _ => None
      end
  | _ => None
  end.

Definition completed_at (h : gmap loc object) (x : loc) : bool :=
  match task_at h x with
  | Some t => bool_decide (task_status t = Task.COMPLETED)
  | None => false
  end.

Definition assigned_at (h : gmap loc object) (x : loc) : bool :=
  match task_at h x with
  | Some t => bool_decide (is_Some (task_assigned_employee t))
  | None => false
  end.

(** How many elements of [xs] satisfy [f]. *)
Definition count_of (f : loc → bool) (xs : list loc) : Z :=
  Z.of_nat (length (List.filter f xs)).

(** The number of completed tasks among [xs]. *)
Definition completed_among (h : gmap loc object) (xs : list loc) : Z :=
  count_of (completed_at h) xs.

(** What the counting loops of [project_progress] and
    [get_completed_tasks_count] compute from the counter [s] over the
    elements [xs]: they stop at an element that is not a task. *)
Fixpoint count_completed (h : gmap loc object) (s : Z) (xs : list loc)
    : res Z :=
  match xs with
  | [] => Ok s
  | x :: xs' =>
      match task_at h x with
      | Some t =>
          count_completed h
            (if bool_decide (task_status t = Task.COMPLETED) then s + 1
             else s) xs'
      | None => Raise AttributeError
      end
  end.

(** ** Vocabulary of the statements about the statistics *)

(** [l] is a project whose list holds tasks. *)
Definition project_ok (h : gmap loc object) (l : loc) : Prop :=
  ∃ xs, project_tasks h l = Some xs
        ∧ Forall (λ x, is_Some (task_at h x)) xs.

(** The tasks of the projects [ls], project after project. *)
Definition all_tasks (h : gmap loc object) (ls : list loc) : list loc :=
  concat (map (λ l, default [] (project_tasks h l)) ls).

(** The counters after one more task. *)
Definition tally_task (h : gmap loc object) (c : counters) (x : loc)
    : counters :=
  let '(n, co, ip, a, u) := c in
  (n + 1,
   if completed_at h x then co + 1 else co,
   if completed_at h x then ip else ip + 1,
   if assigned_at h x then a + 1 else a,
   if assigned_at h x then u else u + 1).

(** The largest float below 100000, printed 99999.999999999985. *)
Definition below_100000 : float := 0x1.869ffffffffffp+16%float.

(** ** Vocabulary of the statements about employees *)

(** What one call of a method of [Employee] can do to an employee object:
    nothing, or the assignment of one attribute, guarded as the setter
    guards it. *)
Inductive employee_step (e : employee) : employee → Prop :=
| step_none : employee_step e e
| step_set_id (v : option Z) :
    employee_step e (mkEmployee v (emp_name e) (emp_position e)
                                (emp_salary e) (emp_hours_worked e))
| step_set_name (v : str) :
    blank v = false →
    employee_step e (mkEmployee (emp_id e) v (emp_position e)
                                (emp_salary e) (emp_hours_worked e))
| step_set_position (v : str) :
    employee_step e (mkEmployee (emp_id e) (emp_name e) v
                                (emp_salary e) (emp_hours_worked e))
| step_set_salary (v : float) :
    PrimFloat.ltb v 0 = false →
    employee_step e (mkEmployee (emp_id e) (emp_name e) (emp_position e)
                                v (emp_hours_worked e))
| step_add_hours (h : float) :
    PrimFloat.ltb h 0 = false →
    employee_step e (mkEmployee (emp_id e) (emp_name e) (emp_position e)
                                (emp_salary e)
                                (PrimFloat.add (emp_hours_worked e) h)).

(** The name has a character that is not whitespace. *)
Definition name_ok (e : employee) : Prop := blank (emp_name e) = false.

(** The salary is not negative. *)
Definition salary_ok (e : employee) : Prop :=
  PrimFloat.ltb (emp_salary e) 0 = false.

(** The hours are not negative. *)
Definition hours_ok (e : employee) : Prop :=
  PrimFloat.ltb (emp_hours_worked e) 0 = false.

(** [for task in tasks: task.mark_complete()] *)
Definition mark_all_complete (tasks : list loc) : M unit :=
  foldM (λ (_ : unit) (task : loc), Task.mark_complete task) tt tasks.

(** [x] is a NaN, a zero of either sign, or above zero. *)
Definition SF_nonneg (x : spec_float) : Prop :=
  match x with
  | S754_nan | S754_zero _ => True
  | S754_infinity s | S754_finite s _ _ => s = false
  end.

(** ** storage.py: the queries

    A query reads the tables and builds new objects from the rows; it
    executes no statement that changes a row, and commits nothing. *)

Module SQLite.

(** What is read from a [REAL] column into which the float [x] was written,
    for an [x] that is not a NaN: the same float, except that the sign of a
    zero is lost.  (A NaN is kept as [NULL] and read as [None]; the
    attributes of [employee] are floats, so that the queries are stated for
    rows without NaN.) *)
Definition real_column (x : float) : float :=
  if PrimFloat.eqb x 0 then 0%float else x.

(** The rows that a [SELECT] without [ORDER BY] returns: the table is
    scanned by its key. *)
Definition key_le {A} (a b : Z * A) : Prop := a.1 ≤ b.1.

#[global] Instance key_le_dec {A} (a b : Z * A) : Decision (key_le a b) :=
  Z_le_dec a.1 b.1.

Definition table_scan {A} (t : table A) : list (Z * A) :=
  merge_sort key_le (map_to_list (rows t)).

(** [SELECT ... WHERE id = ?] and [cursor.fetchone()]: the row under the
    key, with the key as its first column. *)
Definition fetchone {A} (t : table A) (id : Z) : option (Z * A) :=
  (λ r, (id, r)) <$> rows t !! id.

End SQLite.

Import SQLite.

Definition get_db : M DB := λ w, (Ok (db w), w).

(** [xs = []], then [xs.append(make(row))] for each row, then
    [return xs]: the loop of the four queries that return a list. *)
Definition collect {A} (make : A → M loc) (rows : list A) : M loc :=
  xs ← alloc (OList []);
  foldM (λ (_ : unit) (row : A), x ← make row; PyList.append xs x) tt rows;;
  mret xs.

Module Query.

(** [Employee(employee_id=row[0], name=row[1], position=row[2],
    salary=row[3], hours_worked=row[4])] *)
Definition employee_of_row (row : Z * employee_row) : M loc :=
  Employee.__init__ (er_name row.2) (er_position row.2)
    (real_column (er_salary row.2)) (real_column (er_hours_worked row.2))
    (Some row.1).

Definition get_all_employees : M loc :=
  d ← get_db;
  collect employee_of_row (table_scan (employees d)).

Definition get_employee_by_id (employee_id : Z) : M (option loc) :=
  d ← get_db;
  match fetchone (employees d) employee_id with
  | Some row => emp ← employee_of_row row; mret (Some emp)
  | None => mret None
  end.

(** The body of the loops of [get_tasks_by_project] and [get_all_tasks];
    [if row[4]] fails for [None] and for [0]. *)
Definition task_of_row (row : Z * task_row) : M loc :=
  employee ← match tr_employee_id row.2 with
             | Some employee_id =>
                 if bool_decide (employee_id = 0) then mret None
                 else get_employee_by_id employee_id
             | None => mret None
             end;
  Task.__init__ (tr_title row.2) (tr_description row.2) (tr_status row.2)
                employee (Some row.1) (tr_project_id row.2).

Definition get_tasks_by_project (project_id : option Z) : M loc :=
  d ← get_db;
  collect task_of_row
    (List.filter (λ row, sql_eq (tr_project_id row.2) project_id)
                 (table_scan (tasks d))).

Definition get_all_tasks : M loc :=
  d ← get_db;
  collect task_of_row (table_scan (tasks d)).

(** [Project(project_id=row[0], title=row[1])], then the tasks of the
    project are loaded and handed to [set_tasks]. *)
Definition project_of_row (row : Z * project_row) : M loc :=
  project ← Project.__init__ (pr_title row.2) (Some row.1);
  id ← Project.get_id project;
  tasks ← get_tasks_by_project id;
  Project.set_tasks project tasks;;
  mret project.

Definition get_all_projects : M loc :=
  d ← get_db;
  collect project_of_row (table_scan (projects d)).

Definition get_project_by_id (project_id : Z) : M (option loc) :=
  d ← get_db;
  match fetchone (projects d) project_id with
  | Some row => project ← project_of_row row; mret (Some project)
  | None => mret None
  end.

End Query.

(** ** Vocabulary of the statements about the queries *)

(** The attributes of the employee object built from the row [r] under the
    key [i]. *)
Definition employee_read (i : Z) (r : employee_row) : employee :=
  mkEmployee (Some i) (er_name r) (er_position r)
             (real_column (er_salary r)) (real_column (er_hours_worked r)).

(** The row of the employee that a task row refers to, when it refers to
    one by a key that is not [0] and that the table has. *)
Definition task_employee (d : DB) (r : task_row) : option (Z * employee_row) :=
  match tr_employee_id r with
  | Some i => if bool_decide (i = 0) then None
              else fetchone (employees d) i
  | None => None
  end.

(** [x] is a task object made from the row [row] after the heap was [h0]:
    a new object with the columns of the row, that refers to a new employee
    object made from the row of its employee, or to none. *)
Definition task_loaded (d : DB) (row : Z * task_row)
    (h0 h : gmap loc object) (x : loc) : Prop :=
  h0 !! x = None
  ∧ ∃ t, h !! x = Some (OTask t)
      ∧ task_id t = Some row.1
      ∧ task_title t = tr_title row.2
      ∧ task_description t = tr_description row.2
      ∧ task_status t = tr_status row.2
      ∧ task_project_id t = tr_project_id row.2
      ∧ match task_assigned_employee t, task_employee d row.2 with
        | Some a, Some er =>
            h0 !! a = None
            ∧ h !! a = Some (OEmployee (employee_read er.1 er.2))
        | None, None => True
        | _, _ => False
        end.

(** The task rows of a project, as [get_tasks_by_project] selects them. *)
Definition task_rows_of (d : DB) (project_id : option Z)
    : list (Z * task_row) :=
  List.filter (λ row, sql_eq (tr_project_id row.2) project_id)
              (table_scan (tasks d)).

(** [x] is a project object made from the row [row] after the heap was
    [h0]: a new object with a new list of new task objects, one for each
    task row of the project. *)
Definition project_loaded (d : DB) (row : Z * project_row)
    (h0 h : gmap loc object) (x : loc) : Prop :=
  h0 !! x = None
  ∧ ∃ l xs, h !! x = Some (OProject (mkProject (Some row.1) (pr_title row.2) l))
      ∧ h0 !! l = None
      ∧ h !! l = Some (OList xs)
      ∧ NoDup xs
      ∧ Forall2 (λ y r, task_loaded d r h0 h y) xs
                (task_rows_of d (Some row.1)).

(** [x] is an employee object made from the row [row] after the heap was
    [h0]. *)
Definition employee_loaded (row : Z * employee_row)
    (h0 h : gmap loc object) (x : loc) : Prop :=
  h0 !! x = None
  ∧ h !! x = Some (OEmployee (employee_read row.1 row.2)).

(** A float that a [REAL] column gives back as it is. *)
Definition kept_real (x : float) : Prop := real_column x = x.

(** No [REAL] column of the employees holds a NaN. *)
Definition real_rows (d : DB) : Prop :=
  map_Forall (λ _ r, is_nan (er_salary r) = false
                     ∧ is_nan (er_hours_worked r) = false)
             (rows (employees d)).

(** How many of the task rows have the completed status. *)
Definition completed_rows (rs : list (Z * task_row)) : Z :=
  Z.of_nat (length (List.filter
    (λ row, bool_decide (tr_status row.2 = Task.COMPLETED)) rs)).

(** A string that can be written to a [TEXT] column: it has no surrogate
    code point, which the binding of the parameter rejects. *)
Definition storable_text (s : str) : Prop :=
  Forall (λ c, (c < 55296 ∨ 57343 < c)%N) s.

(** An integer that can be written to an [INTEGER] column. *)
Definition storable_int (z : option Z) : Prop :=
  match z with
  | Some i => - 2 ^ 63 ≤ i < 2 ^ 63
  | None => True
  end.

(** The parameters that [add_employee] and [update_employee] bind for the
    employee can be written. *)
Definition storable_employee (e : employee) : Prop :=
  storable_text (emp_name e) ∧ storable_text (emp_position e)
  ∧ storable_int (emp_id e).

(** The parameters that [add_project] and [update_project] bind for the
    project can be written. *)
Definition storable_project (p : project) : Prop :=
  storable_text (proj_title p) ∧ storable_int (proj_id p).

(** The parameters that [add_task] and [update_task] bind for the task can
    be written. *)
Definition storable_task (h : gmap loc object) (t : task) : Prop :=
  storable_text (task_title t) ∧ storable_text (task_description t)
  ∧ storable_text (task_status t)
  ∧ storable_int (assigned_employee_id h t)
  ∧ storable_int (task_project_id t)
  ∧ storable_int (task_id t).

(** The table can take one more row: the next key is an integer of 64
    bits. *)
Definition has_room {A} (t : table A) : Prop := next_rowid t < 2 ^ 63.

(** ** Integers among the floats

    [float(z)]: the integer rounded to the nearest float.  (Python raises
    [OverflowError] for an integer beyond the floats; the model gives an
    infinity there.) *)
Definition float_of_int (z : Z) : float :=
  SF2Prim (binary_normalize prec emax z 0 false).

(** [z + x] for an [int] and a [float]: the integer is converted first. *)
Definition int_add_float (z : Z) (x : float) : float :=
  PrimFloat.add (float_of_int z) x.

(** [x < z] for a [float] and an [int]: Python compares the two values
    exactly, without converting the integer. *)
Definition float_lt_int (x : float) (z : Z) : bool :=
  match Prim2SF x with
  | S754_zero _ => 0 <? z
  | S754_infinity s => s
  | S754_nan => false
  | S754_finite s m e =>
      let v := if s then Z.neg m else Z.pos m in
      if 0 <=? e then v * 2 ^ e <? z else v <? z * 2 ^ (- e)
  end.

(** ** Sequences of calls of the store

    The public methods of [DatabaseManager] other than [close], with their
    arguments. *)

Inductive store_op : Type :=
| S_add_employee (employee : loc)
| S_update_employee (employee : loc)
| S_delete_employee (employee_id : Z)
| S_get_all_employees
| S_get_employee_by_id (employee_id : Z)
| S_add_project (project : loc)
| S_update_project (project : loc)
| S_delete_project (project_id : Z)
| S_get_all_projects
| S_get_project_by_id (project_id : Z)
| S_add_task (task : loc)
| S_update_task (task : loc)
| S_delete_task (task_id : Z)
| S_get_tasks_by_project (project_id : option Z)
| S_get_all_tasks.

Definition store_call (c : store_op) : M unit :=
  match c with
  | S_add_employee e => drop (DatabaseManager.add_employee e)
  | S_update_employee e => DatabaseManager.update_employee e
  | S_delete_employee i => DatabaseManager.delete_employee i
  | S_get_all_employees => drop Query.get_all_employees
  | S_get_employee_by_id i => drop (Query.get_employee_by_id i)
  | S_add_project p => drop (DatabaseManager.add_project p)
  | S_update_project p => DatabaseManager.update_project p
  | S_delete_project i => DatabaseManager.delete_project i
  | S_get_all_projects => drop Query.get_all_projects
  | S_get_project_by_id i => drop (Query.get_project_by_id i)
  | S_add_task t => drop (DatabaseManager.add_task t)
  | S_update_task t => DatabaseManager.update_task t
  | S_delete_task i => DatabaseManager.delete_task i
  | S_get_tasks_by_project i => drop (Query.get_tasks_by_project i)
  | S_get_all_tasks => drop Query.get_all_tasks
  end.

(** No table has handed out fewer keys in [d'] than in [d]. *)
Definition seq_le (d d' : DB) : Prop :=
  seq (employees d) ≤ seq (employees d')
  ∧ seq (projects d) ≤ seq (projects d')
  ∧ seq (tasks d) ≤ seq (tasks d').

(** A computation that takes back no key, from any world. *)
Definition keeps_seq {A} (m : M A) : Prop :=
  ∀ w, seq_le (db w) (db (after m w)).

(** Every reference of a task row that is not [NULL] is the key of a
    row. *)
Definition references_ok (d : DB) : Prop :=
  ∀ k r, rows (tasks d) !! k = Some r →
    (∀ i, tr_employee_id r = Some i → is_Some (rows (employees d) !! i))
    ∧ (∀ i, tr_project_id r = Some i → is_Some (rows (projects d) !! i)).

(** A store for examples: one employee, and one project with a completed
    task of the employee and an unassigned task in progress. *)
Definition tracker_DB : DB :=
  mkDB (mkTable {[ 1 := employee_row_of sample_employee ]} 1)
       (mkTable {[ 1 := mkProjectRow (of_ascii "Tracker"%string) ]} 1)
       (mkTable (<[ 1 := mkTaskRow (of_ascii "Design"%string) []
                           Task.COMPLETED (Some 1) (Some 1) ]>
                 {[ 2 := mkTaskRow (of_ascii "Build"%string) []
                           Task.IN_PROGRESS None (Some 1) ]}) 2).

Definition tracker_world : World := mkWorld ∅ tracker_DB [].

(** ** The builtin [sorted] *)




(** ** analytics.py: the totals of [WorkAnalytics]

    The methods read the two lists that the object was made with; here the
    elements of the list are the argument.  The totals start from the
    integer [0], which the first addition converts to the float [0.0]. *)

Module WorkAnalytics.

Definition get_total_salary_expenses (employees : list loc) : M float :=
  foldM (λ (total : float) (emp : loc),
           pay ← Employee.calculate_pay emp;
           mret (PrimFloat.add total pay)) 0%float employees.

Definition get_total_hours_worked (employees : list loc) : M float :=
  foldM (λ (total : float) (emp : loc),
           hours ← Employee.get_hours_worked emp;
           mret (PrimFloat.add total hours)) 0%float employees.

Definition get_overall_progress (projects : list loc) : M float :=
  if bool_decide (projects = []) then mret 0%float
  else
    c ← foldM (λ (c : Z * Z) (proj : loc),
           let '(total_tasks, completed_tasks) := c in
           l ← Project.get_tasks proj;
           tasks ← load_list l;
           let total_tasks := total_tasks + Z.of_nat (length tasks) in
           n ← foldM (λ (n : Z) (t : loc),
                  c ← Task.is_completed t;
                  if (c : bool) then mret (n + 1) else mret n) 0 tasks;
           mret (total_tasks, completed_tasks + n)) (0, 0) projects;
    let '(total_tasks, completed_tasks) := c in
    if bool_decide (total_tasks = 0) then mret 0%float
    else mret (PrimFloat.mul (int_truediv completed_tasks total_tasks) 100).



End WorkAnalytics.






(** [l] is an employee whose salary and hours are not negative. *)
Definition employee_ok (h : gmap loc object) (l : loc) : Prop :=
  ∃ e, h !! l = Some (OEmployee e) ∧ salary_ok e ∧ hours_ok e.

(** ** Regular expressions

    The part of the patterns of [re] that [validate_email] uses: character
    classes, concatenation and repetition.  A string matches when the
    derivative of the expression by the string, character after character,
    accepts the empty string. *)

Module Re.

Inductive regex : Type :=
| Empty
| Eps
| Class (c : N → bool)
| Cat (r s : regex)
| Alt (r s : regex)
| Star (r : regex).

(** [r+] *)
Definition Plus (r : regex) : regex := Cat r (Star r).

(** [r{2,}] *)
Definition AtLeast2 (r : regex) : regex := Cat r (Cat r (Star r)).

Fixpoint nullable (r : regex) : bool :=
  match r with
  | Empty => false
  | Eps => true
  | Class _ => false
  | Cat r s => nullable r && nullable s
  | Alt r s => nullable r || nullable s
  | Star _ => true
  end.

Fixpoint deriv (a : N) (r : regex) : regex :=
  match r with
  | Empty => Empty
  | Eps => Empty
  | Class c => if c a then Eps else Empty
  | Cat r s =>
      if nullable r then Alt (Cat (deriv a r) s) (deriv a s)
      else Cat (deriv a r) s
  | Alt r s => Alt (deriv a r) (deriv a s)
  | Star r => Cat (deriv a r) (Star r)
  end.

(** The whole of [s] matches [r]. *)
Definition fullmatch (r : regex) (s : str) : bool :=
  nullable (foldl (λ r a, deriv a r) r s).

(** [re.match('^' + r + '$', s)] is a match: [$] matches at the end of the
    string and before a newline that ends the string. *)
Definition match_anchored (r : regex) (s : str) : bool :=
  fullmatch r s
  || match rev s with
     | 10%N :: s' => fullmatch r (rev s')
     | _ => false
     end.

(** The strings that match [r]. *)
Fixpoint denotes (r : regex) (s : str) : Prop :=
  match r with
  | Empty => False
  | Eps => s = []
  | Class c => ∃ a, s = [a] ∧ c a = true
  | Cat r1 r2 => ∃ s1 s2, s = s1 ++ s2 ∧ denotes r1 s1 ∧ denotes r2 s2
  | Alt r1 r2 => denotes r1 s ∨ denotes r2 s
  | Star r1 => ∃ ss, s = concat ss ∧ Forall (denotes r1) ss
  end.

End Re.

(** ** utils.py *)

Module Utils.

Import Re.

(** [[a-zA-Z]] *)
Definition letter (c : N) : bool :=
  ((97 <=? c) && (c <=? 122) || (65 <=? c) && (c <=? 90))%N.

(** [[a-zA-Z0-9._%+-]] *)
Definition local_char (c : N) : bool :=
  (letter c || (48 <=? c) && (c <=? 57)
   || (c =? 46) || (c =? 95) || (c =? 37) || (c =? 43) || (c =? 45))%N.

(** [[a-zA-Z0-9.-]] *)
Definition domain_char (c : N) : bool :=
  (letter c || (48 <=? c) && (c <=? 57) || (c =? 46) || (c =? 45))%N.

(** [[a-zA-Z0-9._%+-]+@[a-zA-Z0-9.-]+\.[a-zA-Z]{2,}] *)
Definition EMAIL : regex :=
  Cat (Plus (Class local_char))
      (Cat (Class (N.eqb 64))
           (Cat (Plus (Class domain_char))
                (Cat (Class (N.eqb 46)) (AtLeast2 (Class letter))))).

Definition validate_email (email : str) : bool := match_anchored EMAIL email.

(** [text[:stop]]: a negative [stop] counts from the end. *)
Definition slice_to (text : str) (stop : Z) : str :=
  let n := Z.of_nat (length text) in
  take (Z.to_nat (if stop <? 0 then Z.max (n + stop) 0 else Z.min stop n))
       text.

Definition truncate_text (text : str) (max_length : Z) : str :=
  if Z.of_nat (length text) <=? max_length then text
  else slice_to text (max_length - 3) ++ of_ascii "..."%string.

(** [a / b] on two floats. *)
Definition float_truediv (a b : float) : M float :=
  if PrimFloat.eqb b 0 then raise ZeroDivisionError
  else mret (PrimFloat.div a b).

Definition calculate_percentage (part total : float) : M float :=
  if PrimFloat.eqb total 0 then mret 0%float
  else
    q ← float_truediv part total;
    mret (PrimFloat.mul q 100).

End Utils.

(** What [validate_email] accepts apart from a final newline: a local part,
    [@], a domain, a dot and at least two letters. *)
Definition address (s : str) : Prop :=
  ∃ name domain tld,
    s = name ++ [64%N] ++ domain ++ [46%N] ++ tld
    ∧ name ≠ [] ∧ forallb Utils.local_char name = true
    ∧ domain ≠ [] ∧ forallb Utils.domain_char domain = true
    ∧ (2 ≤ length tld)%nat ∧ forallb Utils.letter tld = true.

(** * Properties *)

Lemma bind_Ok {A B} (m : M A) (f : A → M B) (w w' : World) (a : A) :
  m w = (Ok a, w') → (m ≫= f) w = f a w'.
Proof. intros H. unfold mbind, M_bind. by rewrite H. Qed.

Lemma bind_Raise {A B} (m : M A) (f : A → M B) (w w' : World) (e : exn) :
  m w = (Raise e, w') → (m ≫= f) w = (Raise e, w').
Proof. intros H. unfold mbind, M_bind. by rewrite H. Qed.

Lemma load_employee_Ok (w : World) (l : loc) (e : employee) :
  heap w !! l = Some (OEmployee e) → load_employee l w = (Ok e, w).
Proof. intros H. unfold load_employee, get_heap, mbind, M_bind. by rewrite H. Qed.

Lemma load_task_Ok (w : World) (l : loc) (t : task) :
  heap w !! l = Some (OTask t) → load_task l w = (Ok t, w).
Proof. intros H. unfold load_task, get_heap, mbind, M_bind. by rewrite H. Qed.

Lemma load_project_Ok (w : World) (l : loc) (p : project) :
  heap w !! l = Some (OProject p) → load_project l w = (Ok p, w).
Proof. intros H. unfold load_project, get_heap, mbind, M_bind. by rewrite H. Qed.

Lemma load_list_Ok (w : World) (l : loc) (xs : list loc) :
  heap w !! l = Some (OList xs) → load_list l w = (Ok xs, w).
Proof. intros H. unfold load_list, get_heap, mbind, M_bind. by rewrite H. Qed.

Lemma alloc_Ok (w : World) (o : object) :
  alloc o w = (Ok (fresh (dom (heap w))),
               mkWorld (<[fresh (dom (heap w)) := o]> (heap w)) (db w) (log w)).
Proof. reflexivity. Qed.

Lemma fresh_loc_unused (h : gmap loc object) : h !! fresh (dom h) = None.
Proof. apply not_elem_of_dom, is_fresh. Qed.

(** Running a call step by step: a read of an object whose content is known
    from [H] is replaced by its outcome. *)
Ltac run_with H :=
  unfold mbind, M_bind, mret, M_ret; simpl;
  repeat (first [ erewrite load_employee_Ok by exact H
                | erewrite load_task_Ok by exact H
                | erewrite load_project_Ok by exact H
                | erewrite load_list_Ok by exact H ]; simpl).

(** ** Strings: [strip] leaves nothing exactly of a blank string *)

Lemma lstrip_nil (s : str) : lstrip s = [] ↔ blank s = true.
Proof.
  induction s as [|c s IH]; simpl; [done|].
  destruct (isspace c); simpl; [done|].
  split; discriminate.
Qed.

Lemma lstrip_keeps_nonspace (s : str) (c : N) :
  isspace c = false → lstrip (s ++ [c]) ≠ [].
Proof.
  intros Hc. induction s as [|d s IH]; simpl.
  - by rewrite Hc.
  - by destruct (isspace d).
Qed.

Lemma lstrip_head (s : str) :
  lstrip s = [] ∨ ∃ c t, lstrip s = c :: t ∧ isspace c = false.
Proof.
  induction s as [|c s IH]; simpl; [by left|].
  destruct (isspace c) eqn:Hc; [done|].
  right. by exists c, s.
Qed.

Lemma strip_nil (s : str) : strip s = [] ↔ blank s = true.
Proof.
  unfold strip, rstrip.
  destruct (lstrip_head s) as [Hn | (c & t & Hs & Hc)].
  - rewrite Hn. simpl. by rewrite <- lstrip_nil.
  - rewrite Hs. split.
    + intros Hr. exfalso.
      apply (f_equal (@rev N)) in Hr. rewrite rev_involutive in Hr.
      simpl in Hr. by apply (lstrip_keeps_nonspace (rev t) c).
    + intros Hb. apply lstrip_nil in Hb. congruence.
Qed.

Lemma truthy_strip (s : str) : truthy (strip s) = negb (blank s).
Proof.
  destruct (blank s) eqn:Hb.
  - apply strip_nil in Hb. by rewrite Hb.
  - destruct (strip s) eqn:Hs; [|done].
    apply strip_nil in Hs. congruence.
Qed.

Lemma blank_false (s : str) :
  blank s = false ↔ ∃ c, c ∈ s ∧ isspace c = false.
Proof.
  unfold blank. induction s as [|c s IH]; simpl.
  - split; [done|]. intros (c & Hc & _). by apply elem_of_nil in Hc.
  - destruct (isspace c) eqn:Hc; simpl.
    + rewrite IH. split.
      * intros (d & Hd & Hs). exists d. split; [by right|done].
      * intros (d & Hd & Hs). apply elem_of_cons in Hd as [->|Hd];
          [congruence|by exists d].
    + split; [|done]. intros _. exists c. split; [by left|done].
Qed.

(** ** Setters of names and titles *)

Lemma set_name_blank (w : World) (self : loc) (value : str) :
  blank value = true → Employee.set_name self value w = (Raise ValueError, w).
Proof. intros Hb. unfold Employee.set_name. by rewrite truthy_strip, Hb. Qed.

Lemma set_name_stores (w : World) (self : loc) (value : str) (e : employee) :
  blank value = false → heap w !! self = Some (OEmployee e) →
  Employee.set_name self value w =
    (Ok tt, mkWorld (<[self := OEmployee (mkEmployee (emp_id e) value
                                 (emp_position e) (emp_salary e)
                                 (emp_hours_worked e))]> (heap w))
                    (db w) (log w)).
Proof.
  intros Hb He. unfold Employee.set_name. rewrite truthy_strip, Hb. simpl.
  by run_with He.
Qed.

Lemma project_set_title_blank (w : World) (self : loc) (value : str) :
  blank value = true → Project.set_title self value w = (Raise ValueError, w).
Proof. intros Hb. unfold Project.set_title. by rewrite truthy_strip, Hb. Qed.

Lemma project_set_title_stores (w : World) (self : loc) (value : str)
    (p : project) :
  blank value = false → heap w !! self = Some (OProject p) →
  Project.set_title self value w =
    (Ok tt, mkWorld (<[self := OProject (mkProject (proj_id p) value
                                           (proj_tasks p))]> (heap w))
                    (db w) (log w)).
Proof.
  intros Hb Hp. unfold Project.set_title. rewrite truthy_strip, Hb. simpl.
  by run_with Hp.
Qed.

Lemma task_set_title_blank (w : World) (self : loc) (value : str) :
  blank value = true → Task.set_title self value w = (Raise ValueError, w).
Proof. intros Hb. unfold Task.set_title. by rewrite truthy_strip, Hb. Qed.

Lemma task_set_title_stores (w : World) (self : loc) (value : str) (t : task) :
  blank value = false → heap w !! self = Some (OTask t) →
  Task.set_title self value w =
    (Ok tt, mkWorld (<[self := OTask (mkTask (task_id t) value
                        (task_description t) (task_status t)
                        (task_assigned_employee t) (task_project_id t))]>
                       (heap w))
                    (db w) (log w)).
Proof.
  intros Hb Ht. unfold Task.set_title. rewrite truthy_strip, Hb. simpl.
  by run_with Ht.
Qed.

(** C6: on an employee, a project and a task, the setter of the name or title
    called with an empty or whitespace-only string raises [ValueError] and
    leaves the world as it was; called with a string that has a character
    that is not whitespace it returns, the object holds that string (the
    getter returns it) and its other attributes are the old ones. *)
Theorem name_and_title_setters_validate
    (w : World) (value : str) (le lp lt : loc)
    (e : employee) (p : project) (t : task) :
  heap w !! le = Some (OEmployee e) →
  heap w !! lp = Some (OProject p) →
  heap w !! lt = Some (OTask t) →
  if blank value then
    Employee.set_name le value w = (Raise ValueError, w)
    ∧ Project.set_title lp value w = (Raise ValueError, w)
    ∧ Task.set_title lt value w = (Raise ValueError, w)
  else
    (∃ c, c ∈ value ∧ isspace c = false)
    ∧ (result (Employee.set_name le value) w = Ok tt
       ∧ heap (after (Employee.set_name le value) w) =
           <[le := OEmployee (mkEmployee (emp_id e) value (emp_position e)
                                (emp_salary e) (emp_hours_worked e))]> (heap w)
       ∧ result (Employee.get_name le) (after (Employee.set_name le value) w)
           = Ok value)
    ∧ (result (Project.set_title lp value) w = Ok tt
       ∧ heap (after (Project.set_title lp value) w) =
           <[lp := OProject (mkProject (proj_id p) value (proj_tasks p))]>
             (heap w)
       ∧ result (Project.get_title lp) (after (Project.set_title lp value) w)
           = Ok value)
    ∧ (result (Task.set_title lt value) w = Ok tt
       ∧ heap (after (Task.set_title lt value) w) =
           <[lt := OTask (mkTask (task_id t) value (task_description t)
                            (task_status t) (task_assigned_employee t)
                            (task_project_id t))]> (heap w)
       ∧ result (Task.get_title lt) (after (Task.set_title lt value) w)
           = Ok value).
Proof.
  intros He Hp Ht. destruct (blank value) eqn:Hb.
  - auto using set_name_blank, project_set_title_blank, task_set_title_blank.
  - split; [by apply blank_false|].
    unfold result, after.
    rewrite (set_name_stores _ _ _ _ Hb He),
      (project_set_title_stores _ _ _ _ Hb Hp),
      (task_set_title_stores _ _ _ _ Hb Ht). simpl.
    unfold Employee.get_name, Project.get_title, Task.get_title.
    repeat split.
    + erewrite bind_Ok; [|apply load_employee_Ok; simpl; apply lookup_insert_eq].
      done.
    + erewrite bind_Ok; [|apply load_project_Ok; simpl; apply lookup_insert_eq].
      done.
    + erewrite bind_Ok; [|apply load_task_Ok; simpl; apply lookup_insert_eq].
      done.
Qed.

Lemma name_and_title_setters_validate_blank_witness :
  Employee.set_name 1%positive [32%N; 9%N] sample_world
    = (Raise ValueError, sample_world)
  ∧ Project.set_title 5%positive [32%N; 9%N] sample_world
    = (Raise ValueError, sample_world)
  ∧ Task.set_title 3%positive [32%N; 9%N] sample_world
    = (Raise ValueError, sample_world).
Proof.
  apply (name_and_title_setters_validate sample_world [32%N; 9%N]
           1%positive 5%positive 3%positive
           sample_employee sample_project sample_task_done);
    reflexivity.
Defined.

(** ** Tables *)

Section Tables.
Context {A : Type}.
Implicit Types (t : table A) (m : gmap Z A) (r : A).

Lemma table_eta t : mkTable (rows t) (seq t) = t.
Proof. by destruct t. Qed.

Lemma foldr_max_bound (l : list Z) (i : Z) : i ∈ l → i ≤ foldr Z.max 0 l.
Proof.
  induction l as [|j l IH]; intros Hi.
  - by apply elem_of_nil in Hi.
  - apply elem_of_cons in Hi as [->|Hi]; simpl; [lia|].
    specialize (IH Hi). lia.
Qed.

Lemma max_rowid_bound m (i : Z) : is_Some (m !! i) → i ≤ max_rowid m.
Proof.
  intros Hi. apply foldr_max_bound, elem_of_elements. by apply elem_of_dom.
Qed.

(** The key of an inserted row is not the key of any row of the table. *)
Lemma next_rowid_fresh t : rows t !! next_rowid t = None.
Proof.
  destruct (rows t !! next_rowid t) eqn:Hl; [|done].
  assert (next_rowid t ≤ max_rowid (rows t)) by (apply max_rowid_bound; eauto).
  unfold next_rowid in *. lia.
Qed.

Lemma next_rowid_above_seq t : seq t < next_rowid t.
Proof. unfold next_rowid. lia. Qed.

(** [UPDATE ... WHERE id = i] on a table without a row [i]. *)
Lemma table_update_absent r (i : Z) t :
  rows t !! i = None → table_update r (Some i) t = t.
Proof.
  destruct t as [m s]. simpl. intros Hi. unfold table_update. simpl. f_equal.
  apply map_eq. intros j. rewrite lookup_alter. case_decide; [|done].
  subst j. by rewrite Hi.
Qed.

(** [UPDATE ... WHERE id = i] on a table with a row [i]. *)
Lemma table_update_present r (i : Z) t :
  is_Some (rows t !! i) →
  table_update r (Some i) t = mkTable (<[i := r]> (rows t)) (seq t).
Proof.
  intros [old Hi]. unfold table_update. f_equal.
  apply map_eq. intros j. rewrite lookup_alter, (lookup_insert (rows t)).
  case_decide; [|done]. subst j. by rewrite Hi.
Qed.

End Tables.

Lemma add_employee_run (w : World) (self : loc) (e : employee) :
  heap w !! self = Some (OEmployee e) →
  DatabaseManager.add_employee self w =
    let s := INSERT_employee (emp_name e) (emp_position e) (emp_salary e)
                             (emp_hours_worked e) in
    (Ok (exec_stmt s (db w)).2,
     mkWorld (heap w) (exec_stmt s (db w)).1
             (log w ++ [Executed s; Committed])).
Proof.
  intros He. unfold DatabaseManager.add_employee, Employee.get_name,
    Employee.get_position, Employee.get_salary, Employee.get_hours_worked.
  run_with He. by rewrite <- app_assoc.
Qed.

Lemma add_project_run (w : World) (self : loc) (p : project) :
  heap w !! self = Some (OProject p) →
  DatabaseManager.add_project self w =
    (Ok (Some (next_rowid (projects (db w)))),
     mkWorld (heap w)
       (mkDB (employees (db w))
             (table_insert (project_row_of p) (projects (db w))).1
             (tasks (db w)))
       (log w ++ [Executed (INSERT_project (proj_title p)); Committed])).
Proof.
  intros Hp. unfold DatabaseManager.add_project, Project.get_title.
  run_with Hp. by rewrite <- app_assoc.
Qed.

Lemma employee_id_of_run (w : World) (t : task) :
  assignee_ok (heap w) t →
  DatabaseManager.employee_id_of (task_assigned_employee t) w
  = (Ok (assigned_employee_id (heap w) t), w).
Proof.
  unfold assignee_ok, assigned_employee_id.
  destruct (task_assigned_employee t) as [a|]; [|done].
  intros Ha. destruct (Ha a eq_refl) as [ea Hea]. rewrite Hea. simpl.
  unfold Employee.get_id. by run_with Hea.
Qed.

Lemma add_task_run (w : World) (self : loc) (t : task) :
  heap w !! self = Some (OTask t) → assignee_ok (heap w) t →
  DatabaseManager.add_task self w =
    (Ok (Some (next_rowid (tasks (db w)))),
     mkWorld (heap w)
       (mkDB (employees (db w)) (projects (db w))
             (table_insert (task_row_of (heap w) t) (tasks (db w))).1)
       (log w ++ [Executed (INSERT_task (task_title t) (task_description t)
                              (task_status t)
                              (assigned_employee_id (heap w) t)
                              (task_project_id t));
                  Committed])).
Proof.
  intros Ht Ha. unfold DatabaseManager.add_task, Task.get_assigned_employee,
    Task.get_title, Task.get_description, Task.get_status,
    Task.get_project_id.
  run_with Ht. rewrite (employee_id_of_run _ _ Ha). run_with Ht.
  by rewrite <- app_assoc.
Qed.

Lemma table_insert_inserted {A} (r : A) (t : table A) :
  inserted t r (next_rowid t) (table_insert r t).1.
Proof.
  unfold inserted, table_insert. simpl.
  auto using next_rowid_fresh, next_rowid_above_seq.
Qed.

Lemma max_rowid_nonneg {A} (m : gmap Z A) : 0 ≤ max_rowid m.
Proof.
  unfold max_rowid. induction (elements (dom m)) as [|i l IH]; simpl; lia.
Qed.

(** The key of the next row of a table with room is an integer of 64
    bits. *)
Lemma next_rowid_storable {A} (t : table A) :
  has_room t → storable_int (Some (next_rowid t)).
Proof.
  unfold has_room, storable_int. intros Hroom.
  pose proof (max_rowid_nonneg (rows t)). unfold next_rowid in *. lia.
Qed.

(** Values on which the binding is decided by evaluation. *)
Ltac storable :=
  unfold storable_employee, storable_project, storable_task, storable_text,
    storable_int, has_room;
  repeat match goal with
         | |- _ ∧ _ => split
         | |- Forall _ _ => repeat constructor
         | |- True => exact I
         | |- _ => vm_compute; first [ reflexivity | discriminate ]
         end.

(** C1 (as the code has it): for an employee, a project and a task without
    identifier, whose texts and references the store can hold (the salary
    and the hours of the employee are floats), and tables that can take one
    more row, [add_employee], [add_project] and [add_task] return a new
    identifier, an integer of 64 bits, and insert one row under it, built
    from the attributes of the object; the other tables are as before.  No
    object is changed: after the call [get_id()] of the entity still returns
    [None]. *)
Theorem add_returns_new_id_and_leaves_entity
    (w : World) (le lp lt : loc) (e : employee) (p : project) (t : task) :
  heap w !! le = Some (OEmployee e) → emp_id e = None →
  heap w !! lp = Some (OProject p) → proj_id p = None →
  heap w !! lt = Some (OTask t) → task_id t = None →
  assignee_ok (heap w) t →
  storable_employee e → storable_project p → storable_task (heap w) t →
  has_room (employees (db w)) → has_room (projects (db w)) →
  has_room (tasks (db w)) →
  (∃ i, let w' := after (DatabaseManager.add_employee le) w in
        result (DatabaseManager.add_employee le) w = Ok (Some i)
        ∧ storable_int (Some i)
        ∧ inserted (employees (db w)) (employee_row_of e) i
                   (employees (db w'))
        ∧ projects (db w') = projects (db w) ∧ tasks (db w') = tasks (db w)
        ∧ heap w' = heap w
        ∧ result (Employee.get_id le) w' = Ok None)
  ∧ (∃ i, let w' := after (DatabaseManager.add_project lp) w in
        result (DatabaseManager.add_project lp) w = Ok (Some i)
        ∧ storable_int (Some i)
        ∧ inserted (projects (db w)) (project_row_of p) i (projects (db w'))
        ∧ employees (db w') = employees (db w)
        ∧ tasks (db w') = tasks (db w)
        ∧ heap w' = heap w
        ∧ result (Project.get_id lp) w' = Ok None)
  ∧ (∃ i, let w' := after (DatabaseManager.add_task lt) w in
        result (DatabaseManager.add_task lt) w = Ok (Some i)
        ∧ storable_int (Some i)
        ∧ inserted (tasks (db w)) (task_row_of (heap w) t) i (tasks (db w'))
        ∧ employees (db w') = employees (db w)
        ∧ projects (db w') = projects (db w)
        ∧ heap w' = heap w
        ∧ result (Task.get_id lt) w' = Ok None).
Proof.
  intros He Hei Hp Hpi Ht Hti Ha _ _ _ Hre Hrp Hrt.
  unfold result, after. split; [|split].
  - exists (next_rowid (employees (db w))).
    rewrite (add_employee_run _ _ _ He). simpl.
    split; [done|]. split; [by apply next_rowid_storable|].
    split; [apply table_insert_inserted|].
    do 3 (split; [done|]).
    unfold Employee.get_id. run_with He. by rewrite Hei.
  - exists (next_rowid (projects (db w))).
    rewrite (add_project_run _ _ _ Hp). simpl.
    split; [done|]. split; [by apply next_rowid_storable|].
    split; [apply table_insert_inserted|].
    do 3 (split; [done|]).
    unfold Project.get_id. run_with Hp. by rewrite Hpi.
  - exists (next_rowid (tasks (db w))).
    rewrite (add_task_run _ _ _ Ht Ha). simpl.
    split; [done|]. split; [by apply next_rowid_storable|].
    split; [apply table_insert_inserted|].
    do 3 (split; [done|]).
    unfold Task.get_id. run_with Ht. by rewrite Hti.
Qed.

Lemma sample_assignee_ok : assignee_ok sample_heap sample_task_done.
Proof. intros a [= <-]. by exists sample_employee. Qed.

Lemma key_1_storable : storable_int (Some 1).
Proof. by storable. Qed.

(** The texts and references of the sample objects can be written. *)
Lemma sample_employee_storable : storable_employee sample_employee.
Proof. by storable. Qed.

Lemma sample_project_storable : storable_project sample_project.
Proof. by storable. Qed.

Lemma sample_task_storable : storable_task sample_heap sample_task_done.
Proof. by storable. Qed.

Lemma add_returns_new_id_and_leaves_entity_witness :
  ∃ i, result (DatabaseManager.add_employee 1%positive) sample_world
       = Ok (Some i)
       ∧ result (Employee.get_id 1%positive)
           (after (DatabaseManager.add_employee 1%positive) sample_world)
         = Ok None.
Proof.
  destruct (add_returns_new_id_and_leaves_entity sample_world
              1%positive 5%positive 3%positive
              sample_employee sample_project sample_task_done
              eq_refl eq_refl eq_refl eq_refl eq_refl eq_refl
              sample_assignee_ok sample_employee_storable
              sample_project_storable sample_task_storable
              eq_refl eq_refl eq_refl)
    as [(i & Hr & _ & _ & _ & _ & _ & Hid) _].
  exists i. split; [exact Hr | exact Hid].
Defined.

(** C1, as stated, fails: after [add_employee] on the sample employee, which
    has no identifier, [get_id()] does not return the identifier that the
    call returned. *)
Lemma add_employee_does_not_assign_id :
  ¬ (∀ (w : World) (self : loc) (e : employee),
       heap w !! self = Some (OEmployee e) → emp_id e = None →
       ∃ i, result (DatabaseManager.add_employee self) w = Ok (Some i)
            ∧ result (Employee.get_id self)
                (after (DatabaseManager.add_employee self) w)
              = Ok (Some i)).
Proof.
  intros H.
  destruct (H sample_world 1%positive sample_employee eq_refl eq_refl)
    as (i & _ & Hid).
  vm_compute in Hid. discriminate.
Qed.

(** ** The store: [update_*] *)

Lemma DB_eta (d : DB) : mkDB (employees d) (projects d) (tasks d) = d.
Proof. by destruct d. Qed.

Lemma update_employee_run (w : World) (self : loc) (e : employee) :
  heap w !! self = Some (OEmployee e) →
  DatabaseManager.update_employee self w =
    (Ok tt,
     mkWorld (heap w)
       (mkDB (table_update (employee_row_of e) (emp_id e) (employees (db w)))
             (projects (db w)) (tasks (db w)))
       (log w ++ [Executed (UPDATE_employee (emp_name e) (emp_position e)
                              (emp_salary e) (emp_hours_worked e) (emp_id e));
                  Committed])).
Proof.
  intros He. unfold DatabaseManager.update_employee, Employee.get_name,
    Employee.get_position, Employee.get_salary, Employee.get_hours_worked,
    Employee.get_id.
  run_with He. unfold DatabaseManager.commit. simpl.
  by rewrite <- app_assoc.
Qed.

Lemma update_project_run (w : World) (self : loc) (p : project) :
  heap w !! self = Some (OProject p) →
  DatabaseManager.update_project self w =
    (Ok tt,
     mkWorld (heap w)
       (mkDB (employees (db w))
             (table_update (project_row_of p) (proj_id p) (projects (db w)))
             (tasks (db w)))
       (log w ++ [Executed (UPDATE_project (proj_title p) (proj_id p));
                  Committed])).
Proof.
  intros Hp. unfold DatabaseManager.update_project, Project.get_title,
    Project.get_id.
  run_with Hp. unfold DatabaseManager.commit. simpl.
  by rewrite <- app_assoc.
Qed.

Lemma update_task_run (w : World) (self : loc) (t : task) :
  heap w !! self = Some (OTask t) → assignee_ok (heap w) t →
  DatabaseManager.update_task self w =
    (Ok tt,
     mkWorld (heap w)
       (mkDB (employees (db w)) (projects (db w))
             (table_update (task_row_of (heap w) t) (task_id t)
                           (tasks (db w))))
       (log w ++ [Executed (UPDATE_task (task_title t) (task_description t)
                              (task_status t)
                              (assigned_employee_id (heap w) t)
                              (task_project_id t) (task_id t));
                  Committed])).
Proof.
  intros Ht Ha. unfold DatabaseManager.update_task,
    Task.get_assigned_employee, Task.get_title, Task.get_description,
    Task.get_status, Task.get_project_id, Task.get_id.
  run_with Ht. rewrite (employee_id_of_run _ _ Ha). run_with Ht.
  unfold DatabaseManager.commit. simpl. by rewrite <- app_assoc.
Qed.

Lemma table_update_overwritten {A} (r : A) (i : Z) (t : table A) :
  is_Some (rows t !! i) → overwritten t r i (table_update r (Some i) t).
Proof. intros Hi. by rewrite (table_update_present r i t Hi). Qed.

Lemma table_update_no_row {A} (r : A) (id : option Z) (t : table A) :
  no_row t id → table_update r id t = t.
Proof.
  destruct id as [i|]; simpl; [apply table_update_absent | done].
Qed.

(** C8: for an employee, a project and a task whose texts, references and
    identifier the store can hold (the salary and the hours of the employee
    are floats), [update_employee], [update_project] and [update_task]
    return without raising and change no object.  When the table has a row
    under the identifier of the entity, that row is overwritten with the
    current attributes of the entity and nothing else changes; when the
    entity has no identifier or the table has no row under it, the database
    is left as it was. *)
Theorem update_overwrites_row_or_changes_nothing
    (w : World) (le lp lt : loc) (e : employee) (p : project) (t : task) :
  heap w !! le = Some (OEmployee e) →
  heap w !! lp = Some (OProject p) →
  heap w !! lt = Some (OTask t) → assignee_ok (heap w) t →
  storable_employee e → storable_project p → storable_task (heap w) t →
  (let w' := after (DatabaseManager.update_employee le) w in
   result (DatabaseManager.update_employee le) w = Ok tt
   ∧ heap w' = heap w
   ∧ projects (db w') = projects (db w) ∧ tasks (db w') = tasks (db w)
   ∧ (∀ i, emp_id e = Some i → is_Some (rows (employees (db w)) !! i) →
        overwritten (employees (db w)) (employee_row_of e) i
                    (employees (db w')))
   ∧ (no_row (employees (db w)) (emp_id e) → db w' = db w))
  ∧ (let w' := after (DatabaseManager.update_project lp) w in
     result (DatabaseManager.update_project lp) w = Ok tt
     ∧ heap w' = heap w
     ∧ employees (db w') = employees (db w) ∧ tasks (db w') = tasks (db w)
     ∧ (∀ i, proj_id p = Some i → is_Some (rows (projects (db w)) !! i) →
          overwritten (projects (db w)) (project_row_of p) i
                      (projects (db w')))
     ∧ (no_row (projects (db w)) (proj_id p) → db w' = db w))
  ∧ (let w' := after (DatabaseManager.update_task lt) w in
     result (DatabaseManager.update_task lt) w = Ok tt
     ∧ heap w' = heap w
     ∧ employees (db w') = employees (db w)
     ∧ projects (db w') = projects (db w)
     ∧ (∀ i, task_id t = Some i → is_Some (rows (tasks (db w)) !! i) →
          overwritten (tasks (db w)) (task_row_of (heap w) t) i
                      (tasks (db w')))
     ∧ (no_row (tasks (db w)) (task_id t) → db w' = db w)).
Proof.
  intros He Hp Ht Ha _ _ _. unfold result, after.
  rewrite (update_employee_run _ _ _ He), (update_project_run _ _ _ Hp),
    (update_task_run _ _ _ Ht Ha).
  simpl. repeat apply conj; try done.
  - intros i -> Hi. by apply table_update_overwritten.
  - intros Hn. rewrite (table_update_no_row _ _ _ Hn). apply DB_eta.
  - intros i -> Hi. by apply table_update_overwritten.
  - intros Hn. rewrite (table_update_no_row _ _ _ Hn). apply DB_eta.
  - intros i -> Hi. by apply table_update_overwritten.
  - intros Hn. rewrite (table_update_no_row _ _ _ Hn). apply DB_eta.
Qed.

Lemma stored_employee_storable : storable_employee stored_employee.
Proof. by storable. Qed.

Lemma stored_task_storable :
  storable_task (heap stored_world) sample_task_done.
Proof. by storable. Qed.

Lemma update_overwrites_row_or_changes_nothing_witness :
  rows (employees (db (after (DatabaseManager.update_employee 1%positive)
                             stored_world)))
  = <[1 := employee_row_of stored_employee]> (rows (employees stored_DB))
  ∧ db (after (DatabaseManager.update_project 5%positive) stored_world)
    = stored_DB.
Proof.
  destruct (update_overwrites_row_or_changes_nothing stored_world
              1%positive 5%positive 3%positive
              stored_employee sample_project sample_task_done
              eq_refl eq_refl eq_refl)
    as [(_ & _ & _ & _ & Hrow & _) [(_ & _ & _ & _ & _ & Hnone) _]].
  - intros a [= <-]. by exists stored_employee.
  - exact stored_employee_storable.
  - exact sample_project_storable.
  - exact stored_task_storable.
  - split.
    + apply (Hrow 1 eq_refl). by exists (employee_row_of sample_employee).
    + by apply Hnone.
Defined.

(** ** The store: [delete_employee] and [delete_project] *)

Lemma sql_eq_Some (column : option Z) (i : Z) :
  sql_eq column (Some i) = bool_decide (column = Some i).
Proof.
  destruct column as [a|]; simpl; [|done].
  apply bool_decide_ext. split; [by intros -> | by intros [= ->]].
Qed.

Lemma clear_employee_row (id : Z) (r : task_row) :
  clear_employee (Some id) r =
    mkTaskRow (tr_title r) (tr_description r) (tr_status r)
      (if decide (tr_employee_id r = Some id) then None
       else tr_employee_id r)
      (tr_project_id r).
Proof.
  unfold clear_employee. rewrite sql_eq_Some.
  destruct r as [ti de st eid pid]. simpl. by case_bool_decide; case_decide.
Qed.

Lemma delete_employee_run (w : World) (id : Z) :
  DatabaseManager.delete_employee id w =
    (Ok tt,
     mkWorld (heap w)
       (mkDB (mkTable (delete id (rows (employees (db w))))
                      (seq (employees (db w))))
             (projects (db w))
             (mkTable (clear_employee (Some id) <$> rows (tasks (db w)))
                      (seq (tasks (db w)))))
       (log w ++ [Executed (UPDATE_tasks_SET_employee_NULL (Some id));
                  Executed (DELETE_employee (Some id));
                  Committed])).
Proof.
  unfold DatabaseManager.delete_employee, DatabaseManager.execute,
    DatabaseManager.commit, mbind, M_bind. simpl.
  by rewrite <- !app_assoc.
Qed.

Lemma delete_project_run (w : World) (id : Z) :
  DatabaseManager.delete_project id w =
    (Ok tt,
     mkWorld (heap w)
       (mkDB (employees (db w))
             (mkTable (delete id (rows (projects (db w))))
                      (seq (projects (db w))))
             (mkTable (filter (λ kr, sql_eq (tr_project_id kr.2) (Some id)
                                     = false)
                              (rows (tasks (db w))))
                      (seq (tasks (db w)))))
       (log w ++ [Executed (DELETE_tasks_WHERE_project (Some id));
                  Executed (DELETE_project (Some id));
                  Committed])).
Proof.
  unfold DatabaseManager.delete_project, DatabaseManager.execute,
    DatabaseManager.commit, mbind, M_bind. simpl.
  by rewrite <- !app_assoc.
Qed.

Lemma lookup_tasks_of_other_projects (m : gmap Z task_row) (id k : Z) :
  filter (λ kr, sql_eq (tr_project_id kr.2) (Some id) = false) m !! k =
    match m !! k with
    | Some r => if decide (tr_project_id r = Some id) then None else Some r
    | None => None
    end.
Proof.
  destruct (m !! k) as [r|] eqn:Hk.
  - case_decide as Hp.
    + apply map_lookup_filter_None. right. intros r' Hr'. simpl.
      assert (r' = r) as -> by congruence.
      rewrite sql_eq_Some. by rewrite bool_decide_eq_true_2.
    + apply map_lookup_filter_Some. split; [done|]. simpl.
      rewrite sql_eq_Some. by rewrite bool_decide_eq_false_2.
  - apply map_lookup_filter_None. by left.
Qed.

(** C3: for an identifier [id] that is an integer of 64 bits,
    [delete_employee(id)] removes the employee row [id] and no other
    employee row, keeps every task row and sets to [NULL] the employee
    reference of exactly those that referred to [id], and leaves the projects
    alone; the [UPDATE] on the tasks is executed before the [DELETE] on the
    employees, so that in the world between the two statements the employees
    are all there and no task refers to [id].  [delete_project(id)] first
    deletes the task rows whose project reference is [id] (the others stay as
    they are), then the project row [id]. *)
Theorem delete_employee_nullifies_delete_project_cascades
    (w : World) (id : Z) :
  storable_int (Some id) →
  (let w' := after (DatabaseManager.delete_employee id) w in
   result (DatabaseManager.delete_employee id) w = Ok tt
   ∧ heap w' = heap w
   ∧ rows (employees (db w')) = delete id (rows (employees (db w)))
   ∧ projects (db w') = projects (db w)
   ∧ dom (rows (tasks (db w'))) = dom (rows (tasks (db w)))
   ∧ (∀ k r, rows (tasks (db w)) !! k = Some r →
        rows (tasks (db w')) !! k =
          Some (mkTaskRow (tr_title r) (tr_description r) (tr_status r)
                  (if decide (tr_employee_id r = Some id) then None
                   else tr_employee_id r)
                  (tr_project_id r)))
   ∧ log w' = log w ++ [Executed (UPDATE_tasks_SET_employee_NULL (Some id));
                        Executed (DELETE_employee (Some id));
                        Committed]
   ∧ (let w1 := after (DatabaseManager.execute
                         (UPDATE_tasks_SET_employee_NULL (Some id))) w in
      employees (db w1) = employees (db w)
      ∧ (∀ k r, rows (tasks (db w1)) !! k = Some r →
           tr_employee_id r ≠ Some id)
      ∧ DatabaseManager.delete_employee id w =
          (DatabaseManager.execute (DELETE_employee (Some id));;
           DatabaseManager.commit) w1))
  ∧ (let w' := after (DatabaseManager.delete_project id) w in
     result (DatabaseManager.delete_project id) w = Ok tt
     ∧ heap w' = heap w
     ∧ rows (projects (db w')) = delete id (rows (projects (db w)))
     ∧ employees (db w') = employees (db w)
     ∧ (∀ k, rows (tasks (db w')) !! k =
          match rows (tasks (db w)) !! k with
          | Some r =>
              if decide (tr_project_id r = Some id) then None else Some r
          | None => None
          end)
     ∧ log w' = log w ++ [Executed (DELETE_tasks_WHERE_project (Some id));
                          Executed (DELETE_project (Some id));
                          Committed]).
Proof.
  intros _. unfold result, after.
  rewrite delete_employee_run, delete_project_run. simpl.
  split.
  - do 4 (split; [done|]). split; [apply dom_fmap_L|].
    split.
    { intros k r Hk. by rewrite lookup_fmap, Hk, <- clear_employee_row. }
    split; [done|]. split; [done|]. split.
    + intros k r. rewrite lookup_fmap.
      destruct (rows (tasks (db w)) !! k) as [r0|]; simpl; [|done].
      intros [= <-]. rewrite clear_employee_row. simpl.
      case_decide; congruence.
    + unfold DatabaseManager.execute, DatabaseManager.commit, mbind, M_bind.
      simpl. by rewrite <- !app_assoc.
  - do 4 (split; [done|]). split; [|done].
    intros k. apply lookup_tasks_of_other_projects.
Qed.

Lemma delete_employee_nullifies_delete_project_cascades_witness :
  let d := mkDB (mkTable {[ 1 := employee_row_of sample_employee ]} 1)
                empty_table
                (mkTable {[ 7 := mkTaskRow (of_ascii "Design"%string) []
                                   Task.COMPLETED (Some 1) (Some 2) ]} 7) in
  rows (tasks (db (after (DatabaseManager.delete_employee 1)
                         (mkWorld ∅ d []))))
    !! 7
  = Some (mkTaskRow (of_ascii "Design"%string) [] Task.COMPLETED None
                    (Some 2)).
Proof.
  intros d.
  destruct (delete_employee_nullifies_delete_project_cascades
              (mkWorld ∅ d []) 1 key_1_storable)
    as [(_ & _ & _ & _ & _ & Htasks & _) _].
  exact (Htasks 7 _ eq_refl).
Defined.

(** ** Sequences of calls *)

Lemma run_calls_app {C} (call : C → M unit) (c1 c2 : list C) (w : World) :
  run_calls call (c1 ++ c2) w = run_calls call c2 (run_calls call c1 w).
Proof. apply foldl_app. Qed.

Lemma run_calls_snoc {C} (call : C → M unit) (cs : list C) (c : C)
    (w : World) :
  run_calls call (cs ++ [c]) w = after (call c) (run_calls call cs w).
Proof. by rewrite run_calls_app. Qed.

(** ** Tasks: the status *)

(** Unfolds a method call down to the reads and writes of the heap. *)
Ltac unfold_call :=
  unfold after, result, drop, raise, store, alloc, load_employee, load_task,
    load_project, load_list, get_heap, put_heap, mbind, M_bind, mret, M_ret
    in *; simpl in *.

(** One call changes the status of a task only if it is [mark_complete] on
    that task, and then to [COMPLETED]. *)
Lemma task_call_status (w : World) (c : loc * task_op) (self : loc)
    (t : task) :
  heap w !! self = Some (OTask t) →
  ∃ t', heap (after (task_call c) w) !! self = Some (OTask t')
        ∧ (task_status t' = task_status t
           ∨ (c = (self, T_mark_complete)
              ∧ task_status t' = Task.COMPLETED)).
Proof.
  intros Hs. destruct c as [l op].
  destruct op; unfold task_call, Task.get_id, Task.get_title,
    Task.get_description, Task.get_status, Task.get_assigned_employee,
    Task.get_project_id, Task.set_id, Task.set_title, Task.set_description,
    Task.set_project_id, Task.assign_employee, Task.mark_complete,
    Task.is_completed; simpl;
    try destruct (negb (truthy (strip value)));
    unfold_call;
    destruct (heap w !! l) as [[e0|t0|p0|l0]|] eqn:Hl; simpl;
    eauto;
    (destruct (decide (l = self)) as [->|Hne];
     [ rewrite lookup_insert_eq; assert (t0 = t) as -> by congruence;
       eexists; split; [reflexivity|]; simpl; auto
     | rewrite lookup_insert_ne by done; eauto ]).
Qed.

Lemma run_task_calls_status (cs : list (loc * task_op)) (w : World)
    (self : loc) (t : task) :
  heap w !! self = Some (OTask t) →
  ∃ t', heap (run_calls task_call cs w) !! self = Some (OTask t')
        ∧ (task_status t' = task_status t
           ∨ task_status t' = Task.COMPLETED).
Proof.
  revert w t. induction cs as [|c cs IH]; intros w t Hs; simpl.
  - eauto.
  - destruct (task_call_status w c self t Hs) as (t1 & H1 & Hst).
    destruct (IH _ _ H1) as (t2 & H2 & Hst2).
    exists t2. split; [done|].
    destruct Hst as [Heq | [_ Hc]], Hst2 as [Heq2 | Hc2];
      first [left; congruence | right; congruence].
Qed.

Lemma is_completed_true (w : World) (self : loc) :
  result (Task.is_completed self) w = Ok true ↔
  ∃ t, heap w !! self = Some (OTask t) ∧ task_status t = Task.COMPLETED.
Proof.
  unfold Task.is_completed. unfold_call.
  destruct (heap w !! self) as [[e0|t0|p0|l0]|]; simpl;
    try (split; [discriminate | by intros (t & [=] & _)]).
  split.
  - intros [= Hc]. apply bool_decide_eq_true in Hc. eauto.
  - intros (t & [= ->] & Hc). by rewrite bool_decide_eq_true_2.
Qed.

Lemma task_init_run (w : World) (title description status : str)
    (assigned_employee : option loc) (tid pid : option Z) :
  Task.__init__ title description status assigned_employee tid pid w =
    (Ok (fresh (dom (heap w))),
     mkWorld (<[fresh (dom (heap w)) :=
                  OTask (mkTask tid title description status
                           assigned_employee pid)]> (heap w))
             (db w) (log w)).
Proof. reflexivity. Qed.

(** C9 (as the code has it): for a task constructed with any arguments,
    under every sequence of calls of [Task] methods on any objects, once
    [is_completed()] is true it stays true; a call changes the status of the
    task only if it is [mark_complete()] on that task, and the new status is
    then the completed one; and when the task was constructed with one of
    the two fixed status values (the default is one of them), its status is
    one of the two in every state that is reached. *)
Theorem task_status_moves_only_forward
    (w : World) (title description status : str)
    (assigned_employee : option loc) (tid pid : option Z) :
  let self := fresh (dom (heap w)) in
  let w0 := after (Task.__init__ title description status assigned_employee
                                 tid pid) w in
  result (Task.__init__ title description status assigned_employee tid pid) w
    = Ok self
  ∧ (∀ cs1 cs2,
       result (Task.is_completed self) (run_calls task_call cs1 w0) = Ok true →
       result (Task.is_completed self) (run_calls task_call (cs1 ++ cs2) w0)
         = Ok true)
  ∧ (∀ cs c t t',
       heap (run_calls task_call cs w0) !! self = Some (OTask t) →
       heap (run_calls task_call (cs ++ [c]) w0) !! self = Some (OTask t') →
       task_status t' ≠ task_status t →
       c = (self, T_mark_complete) ∧ task_status t' = Task.COMPLETED)
  ∧ (status ∈ Task.STATUSES →
     ∀ cs, ∃ t, heap (run_calls task_call cs w0) !! self = Some (OTask t)
                ∧ task_status t ∈ Task.STATUSES).
Proof.
  intros self w0. unfold result, after in *.
  rewrite task_init_run in *. simpl in *. split; [done|].
  assert (heap w0 !! self =
            Some (OTask (mkTask tid title description status assigned_employee
                           pid))) as H0 by apply lookup_insert_eq.
  split; [|split].
  - intros cs1 cs2 Hc. apply is_completed_true in Hc as (t1 & H1 & Hst).
    apply is_completed_true. rewrite run_calls_app.
    destruct (run_task_calls_status cs2 _ self t1 H1) as (t2 & H2 & Hst2).
    exists t2. split; [done|]. destruct Hst2; congruence.
  - intros cs c t t' Ht Ht' Hne. rewrite run_calls_snoc in Ht'.
    destruct (task_call_status _ c self t Ht) as (t1 & H1 & Hst).
    assert (t1 = t') as -> by congruence.
    destruct Hst as [Heq | Hc]; [done | exact Hc].
  - intros Hin cs.
    destruct (run_task_calls_status cs w0 self _ H0) as (t & Ht & Hst).
    exists t. split; [done|]. simpl in Hst.
    destruct Hst as [-> | ->]; [done|].
    apply list_elem_of_further, list_elem_of_here.
Qed.

Lemma task_status_moves_only_forward_witness :
  let w0 := after (Task.__init__ (of_ascii "Design"%string) []
                     Task.IN_PROGRESS None None (Some 1)) sample_world in
  ∃ t, heap (run_calls task_call
               [(6%positive, T_mark_complete);
                (6%positive, T_set_title (of_ascii "Plan"%string))] w0)
         !! 6%positive = Some (OTask t)
       ∧ task_status t ∈ Task.STATUSES.
Proof.
  intros w0.
  destruct (task_status_moves_only_forward sample_world
              (of_ascii "Design"%string) [] Task.IN_PROGRESS None None
              (Some 1)) as (_ & _ & _ & Hin).
  apply Hin. apply list_elem_of_here.
Defined.

(** C9, as stated, fails: the constructor keeps whatever status it is given,
    so a newly constructed task can have a status that is neither of the two
    fixed values. *)
Lemma task_constructor_keeps_any_status :
  ¬ (∀ (w : World) (title description status : str)
       (assigned_employee : option loc) (tid pid : option Z)
       (cs : list (loc * task_op)),
       ∃ t, heap (run_calls task_call cs
                    (after (Task.__init__ title description status
                              assigned_employee tid pid) w))
              !! fresh (dom (heap w)) = Some (OTask t)
            ∧ task_status t ∈ Task.STATUSES).
Proof.
  intros H.
  destruct (H sample_world (of_ascii "Design"%string) []
              (of_ascii "paused"%string) None None None [])
    as (t & Ht & Hin).
  vm_compute in Ht. injection Ht as <-. simpl in Hin.
  unfold Task.STATUSES in Hin.
  apply elem_of_cons in Hin as [Hin|Hin]; [discriminate|].
  apply elem_of_cons in Hin as [Hin|Hin]; [discriminate|].
  by apply elem_of_nil in Hin.
Qed.

(** ** Projects: counting completed tasks *)

Lemma load_task_at (w : World) (x : loc) :
  load_task x w = (match task_at (heap w) x with
                   | Some t => Ok t
                   | None => Raise AttributeError
                   end, w).
Proof.
  unfold load_task, task_at, get_heap, mbind, M_bind, mret, M_ret, raise.
  by destruct (heap w !! x) as [[e0|t0|p0|l0]|].
Qed.

Lemma foldM_cons {S A} (body : S → A → M S) (s : S) (x : A) (l : list A)
    (w : World) :
  foldM body s (x :: l) w =
    match body s x w with
    | (Ok s', w') => foldM body s' l w'
    | (Raise e, w') => (Raise e, w')
    end.
Proof. reflexivity. Qed.

Lemma get_status_at (w : World) (x : loc) :
  Task.get_status x w = (match task_at (heap w) x with
                         | Some t => Ok (task_status t)
                         | None => Raise AttributeError
                         end, w).
Proof.
  unfold Task.get_status, mbind, M_bind. rewrite load_task_at.
  by destruct (task_at (heap w) x).
Qed.

Lemma is_completed_at (w : World) (x : loc) :
  Task.is_completed x w =
    (match task_at (heap w) x with
     | Some t => Ok (bool_decide (task_status t = Task.COMPLETED))
     | None => Raise AttributeError
     end, w).
Proof.
  unfold Task.is_completed, mbind, M_bind. rewrite load_task_at.
  by destruct (task_at (heap w) x).
Qed.

Lemma progress_loop (w : World) (xs : list loc) (s : Z) :
  foldM (λ (completed : Z) (task : loc),
           status ← Task.get_status task;
           if bool_decide (status = Task.COMPLETED)
           then mret (completed + 1) else mret completed) s xs w
  = (count_completed (heap w) s xs, w).
Proof.
  revert s. induction xs as [|x xs IH]; intros s; [done|].
  rewrite foldM_cons. unfold mbind at 1, M_bind at 1.
  rewrite get_status_at. simpl.
  destruct (task_at (heap w) x) as [t|]; [|done].
  case_bool_decide; apply IH.
Qed.

Lemma count_loop (w : World) (xs : list loc) (s : Z) :
  foldM (λ (count : Z) (task : loc),
           c ← Task.is_completed task;
           if (c : bool) then mret (count + 1) else mret count) s xs w
  = (count_completed (heap w) s xs, w).
Proof.
  revert s. induction xs as [|x xs IH]; intros s; [done|].
  rewrite foldM_cons. unfold mbind at 1, M_bind at 1.
  rewrite is_completed_at. simpl.
  destruct (task_at (heap w) x) as [t|]; [|done].
  case_bool_decide; apply IH.
Qed.

Lemma count_of_cons (f : loc → bool) (x : loc) (xs : list loc) :
  count_of f (x :: xs) = (if f x then 1 else 0) + count_of f xs.
Proof. unfold count_of. simpl. destruct (f x); simpl; lia. Qed.

Lemma count_of_bounds (f : loc → bool) (xs : list loc) :
  0 ≤ count_of f xs ≤ Z.of_nat (length xs).
Proof.
  induction xs as [|x xs IH]; [done|].
  rewrite count_of_cons. simpl length. destruct (f x); lia.
Qed.

(** Over tasks only, the loop adds the number of completed tasks. *)
Lemma count_completed_tasks (h : gmap loc object) (xs : list loc) (s : Z) :
  Forall (λ x, is_Some (task_at h x)) xs →
  count_completed h s xs = Ok (s + completed_among h xs).
Proof.
  intros Hxs. revert s. induction Hxs as [|x xs [t Ht] _ IH]; intros s.
  - simpl. f_equal. unfold completed_among, count_of. simpl. lia.
  - simpl. unfold completed_among in *. rewrite count_of_cons, Ht, IH.
    unfold completed_at. rewrite Ht. f_equal. case_bool_decide; lia.
Qed.

(** The loop sees the heap only through its tasks. *)
Lemma count_completed_ext (h h' : gmap loc object) (xs : list loc) (s : Z) :
  (∀ x, task_at h' x = task_at h x) →
  count_completed h' s xs = count_completed h s xs.
Proof.
  intros Hext. revert s. induction xs as [|x xs IH]; intros s; simpl; [done|].
  rewrite Hext. destruct (task_at h x); [apply IH | done].
Qed.

Lemma project_progress_run (w : World) (self : loc) (p : project)
    (xs : list loc) :
  heap w !! self = Some (OProject p) →
  heap w !! proj_tasks p = Some (OList xs) →
  Project.project_progress self w =
    (if bool_decide (Z.of_nat (length xs) = 0) then Ok 0%float
     else match count_completed (heap w) 0 xs with
          | Ok k => Ok (PrimFloat.mul
                          (int_truediv k (Z.of_nat (length xs))) 100)
          | Raise e => Raise e
          end, w).
Proof.
  intros Hp Hl. unfold Project.project_progress.
  erewrite bind_Ok; [|by apply load_project_Ok].
  erewrite bind_Ok; [|by apply load_list_Ok].
  case_bool_decide; [done|].
  unfold mbind, M_bind. rewrite progress_loop.
  by destruct (count_completed (heap w) 0 xs).
Qed.

Lemma get_completed_tasks_count_run (w : World) (self : loc) (p : project)
    (xs : list loc) :
  heap w !! self = Some (OProject p) →
  heap w !! proj_tasks p = Some (OList xs) →
  Project.get_completed_tasks_count self w
  = (count_completed (heap w) 0 xs, w).
Proof.
  intros Hp Hl. unfold Project.get_completed_tasks_count.
  erewrite bind_Ok; [|by apply load_project_Ok].
  erewrite bind_Ok; [|by apply load_list_Ok].
  apply count_loop.
Qed.

(** ** Division of an integer by itself *)

Lemma div_eucl_div_mod (a b : Z) : Z.div_eucl a b = (a / b, a mod b).
Proof. unfold Z.div, Z.modulo. by destruct (Z.div_eucl a b). Qed.

Lemma SFdiv_core_binary_self (p : positive) :
  SFdiv_core_binary prec emax (Zpos p) 0 (Zpos p) 0
  = (2 ^ 53, -53, loc_Exact).
Proof.
  unfold SFdiv_core_binary.
  replace (Zdigits2 (Z.pos p) + 0 - (Zdigits2 (Z.pos p) + 0)) with 0 by lia.
  change (Z.min (fexp prec emax 0) (0 - 0)) with (-53).
  change (0 - 0 - -53) with 53. cbv iota beta.
  rewrite div_eucl_div_mod, Z.shiftl_mul_pow2 by lia.
  rewrite (Z.mul_comm (Z.pos p)), Z.div_mul, Z.mod_mul by lia.
  unfold new_location, new_location_even, new_location_odd.
  by destruct (Z.even (Z.pos p)).
Qed.

(** [n / n] is [1.0] for every positive integer [n]. *)
Lemma int_truediv_self (n : Z) : 0 < n → int_truediv n n = 1%float.
Proof.
  destruct n as [|p|p]; try lia. intros _.
  unfold int_truediv, int_to_SF, SFdiv.
  rewrite SFdiv_core_binary_self. vm_compute. reflexivity.
Qed.

(** ** Projects: progress *)

(** C4: for a project whose task list holds [n] tasks, [k] of them with the
    completed status, [project_progress()] returns [0.0] when [n = 0] and
    otherwise the float [(k / n) * 100], where [0 <= k <= n]; this is
    [100.0] when all tasks are completed.  The call changes nothing. *)
Theorem project_progress_is_share_of_completed
    (w : World) (self : loc) (p : project) (xs : list loc) :
  heap w !! self = Some (OProject p) →
  heap w !! proj_tasks p = Some (OList xs) →
  Forall (λ x, is_Some (task_at (heap w) x)) xs →
  let n := Z.of_nat (length xs) in
  let k := completed_among (heap w) xs in
  0 ≤ k ≤ n
  ∧ after (Project.project_progress self) w = w
  ∧ (n = 0 → result (Project.project_progress self) w = Ok 0%float)
  ∧ (0 < n →
     result (Project.project_progress self) w
     = Ok (PrimFloat.mul (int_truediv k n) 100))
  ∧ (0 < n → k = n →
     result (Project.project_progress self) w = Ok 100%float).
Proof.
  intros Hp Hl Hxs n k. unfold result, after.
  rewrite (project_progress_run _ _ _ _ Hp Hl).
  rewrite (count_completed_tasks _ _ 0 Hxs). fold n. simpl.
  split; [apply count_of_bounds|]. split; [done|].
  repeat split.
  - intros Hn. by rewrite bool_decide_eq_true_2.
  - intros Hn. by rewrite bool_decide_eq_false_2 by lia.
  - intros Hn Hk. rewrite bool_decide_eq_false_2 by lia.
    fold k. rewrite Hk, int_truediv_self by done. reflexivity.
Qed.

Lemma sample_tasks_are_tasks :
  Forall (λ x, is_Some (task_at sample_heap x)) [3%positive; 4%positive].
Proof. repeat constructor; vm_compute; eauto. Qed.

Lemma project_progress_is_share_of_completed_witness :
  result (Project.project_progress 5%positive) sample_world
  = Ok (PrimFloat.mul (int_truediv 1 2) 100).
Proof.
  destruct (project_progress_is_share_of_completed sample_world 5%positive
              sample_project [3%positive; 4%positive] eq_refl eq_refl
              sample_tasks_are_tasks) as (_ & _ & _ & Hk & _).
  apply Hk. reflexivity.
Defined.

(** The scenario of the tests: one of two tasks completed gives [50.0]. *)
Example project_progress_half :
  result (Project.project_progress 5%positive) sample_world = Ok 50%float.
Proof. vm_compute. reflexivity. Qed.

(** ** Projects: the list returned by [get_tasks] *)

Section Fresh_list.
Variables (w w' : World) (self l : loc) (p : project) (xs ys : list loc).
Hypothesis Hself : heap w !! self = Some (OProject p).
Hypothesis Htasks : heap w !! proj_tasks p = Some (OList xs).
Hypothesis Hfresh : heap w !! l = None.
Hypothesis Hheap : heap w' = <[l := OList ys]> (heap w).

Lemma fresh_list_other (x : loc) :
  is_Some (heap w !! x) → heap w' !! x = heap w !! x.
Proof.
  intros [o Ho]. rewrite Hheap. apply lookup_insert_ne. congruence.
Qed.

Lemma fresh_list_task_at (x : loc) : task_at (heap w') x = task_at (heap w) x.
Proof.
  unfold task_at. rewrite Hheap. destruct (decide (l = x)) as [<-|Hne].
  - by rewrite lookup_insert_eq, Hfresh.
  - by rewrite lookup_insert_ne.
Qed.

(** A list object that the old world did not have is invisible to the
    project. *)
Lemma fresh_list_frame :
  project_tasks (heap w') self = Some xs
  ∧ result (Project.project_progress self) w'
    = result (Project.project_progress self) w
  ∧ result (Project.get_completed_tasks_count self) w'
    = result (Project.get_completed_tasks_count self) w.
Proof.
  assert (heap w' !! self = Some (OProject p)) as Hself'.
  { rewrite fresh_list_other; [done | by rewrite Hself]. }
  assert (heap w' !! proj_tasks p = Some (OList xs)) as Htasks'.
  { rewrite fresh_list_other; [done | by rewrite Htasks]. }
  unfold project_tasks, result. rewrite Hself', Htasks'.
  rewrite (project_progress_run w' _ _ _ Hself' Htasks'),
    (project_progress_run w _ _ _ Hself Htasks),
    (get_completed_tasks_count_run w' _ _ _ Hself' Htasks'),
    (get_completed_tasks_count_run w _ _ _ Hself Htasks).
  simpl. by rewrite (count_completed_ext _ _ _ _ fresh_list_task_at).
Qed.

End Fresh_list.

Lemma get_tasks_run (w : World) (self : loc) (p : project) (xs : list loc) :
  heap w !! self = Some (OProject p) →
  heap w !! proj_tasks p = Some (OList xs) →
  Project.get_tasks self w =
    (Ok (fresh (dom (heap w))),
     mkWorld (<[fresh (dom (heap w)) := OList xs]> (heap w)) (db w) (log w)).
Proof.
  intros Hp Hl. unfold Project.get_tasks, PyList.copy.
  erewrite bind_Ok; [|by apply load_project_Ok].
  erewrite bind_Ok; [|by apply load_list_Ok].
  apply alloc_Ok.
Qed.

(** The heap after a change of the elements of the list object at [l]. *)
Lemma list_change_heap (w : World) (l x : loc) (xs : list loc)
    (f : list loc → list loc) (m : M unit) :
  heap w !! l = Some (OList xs) →
  m ∈ [PyList.append l x; PyList.remove l x; PyList.mutate l f] →
  ∃ ys, heap (after m w) = <[l := OList ys]> (heap w).
Proof.
  intros Hl Hm. unfold after.
  repeat (apply elem_of_cons in Hm as [-> | Hm]).
  - exists (xs ++ [x]). unfold PyList.append.
    erewrite bind_Ok; [|by apply load_list_Ok]. done.
  - unfold PyList.remove. erewrite bind_Ok; [|by apply load_list_Ok].
    case_bool_decide.
    + by exists (PyList.remove_first x xs).
    + exists xs. simpl. by rewrite insert_id.
  - exists (f xs). unfold PyList.mutate.
    erewrite bind_Ok; [|by apply load_list_Ok]. done.
  - by apply elem_of_nil in Hm.
Qed.

Lemma project_progress_pure (w : World) (l : loc) :
  after (Project.project_progress l) w = w.
Proof.
  unfold after, Project.project_progress, load_project, load_list, get_heap,
    raise, mbind, M_bind, mret, M_ret. simpl.
  destruct (heap w !! l) as [[e0|t0|p0|l0]|]; simpl; try done.
  destruct (heap w !! proj_tasks p0) as [[e1|t1|p1|l1]|]; simpl; try done.
  case_bool_decide; [done|]. rewrite progress_loop.
  by destruct (count_completed (heap w) 0 l1).
Qed.

Lemma get_completed_tasks_count_pure (w : World) (l : loc) :
  after (Project.get_completed_tasks_count l) w = w.
Proof.
  unfold after, Project.get_completed_tasks_count, load_project, load_list,
    get_heap, raise, mbind, M_bind, mret, M_ret. simpl.
  destruct (heap w !! l) as [[e0|t0|p0|l0]|]; simpl; try done.
  destruct (heap w !! proj_tasks p0) as [[e1|t1|p1|l1]|]; simpl; try done.
  by rewrite count_loop.
Qed.

Lemma after_drop {A} (m : M A) (w : World) : after (drop m) w = after m w.
Proof.
  unfold after, drop, mbind, M_bind. by destruct (m w) as [[a|e] w'].
Qed.

(** Of the methods of [Project], only [set_tasks], [add_task] and
    [remove_task] change the tasks of a project. *)
Lemma project_call_keeps_tasks (w : World) (c : loc * project_op)
    (self : loc) (p : project) (xs : list loc) :
  heap w !! self = Some (OProject p) →
  heap w !! proj_tasks p = Some (OList xs) →
  match c.2 with
  | P_set_tasks _ | P_add_task _ | P_remove_task _ => True
  | _ => project_tasks (heap (after (project_call c) w)) self = Some xs
  end.
Proof.
  intros Hp Hl.
  assert (project_tasks (heap w) self = Some xs) as Hw.
  { unfold project_tasks. by rewrite Hp, Hl. }
  assert (∀ (l : loc) (q q' : project),
            heap w !! l = Some (OProject q) → proj_tasks q' = proj_tasks q →
            project_tasks (<[l := OProject q']> (heap w)) self = Some xs)
    as Hset.
  { intros l q q' Hq Hq'. unfold project_tasks.
    destruct (decide (l = self)) as [->|Hne].
    - assert (q = p) as -> by congruence.
      rewrite lookup_insert_eq, Hq', lookup_insert_ne, Hl; [done|congruence].
    - rewrite lookup_insert_ne, Hp, lookup_insert_ne, Hl; [done|congruence|done].
  }
  destruct c as [l op]. destruct op; simpl; try done;
    unfold project_call; simpl; rewrite ?after_drop,
      ?project_progress_pure, ?get_completed_tasks_count_pure; try done.
  - unfold Project.get_id. unfold_call.
    by destruct (heap w !! l) as [[e0|t0|p0|l0]|].
  - unfold Project.get_title. unfold_call.
    by destruct (heap w !! l) as [[e0|t0|p0|l0]|].
  - unfold Project.get_tasks, PyList.copy. unfold_call.
    destruct (heap w !! l) as [[e0|t0|p0|l0]|]; simpl; try done.
    destruct (heap w !! proj_tasks p0) as [[e1|t1|p1|l1]|]; simpl; try done.
    unfold project_tasks.
    assert (heap w !! fresh (dom (heap w)) = None) as Hf
      by apply fresh_loc_unused.
    rewrite lookup_insert_ne, Hp, lookup_insert_ne, Hl; [done| |];
      congruence.
  - unfold Project.set_id. unfold_call.
    destruct (heap w !! l) as [[e0|t0|p0|l0]|] eqn:Hq; simpl; try done.
    by apply (Hset l p0).
  - unfold Project.set_title.
    destruct (negb (truthy (strip value))); unfold_call; [done|].
    destruct (heap w !! l) as [[e0|t0|p0|l0]|] eqn:Hq; simpl; try done.
    by apply (Hset l p0).
Qed.

(** C10: [get_tasks()] returns a list object that the world did not have,
    with the elements of the project's list.  Whatever is then done to the
    elements of the returned list ([append], [remove], or any other change
    in place), the project has the tasks it had, and [project_progress()]
    and [get_completed_tasks_count()] return what they returned before the
    call.  Of the methods of [Project], called on any object, only
    [set_tasks], [add_task] and [remove_task] change the tasks of the
    project. *)
Theorem get_tasks_returns_a_fresh_copy
    (w : World) (self : loc) (p : project) (xs : list loc) :
  heap w !! self = Some (OProject p) →
  heap w !! proj_tasks p = Some (OList xs) →
  let l := fresh (dom (heap w)) in
  let w1 := after (Project.get_tasks self) w in
  result (Project.get_tasks self) w = Ok l
  ∧ heap w !! l = None
  ∧ l ≠ proj_tasks p
  ∧ heap w1 = <[l := OList xs]> (heap w)
  ∧ project_tasks (heap w1) self = Some xs
  ∧ (∀ (x : loc) (f : list loc → list loc) (m : M unit),
       m ∈ [PyList.append l x; PyList.remove l x; PyList.mutate l f] →
       let w2 := after m w1 in
       project_tasks (heap w2) self = Some xs
       ∧ result (Project.project_progress self) w2
         = result (Project.project_progress self) w
       ∧ result (Project.get_completed_tasks_count self) w2
         = result (Project.get_completed_tasks_count self) w)
  ∧ (∀ c : loc * project_op,
       match c.2 with
       | P_set_tasks _ | P_add_task _ | P_remove_task _ => True
       | _ => project_tasks (heap (after (project_call c) w)) self = Some xs
       end).
Proof.
  intros Hp Hl l w1.
  assert (heap w !! l = None) as Hf by apply fresh_loc_unused.
  assert (heap w1 = <[l := OList xs]> (heap w)) as H1.
  { unfold w1, after. by rewrite (get_tasks_run _ _ _ _ Hp Hl). }
  split; [unfold result; by rewrite (get_tasks_run _ _ _ _ Hp Hl)|].
  split; [done|]. split; [congruence|]. split; [done|].
  split; [|split].
  - by apply (fresh_list_frame w w1 self l p xs xs).
  - intros x f m Hm w2.
    destruct (list_change_heap w1 l x xs f m) as [ys Hys]; [|done|].
    { rewrite H1. apply lookup_insert_eq. }
    apply (fresh_list_frame w w2 self l p xs ys); try done.
    unfold w2. by rewrite Hys, H1, insert_insert_eq.
  - intros c. exact (project_call_keeps_tasks w c self p xs Hp Hl).
Qed.

Lemma get_tasks_returns_a_fresh_copy_witness :
  let w1 := after (Project.get_tasks 5%positive) sample_world in
  project_tasks (heap (after (PyList.append 6%positive 1%positive) w1))
                5%positive
  = Some [3%positive; 4%positive].
Proof.
  intros w1.
  destruct (get_tasks_returns_a_fresh_copy sample_world 5%positive
              sample_project [3%positive; 4%positive] eq_refl eq_refl)
    as (_ & _ & _ & _ & _ & Hmut & _).
  apply (Hmut 1%positive id (PyList.append 6%positive 1%positive)).
  apply list_elem_of_here.
Defined.

(** ** Task statistics *)

Lemma get_assigned_employee_at (w : World) (x : loc) :
  Task.get_assigned_employee x w =
    (match task_at (heap w) x with
     | Some t => Ok (task_assigned_employee t)
     | None => Raise AttributeError
     end, w).
Proof.
  unfold Task.get_assigned_employee, mbind, M_bind. rewrite load_task_at.
  by destruct (task_at (heap w) x).
Qed.

Lemma count_task_run (w : World) (c : counters) (x : loc) :
  is_Some (task_at (heap w) x) →
  count_task c x w = (Ok (tally_task (heap w) c x), w).
Proof.
  intros [t Ht]. destruct c as [[[[n co] ip] a] u].
  unfold count_task, tally_task, completed_at, assigned_at.
  unfold mbind, M_bind. rewrite is_completed_at, Ht. simpl.
  case_bool_decide; simpl; rewrite get_assigned_employee_at, Ht; simpl;
    by case_bool_decide.
Qed.

Lemma count_tasks_run (w : World) (xs : list loc) (c : counters) :
  Forall (λ x, is_Some (task_at (heap w) x)) xs →
  foldM count_task c xs w = (Ok (foldl (tally_task (heap w)) c xs), w).
Proof.
  intros Hxs. revert c. induction Hxs as [|x xs Hx _ IH]; intros c; [done|].
  rewrite foldM_cons, (count_task_run _ _ _ Hx). apply IH.
Qed.

Lemma counters_eq (n co ip a u n' co' ip' a' u' : Z) :
  n = n' → co = co' → ip = ip' → a = a' → u = u' →
  (n, co, ip, a, u) = (n', co', ip', a', u').
Proof. congruence. Qed.

Lemma tally_closed (h : gmap loc object) (xs : list loc)
    (n co ip a u : Z) :
  foldl (tally_task h) (n, co, ip, a, u) xs =
    (n + Z.of_nat (length xs),
     co + completed_among h xs,
     ip + (Z.of_nat (length xs) - completed_among h xs),
     a + count_of (assigned_at h) xs,
     u + (Z.of_nat (length xs) - count_of (assigned_at h) xs)).
Proof.
  revert n co ip a u. unfold completed_among.
  induction xs as [|x xs IH]; intros n co ip a u.
  - unfold count_of. simpl.
    apply counters_eq; lia.
  - simpl foldl. unfold tally_task at 1. rewrite IH, !count_of_cons.
    simpl length. destruct (completed_at h x), (assigned_at h x);
      apply counters_eq; lia.
Qed.

Lemma tally_ext (h h' : gmap loc object) (xs : list loc) (c : counters) :
  Forall (λ x, task_at h' x = task_at h x) xs →
  foldl (tally_task h') c xs = foldl (tally_task h) c xs.
Proof.
  intros Hxs. revert c. induction Hxs as [|x xs Hx _ IH]; intros c; [done|].
  simpl. rewrite IH. f_equal. destruct c as [[[[n co] ip] a] u].
  unfold tally_task, completed_at, assigned_at. by rewrite Hx.
Qed.

Lemma task_at_weaken (h h' : gmap loc object) (x : loc) :
  h ⊆ h' → is_Some (task_at h x) → task_at h' x = task_at h x.
Proof.
  intros Hsub [t Ht]. unfold task_at in *.
  destruct (h !! x) as [[e0|t0|p0|l0]|] eqn:Hx; try done.
  by rewrite (lookup_weaken _ _ _ _ Hx Hsub).
Qed.

Lemma project_tasks_weaken (h h' : gmap loc object) (l : loc)
    (xs : list loc) :
  h ⊆ h' → project_tasks h l = Some xs → project_tasks h' l = Some xs.
Proof.
  intros Hsub. unfold project_tasks.
  destruct (h !! l) as [[e0|t0|p0|l0]|] eqn:Hl; try done.
  destruct (h !! proj_tasks p0) as [[e1|t1|p1|l1]|] eqn:Hp; try done.
  intros [= <-].
  by rewrite (lookup_weaken _ _ _ _ Hl Hsub), (lookup_weaken _ _ _ _ Hp Hsub).
Qed.

Lemma project_tasks_Some (h : gmap loc object) (l : loc) (xs : list loc) :
  project_tasks h l = Some xs →
  ∃ p, h !! l = Some (OProject p) ∧ h !! proj_tasks p = Some (OList xs).
Proof.
  unfold project_tasks.
  destruct (h !! l) as [[e0|t0|p0|l0]|] eqn:Hl; try done.
  destruct (h !! proj_tasks p0) as [[e1|t1|p1|l1]|] eqn:Hp; try done.
  intros [= <-]. eauto.
Qed.

(** One round of the outer loop: the list returned by [get_tasks] is new,
    the counters advance by the tasks of the project. *)
Lemma count_project_run (w : World) (c : counters) (l : loc)
    (xs : list loc) :
  project_tasks (heap w) l = Some xs →
  Forall (λ x, is_Some (task_at (heap w) x)) xs →
  ∃ w', count_project c l w = (Ok (foldl (tally_task (heap w)) c xs), w')
        ∧ heap w ⊆ heap w' ∧ db w' = db w ∧ log w' = log w.
Proof.
  intros Hl Hxs. apply project_tasks_Some in Hl as (p & Hp & Hl).
  eexists. split.
  - unfold count_project.
    erewrite bind_Ok; [|by apply (get_tasks_run _ _ p xs)].
    erewrite bind_Ok; [|by apply load_list_Ok, lookup_insert_eq].
    rewrite count_tasks_run.
    + f_equal. f_equal. apply tally_ext.
      apply Forall_forall. intros x _.
      apply (fresh_list_task_at w _ (fresh (dom (heap w))) xs);
        [apply fresh_loc_unused | done].
    + eapply Forall_impl; [exact Hxs|]. simpl. intros x Hx.
      rewrite (task_at_weaken (heap w)); [done| |done].
      apply insert_subseteq, fresh_loc_unused.
  - simpl. split; [|done]. apply insert_subseteq, fresh_loc_unused.
Qed.

Lemma all_tasks_cons (h : gmap loc object) (l : loc) (ls xs : list loc) :
  project_tasks h l = Some xs → all_tasks h (l :: ls) = xs ++ all_tasks h ls.
Proof. intros Hl. unfold all_tasks. simpl. by rewrite Hl. Qed.

Lemma count_projects_run (h0 : gmap loc object) (ls : list loc) :
  Forall (project_ok h0) ls →
  ∀ (w : World) (c : counters), h0 ⊆ heap w →
    ∃ w', foldM count_project c ls w
          = (Ok (foldl (tally_task h0) c (all_tasks h0 ls)), w')
          ∧ heap w ⊆ heap w' ∧ db w' = db w ∧ log w' = log w.
Proof.
  induction 1 as [|l ls (xs & Hl & Hxs) _ IH]; intros w c Hsub.
  - by exists w.
  - rewrite Forall_forall in Hxs.
    assert (Forall (λ x, task_at (heap w) x = task_at h0 x) xs) as Hsame.
    { apply Forall_forall. intros x Hx. apply task_at_weaken; auto. }
    destruct (count_project_run w c l xs) as (w1 & Hrun & Hsub1 & Hdb & Hlog).
    { by apply (project_tasks_weaken h0). }
    { apply Forall_forall. intros x Hx.
      rewrite (task_at_weaken h0); auto. }
    destruct (IH w1 (foldl (tally_task h0) c xs))
      as (w2 & Hrun2 & Hsub2 & Hdb2 & Hlog2).
    { by transitivity (heap w). }
    exists w2. split; [|split; [by transitivity (heap w1)|split; congruence]].
    rewrite foldM_cons, Hrun, (tally_ext h0 _ _ _ Hsame), Hrun2.
    by rewrite (all_tasks_cons _ _ _ _ Hl), foldl_app.
Qed.

(** C7: for projects whose lists hold tasks, [get_task_statistics] returns;
    [total] is the number of tasks of all the projects, [completed] and
    [assigned] the numbers of completed and of assigned tasks among them;
    [total = completed + in_progress] and [total = assigned + unassigned];
    both rates are 0 when [total] is 0, and otherwise the floats
    [(completed / total) * 100] and [(assigned / total) * 100].  The call
    changes no object and no row. *)
Theorem task_statistics_balance (w : World) (ls : list loc) :
  Forall (project_ok (heap w)) ls →
  ∃ s, result (get_task_statistics ls) w = Ok s
       ∧ total s = Z.of_nat (length (all_tasks (heap w) ls))
       ∧ completed s = completed_among (heap w) (all_tasks (heap w) ls)
       ∧ assigned s
         = count_of (assigned_at (heap w)) (all_tasks (heap w) ls)
       ∧ total s = completed s + in_progress s
       ∧ total s = assigned s + unassigned s
       ∧ 0 ≤ completed s ≤ total s ∧ 0 ≤ assigned s ≤ total s
       ∧ (total s = 0 →
          completion_rate s = 0%float ∧ assignment_rate s = 0%float)
       ∧ (0 < total s →
          completion_rate s
          = PrimFloat.mul (int_truediv (completed s) (total s)) 100
          ∧ assignment_rate s
            = PrimFloat.mul (int_truediv (assigned s) (total s)) 100)
       ∧ heap w ⊆ heap (after (get_task_statistics ls) w)
       ∧ db (after (get_task_statistics ls) w) = db w.
Proof.
  intros Hok.
  destruct (count_projects_run (heap w) ls Hok w (0, 0, 0, 0, 0))
    as (w' & Hrun & Hsub & Hdb & _); [done|].
  rewrite tally_closed in Hrun.
  pose proof (count_of_bounds (completed_at (heap w))
                (all_tasks (heap w) ls)) as Hc.
  pose proof (count_of_bounds (assigned_at (heap w))
                (all_tasks (heap w) ls)) as Ha.
  unfold result, after, get_task_statistics.
  erewrite bind_Ok; [|exact Hrun]. simpl.
  eexists. split; [reflexivity|]. simpl. unfold completed_among, rate.
  repeat split; try lia; try done.
  - by rewrite bool_decide_eq_false_2 by lia.
  - by rewrite bool_decide_eq_false_2 by lia.
  - by rewrite bool_decide_eq_true_2 by lia.
  - by rewrite bool_decide_eq_true_2 by lia.
Qed.

Lemma sample_project_ok : Forall (project_ok sample_heap) [5%positive].
Proof.
  constructor; [|constructor].
  exists [3%positive; 4%positive]. split; [reflexivity|].
  apply sample_tasks_are_tasks.
Qed.

Lemma task_statistics_balance_witness :
  ∃ s, result (get_task_statistics [5%positive]) sample_world = Ok s
       ∧ total s = completed s + in_progress s
       ∧ total s = assigned s + unassigned s.
Proof.
  destruct (task_statistics_balance sample_world [5%positive]
              sample_project_ok)
    as (s & Hs & _ & _ & _ & Hc & Ha & _).
  exists s. split; [exact Hs|]. split; [exact Hc | exact Ha].
Defined.

(** The statistics of the sample world: two tasks, one completed, one
    assigned, both rates 50. *)
Example task_statistics_sample :
  result (get_task_statistics [5%positive]) sample_world
  = Ok (mkStats 2 1 1 1 1 50 50).
Proof. vm_compute. reflexivity. Qed.

(** ** Pay *)

Lemma calculate_pay_run (w : World) (self : loc) (e : employee) :
  heap w !! self = Some (OEmployee e) →
  Employee.calculate_pay self w =
    (Ok (PrimFloat.mul (emp_hours_worked e)
                       (PrimFloat.div (emp_salary e) 176)), w).
Proof. intros He. unfold Employee.calculate_pay. by run_with He. Qed.

(** C5 on the code: an employee with salary 100000 and no hours is paid 0;
    after [add_hours(176)] the pay is the float just below 100000, printed
    99999.999999999985 (the quotient [100000 / 176] is rounded before it is
    multiplied), and not 100000;
    after [add_hours(88)] more it is 150000. *)
Theorem pay_after_176_hours_is_not_the_salary :
  let scenario : M (float * float * float) :=
    e ← Employee.__init__ (of_ascii "Ivan"%string)
          (of_ascii "Developer"%string) 100000 0 (Some 1);
    pay0 ← Employee.calculate_pay e;
    Employee.add_hours e 176;;
    pay176 ← Employee.calculate_pay e;
    Employee.add_hours e 88;;
    pay264 ← Employee.calculate_pay e;
    mret (pay0, pay176, pay264) in
  result scenario sample_world
    = Ok (0%float, below_100000, 150000%float)
  ∧ PrimFloat.eqb below_100000 100000 = false
  ∧ below_100000 = PrimFloat.next_down 100000.
Proof. vm_compute. repeat split; reflexivity. Qed.

(** ** Binary64: order and rounding *)

Lemma digits2_bounds (p : positive) :
  2 ^ (Z.pos (digits2_pos p) - 1) ≤ Z.pos p < 2 ^ Z.pos (digits2_pos p).
Proof.
  induction p as [p IH|p IH|]; simpl digits2_pos.
  - rewrite Pos2Z.inj_succ.
    replace (Z.succ (Z.pos (digits2_pos p)) - 1) with
      (Z.succ (Z.pos (digits2_pos p) - 1)) by lia.
    rewrite !Z.pow_succ_r by lia. lia.
  - rewrite Pos2Z.inj_succ.
    replace (Z.succ (Z.pos (digits2_pos p)) - 1) with
      (Z.succ (Z.pos (digits2_pos p) - 1)) by lia.
    rewrite !Z.pow_succ_r by lia. lia.
  - done.
Qed.

Lemma digits2_unique (p : positive) (k : Z) :
  2 ^ (k - 1) ≤ Z.pos p < 2 ^ k → Z.pos (digits2_pos p) = k.
Proof.
  intros [Hlo Hhi]. pose proof (digits2_bounds p) as [Hlo' Hhi'].
  destruct (Z.lt_trichotomy (Z.pos (digits2_pos p)) k) as [Hlt|[Heq|Hgt]];
    [|done|].
  - assert (2 ^ Z.pos (digits2_pos p) ≤ 2 ^ (k - 1))
      by (apply Z.pow_le_mono_r; lia). lia.
  - assert (0 ≤ k).
    { destruct (Z.le_gt_cases 0 k); [done|].
      rewrite Z.pow_neg_r in Hhi by done. lia. }
    assert (2 ^ k ≤ 2 ^ (Z.pos (digits2_pos p) - 1))
      by (apply Z.pow_le_mono_r; lia). lia.
Qed.

(** A valid finite float: exponent in range, at most 53 digits, and 53
    digits unless the exponent is the least one. *)
Lemma bounded_inv (m : positive) (e : Z) :
  bounded prec emax m e = true →
  -1074 ≤ e ≤ 971 ∧ Z.pos (digits2_pos m) ≤ 53
  ∧ (Z.pos (digits2_pos m) = 53 ∨ e = -1074).
Proof.
  unfold bounded, canonical_mantissa, fexp, emin.
  change prec with 53. change emax with 1024.
  intros [Hc He]%andb_prop. apply Z.eqb_eq in Hc. apply Z.leb_le in He. lia.
Qed.

Lemma bounded_intro (m : positive) (e : Z) :
  -1074 ≤ e ≤ 971 → Z.pos (digits2_pos m) ≤ 53 →
  (Z.pos (digits2_pos m) = 53 ∨ e = -1074) →
  bounded prec emax m e = true.
Proof.
  unfold bounded, canonical_mantissa, fexp, emin.
  change prec with 53. change emax with 1024.
  intros He Hd Hn. apply andb_true_intro. split.
  - apply Z.eqb_eq. lia.
  - apply Z.leb_le. lia.
Qed.

Lemma finite_below_infinity (m : positive) (e : Z) :
  bounded prec emax m e = true → 0 < Z.pos m * 2 ^ (e + 1074) < 2 ^ 2098.
Proof.
  intros (He & Hd & _)%bounded_inv.
  pose proof (digits2_bounds m) as [_ Hm].
  assert (0 < 2 ^ (e + 1074)) by (apply Z.pow_pos_nonneg; lia).
  split; [lia|].
  assert (2 ^ Z.pos (digits2_pos m) ≤ 2 ^ 53) by (apply Z.pow_le_mono_r; lia).
  assert (2 ^ (e + 1074) ≤ 2 ^ 2045) by (apply Z.pow_le_mono_r; lia).
  replace (2 ^ 2098) with (2 ^ 53 * 2 ^ 2045)
    by (rewrite <- Z.pow_add_r by lia; reflexivity).
  nia.
Qed.

(** Of two valid positive floats, the one with the smaller exponent is the
    smaller. *)
Lemma smaller_exponent (m1 m2 : positive) (e1 e2 : Z) :
  bounded prec emax m1 e1 = true → bounded prec emax m2 e2 = true →
  e1 < e2 → Z.pos m1 * 2 ^ (e1 + 1074) < Z.pos m2 * 2 ^ (e2 + 1074).
Proof.
  intros (He1 & Hd1 & _)%bounded_inv (He2 & Hd2 & Hn2)%bounded_inv Hlt.
  destruct Hn2 as [Hn2|]; [|lia].
  pose proof (digits2_bounds m1) as [_ Hm1].
  pose proof (digits2_bounds m2) as [Hm2 _]. rewrite Hn2 in Hm2.
  assert (2 ^ Z.pos (digits2_pos m1) ≤ 2 ^ 53) by (apply Z.pow_le_mono_r; lia).
  assert (0 < 2 ^ (e1 + 1074)) by (apply Z.pow_pos_nonneg; lia).
  assert (2 * 2 ^ (e1 + 1074) ≤ 2 ^ (e2 + 1074)).
  { rewrite <- Z.pow_succ_r by lia. apply Z.pow_le_mono_r; lia. }
  change (53 - 1) with 52 in Hm2.
  assert (2 ^ 53 = 2 * 2 ^ 52) by reflexivity.
  nia.
Qed.

Lemma compare_finite_pos (m1 m2 : positive) (e1 e2 : Z) :
  bounded prec emax m1 e1 = true → bounded prec emax m2 e2 = true →
  (Z.pos m1 * 2 ^ (e1 + 1074) ?= Z.pos m2 * 2 ^ (e2 + 1074)) =
    match e1 ?= e2 with
    | Lt => Lt
    | Gt => Gt
    | Eq => Pos.compare_cont Eq m1 m2
    end.
Proof.
  intros H1 H2. destruct (Z.compare_spec e1 e2) as [->|Hlt|Hgt].
  - pose proof (bounded_inv _ _ H2) as (He & _).
    assert (0 < 2 ^ (e2 + 1074)) by (apply Z.pow_pos_nonneg; lia).
    change (Pos.compare_cont Eq m1 m2) with (Z.pos m1 ?= Z.pos m2).
    destruct (Z.compare_spec (Z.pos m1) (Z.pos m2)) as [Heq|Hlt|Hgt].
    + apply Z.compare_eq_iff. by rewrite Heq.
    + apply Z.compare_lt_iff. nia.
    + apply Z.compare_gt_iff. nia.
  - apply Z.compare_lt_iff. by apply smaller_exponent.
  - apply Z.compare_gt_iff. by apply smaller_exponent.
Qed.

(** On valid floats that are not NaN, [SFcompare] is the comparison of the
    ranks. *)
Lemma SFcompare_ord (x y : spec_float) :
  valid_binary x = true → valid_binary y = true →
  SF_is_nan x = false → SF_is_nan y = false →
  SFcompare x y = Some (SF_ord x ?= SF_ord y).
Proof.
  assert (0 < 2 ^ 2098) as Hinf by (by apply Z.pow_pos_nonneg).
  destruct x as [sx|sx| |sx mx ex], y as [sy|sy| |sy my ey];
    unfold SFcompare, SF_ord, valid_binary, SF_is_nan;
    intros Hx Hy Nx Ny; try done;
    try pose proof (finite_below_infinity _ _ Hx) as Hpx;
    try pose proof (finite_below_infinity _ _ Hy) as Hpy;
    try (destruct sx); try (destruct sy); unfold cond_Zopp; f_equal;
    try reflexivity;
    try (symmetry; first [ apply Z.compare_lt_iff; lia
                         | apply Z.compare_gt_iff; lia
                         | apply Z.compare_eq_iff; lia ]).
  - rewrite Z.compare_opp, (compare_finite_pos my mx ey ex) by done.
    rewrite (Z.compare_antisym ey ex), (Pos.compare_cont_antisym _ _ Eq).
    by destruct (ey ?= ex).
  - by rewrite compare_finite_pos.
Qed.

Lemma fexp_eq (k : Z) : fexp prec emax k = Z.max (k - 53) (-1074).
Proof. reflexivity. Qed.

Lemma shifted_1 (mrs : shr_record) : shifted 1 mrs (shr_1 mrs).
Proof.
  destruct mrs as [m r s]. unfold shifted, inexact. simpl shr_m.
  intros Hm. change (2 ^ 1) with 2.
  destruct m as [|[p|p|]|p]; try lia; simpl shr_1; simpl shr_m;
    simpl shr_r; simpl shr_s.
  - split; [done|]. rewrite orb_false_l. split; [auto | intros [?|?]; done].
  - split; [rewrite Pos2Z.inj_xI; apply (Z.div_unique _ _ _ 1); lia|].
    split; [intros _; right|done].
    rewrite Pos2Z.inj_xI.
    replace (2 * Z.pos p + 1) with (1 + Z.pos p * 2) by lia.
    rewrite Z.mod_add by lia. done.
  - split; [rewrite Pos2Z.inj_xO; apply (Z.div_unique _ _ _ 0); lia|].
    rewrite orb_false_l. split; [auto|]. intros [?|Hne]; [done|].
    exfalso. apply Hne. rewrite Pos2Z.inj_xO, Z.mul_comm.
    apply Z.mod_mul. lia.
  - split; [done|]. split; [intros _; by right|done].
Qed.

Lemma shifted_compose (a b : Z) (mrs mrs1 mrs2 : shr_record) :
  0 < a → 0 < b → shifted a mrs mrs1 → shifted b mrs1 mrs2 →
  shifted (a + b) mrs mrs2.
Proof.
  intros Ha Hb H1 H2 Hm. destruct (H1 Hm) as [Hm1 Hi1].
  assert (0 < 2 ^ a) by (apply Z.pow_pos_nonneg; lia).
  assert (0 < 2 ^ b) by (apply Z.pow_pos_nonneg; lia).
  assert (0 ≤ shr_m mrs1) as Hm1'.
  { rewrite Hm1. apply Z.div_pos; lia. }
  destruct (H2 Hm1') as [Hm2 Hi2].
  rewrite Z.pow_add_r by lia. split.
  - rewrite Hm2, Hm1. apply Z.div_div; lia.
  - rewrite Hi2, Hi1, Hm1, Z.rem_mul_r by lia.
    pose proof (Z.mod_pos_bound (shr_m mrs) (2 ^ a)).
    pose proof (Z.mod_pos_bound (shr_m mrs / 2 ^ a) (2 ^ b)).
    split.
    + intros [[?|?]|?]; [by left|right; nia|right; nia].
    + intros [?|Hne]; [by left; left|].
      destruct (decide (shr_m mrs `mod` 2 ^ a = 0)) as [Hz|Hnz].
      * right. intros Hz2. apply Hne. rewrite Hz, Hz2. lia.
      * left. by right.
Qed.

Lemma shifted_iter (p : positive) (mrs : shr_record) :
  shifted (Z.pos p) mrs (SpecFloat.iter_pos shr_1 p mrs).
Proof.
  revert mrs. induction p as [p IH|p IH|]; intros mrs; simpl SpecFloat.iter_pos.
  - replace (Z.pos p~1) with (1 + (Z.pos p + Z.pos p)) by lia.
    eapply shifted_compose; [lia|lia|apply shifted_1|].
    eapply shifted_compose; [lia|lia|apply IH|apply IH].
  - replace (Z.pos p~0) with (Z.pos p + Z.pos p) by lia.
    eapply shifted_compose; [lia|lia|apply IH|apply IH].
  - apply shifted_1.
Qed.

(** The first step of rounding a positive mantissa [m] with exponent [e]:
    the shift to the exponent [max e (fexp (digits m + e))]. *)
Lemma shr_fexp_Exact (m : positive) (e : Z) :
  let n := Z.max 0 (fexp prec emax (Z.pos (digits2_pos m) + e) - e) in
  ∃ mrs, shr_fexp prec emax (Z.pos m) e loc_Exact = (mrs, e + n)
         ∧ shr_m mrs = Z.pos m / 2 ^ n
         ∧ (inexact mrs = true ↔ Z.pos m mod 2 ^ n ≠ 0).
Proof.
  intros n. unfold shr_fexp, shr. simpl Zdigits2. simpl shr_record_of_loc.
  fold (fexp prec emax).
  destruct (fexp prec emax (Z.pos (digits2_pos m) + e) - e) as [|k|k] eqn:Hk;
    subst n.
  - eexists. split; [by rewrite Z.add_0_r|]. simpl shr_m.
    change (2 ^ Z.max 0 0) with 1. rewrite Z.div_1_r, Z.mod_1_r.
    split; [done|]. unfold inexact. simpl. split; done.
  - eexists. split; [by rewrite Z.max_r by lia|].
    rewrite Z.max_r by lia.
    destruct (shifted_iter k (Build_shr_record (Z.pos m) false false))
      as [Hm Hi]; [simpl; lia|].
    split; [exact Hm|]. rewrite Hi. unfold inexact. simpl.
    split; [by intros [?|?]|by right].
  - eexists. split; [by rewrite Z.max_l, Z.add_0_r by lia|].
    rewrite Z.max_l by lia. simpl shr_m.
    change (2 ^ 0) with 1. rewrite Z.div_1_r, Z.mod_1_r.
    split; [done|]. unfold inexact. simpl. split; done.
Qed.

Lemma round_nearest_even_bounds (mrs : shr_record) :
  let m1 := round_nearest_even (shr_m mrs) (loc_of_shr_record mrs) in
  shr_m mrs ≤ m1 ≤ shr_m mrs + 1
  ∧ (inexact mrs = false → m1 = shr_m mrs).
Proof.
  destruct mrs as [m [|] [|]]; unfold inexact; simpl;
    try destruct (Z.even m); split; (lia || done).
Qed.

Lemma Pos_iter_xO (m d : positive) :
  Z.pos (Pos.iter xO m d) = Z.pos m * 2 ^ Z.pos d.
Proof.
  induction d as [|d IH] using Pos.peano_ind.
  - simpl. lia.
  - rewrite Pos.iter_succ, Pos2Z.inj_xO, IH, Pos2Z.inj_succ, Z.pow_succ_r by lia.
    lia.
Qed.

(** The outcome of the second step of rounding, for a mantissa that has the
    digits of its exponent [t] or is the power of two above them. *)
Lemma shr_fexp_second (p1 : positive) (t : Z) :
  -1074 ≤ t →
  (Z.pos (digits2_pos p1) ≤ 53
   ∧ (Z.pos (digits2_pos p1) = 53 ∨ t = -1074))
  ∨ Z.pos p1 = 2 ^ 53 →
  ∃ (mrs : shr_record) (mr : positive) (er : Z),
    shr_fexp prec emax (Z.pos p1) t loc_Exact = (mrs, er)
    ∧ shr_m mrs = Z.pos mr
    ∧ -1074 ≤ er ∧ Z.pos (digits2_pos mr) ≤ 53
    ∧ (Z.pos (digits2_pos mr) = 53 ∨ er = -1074)
    ∧ Z.pos mr * 2 ^ (er + 1074) = Z.pos p1 * 2 ^ (t + 1074).
Proof.
  intros Ht Hp1.
  destruct (shr_fexp_Exact p1 t) as (mrs & Hs & Hq & _).
  rewrite fexp_eq in Hs, Hq.
  destruct Hp1 as [[Hd Hn] | Hpow].
  - rewrite Z.max_l in Hs, Hq by lia.
    change (2 ^ 0) with 1 in Hq. rewrite Z.div_1_r in Hq.
    exists mrs, p1, (t + 0). repeat split; try done; try lia.
    by rewrite Z.add_0_r.
  - assert (Z.pos (digits2_pos p1) = 54) as Hd.
    { apply digits2_unique. rewrite Hpow. change (54 - 1) with 53.
      split; [lia|]. by apply Z.pow_lt_mono_r. }
    rewrite Hd in Hs, Hq. rewrite Z.max_r in Hs, Hq by lia.
    replace (Z.max (54 + t - 53) (-1074) - t) with 1 in Hs, Hq by lia.
    rewrite Hpow in Hq. change (2 ^ 53 / 2 ^ 1) with (Z.pos (2 ^ 52)) in Hq.
    exists mrs, (2 ^ 52)%positive, (t + 1).
    split; [done|]. split; [done|]. split; [lia|].
    split; [by vm_compute|]. split; [left; by vm_compute|].
    rewrite Hpow. replace (t + 1 + 1074) with (Z.succ (t + 1074)) by lia.
    rewrite Z.pow_succ_r by lia.
    change (Z.pos (2 ^ 52)) with (2 ^ 52). change (2 ^ 53) with (2 * 2 ^ 52).
    lia.
Qed.

(** Rounding a positive mantissa [m] with an exponent [e] that is not above
    the exponent [t] of its digits. *)
Lemma binary_round_aux_Exact (s : bool) (m : positive) (e : Z) :
  let t := fexp prec emax (Z.pos (digits2_pos m) + e) in
  -1074 ≤ e ≤ t →
  ∃ (mr : positive) (er m1 : Z),
    binary_round_aux prec emax s (Z.pos m) e loc_Exact
    = (if er <=? 971 then S754_finite s mr er else S754_infinity s)
    ∧ -1074 ≤ er ∧ Z.pos (digits2_pos mr) ≤ 53
    ∧ (Z.pos (digits2_pos mr) = 53 ∨ er = -1074)
    ∧ Z.pos mr * 2 ^ (er + 1074) = m1 * 2 ^ (t + 1074)
    ∧ Z.pos m / 2 ^ (t - e) ≤ m1 ≤ Z.pos m / 2 ^ (t - e) + 1
    ∧ (Z.pos m mod 2 ^ (t - e) = 0 → m1 = Z.pos m / 2 ^ (t - e)).
Proof.
  intros t He. unfold binary_round_aux.
  destruct (shr_fexp_Exact m e) as (mrs & Hs & Hq & Hi).
  fold t in Hs, Hq, Hi. rewrite Z.max_r in Hs, Hq, Hi by lia.
  replace (e + (t - e)) with t in Hs by lia. rewrite Hs.
  pose proof (round_nearest_even_bounds mrs) as [Hm1 Hex].
  set (m1 := round_nearest_even (shr_m mrs) (loc_of_shr_record mrs)) in *.
  rewrite Hq in Hm1, Hex.
  pose proof (digits2_bounds m) as [Hlo Hhi].
  assert (Z.pos m `mod` 2 ^ (t - e) = 0 → m1 = Z.pos m `div` 2 ^ (t - e))
    as Hexact.
  { intros Hz. apply Hex. apply not_true_is_false. by intros Hin%Hi. }
  assert (∃ p1, m1 = Z.pos p1
                ∧ ((Z.pos (digits2_pos p1) ≤ 53
                    ∧ (Z.pos (digits2_pos p1) = 53 ∨ t = -1074))
                   ∨ Z.pos p1 = 2 ^ 53)) as (p1 & Hp1 & Hshape).
  { unfold t in *. rewrite fexp_eq in *.
    destruct (decide (Z.pos (digits2_pos m) + e - 53 ≤ e)) as [Hle|Hgt].
    - (* no shift *)
      assert (Z.max (Z.pos (digits2_pos m) + e - 53) (-1074) = e) as Ht
        by lia.
      rewrite Ht, Z.sub_diag in *. change (2 ^ 0) with 1 in *.
      rewrite Z.div_1_r in *. rewrite Z.mod_1_r in Hexact.
      exists m. split; [by apply Hexact|]. left. lia.
    - (* a shift by [digits m - 53] bits *)
      assert (Z.max (Z.pos (digits2_pos m) + e - 53) (-1074)
              = Z.pos (digits2_pos m) + e - 53) as Ht by lia.
      rewrite Ht in *.
      replace (Z.pos (digits2_pos m) + e - 53 - e)
        with (Z.pos (digits2_pos m) - 53) in * by lia.
      set (n := Z.pos (digits2_pos m) - 53) in *.
      assert (0 < 2 ^ n) by (apply Z.pow_pos_nonneg; lia).
      assert (2 ^ (Z.pos (digits2_pos m) - 1) = 2 ^ n * 2 ^ 52) as Hlo'.
      { rewrite <- Z.pow_add_r by lia. f_equal. lia. }
      assert (2 ^ Z.pos (digits2_pos m) = 2 ^ n * 2 ^ 53) as Hhi'.
      { rewrite <- Z.pow_add_r by lia. f_equal. lia. }
      assert (2 ^ 52 ≤ Z.pos m `div` 2 ^ n) as Hq1.
      { apply Z.div_le_lower_bound; lia. }
      assert (Z.pos m `div` 2 ^ n < 2 ^ 53) as Hq2.
      { apply Z.div_lt_upper_bound; lia. }
      assert (0 < 2 ^ 52) by done.
      destruct m1 as [|p1|p1]; try lia.
      exists p1. split; [done|].
      destruct (decide (Z.pos p1 = 2 ^ 53)) as [Heq|Hne]; [by right|].
      left. assert (Z.pos (digits2_pos p1) = 53) as Hd53.
      { apply digits2_unique. change (53 - 1) with 52. lia. }
      lia. }
  rewrite Hp1.
  destruct (shr_fexp_second p1 t) as (mrs2 & mr & er & Hs2 & Hm2 & Her & Hd
                                      & Hn & Hval); [lia|done|].
  rewrite Hs2, Hm2. exists mr, er, m1.
  split; [reflexivity|]. rewrite <- Hp1 in Hval.
  repeat (split; [assumption|]). assumption.
Qed.

Lemma shl_align_spec (m : positive) (e e' : Z) :
  (shl_align m e e').2 = Z.min e e'
  ∧ Z.pos (shl_align m e e').1 = Z.pos m * 2 ^ (e - Z.min e e').
Proof.
  unfold shl_align. destruct (e' - e) as [|d|d] eqn:Hd; simpl.
  - rewrite Z.min_l by lia. rewrite Z.sub_diag. lia.
  - rewrite Z.min_l by lia. rewrite Z.sub_diag. lia.
  - rewrite Z.min_r by lia. split; [done|].
    rewrite Pos_iter_xO. f_equal. f_equal. lia.
Qed.

Lemma digits2_shift (m mz : positive) (k : Z) :
  0 ≤ k → Z.pos mz = Z.pos m * 2 ^ k →
  Z.pos (digits2_pos mz) = Z.pos (digits2_pos m) + k.
Proof.
  intros Hk Hmz. apply digits2_unique. rewrite Hmz.
  pose proof (digits2_bounds m) as [Hlo Hhi].
  assert (0 < 2 ^ k) by (apply Z.pow_pos_nonneg; lia).
  replace (Z.pos (digits2_pos m) + k - 1)
    with (Z.pos (digits2_pos m) - 1 + k) by lia.
  rewrite !Z.pow_add_r by lia. nia.
Qed.

(** Rounding to nearest of the positive number [m * 2^e], [e] not below the
    least exponent: the result is [m1] units of [U], the unit in the last
    place at the magnitude of the number, where [m1] is the number of whole
    units in it or one more, and exactly that number when the number is a
    multiple of the unit; it overflows to an infinity when the exponent is
    too large. *)
Lemma binary_round_spec (s : bool) (m : positive) (e : Z) :
  -1074 ≤ e →
  let T := Z.max (Z.pos (digits2_pos m) + e - 53) (-1074) in
  let V := Z.pos m * 2 ^ (e + 1074) in
  let U := 2 ^ (T + 1074) in
  ∃ (mr : positive) (er m1 : Z),
    binary_round prec emax s m e
    = (if er <=? 971 then S754_finite s mr er else S754_infinity s)
    ∧ -1074 ≤ er ∧ Z.pos (digits2_pos mr) ≤ 53
    ∧ (Z.pos (digits2_pos mr) = 53 ∨ er = -1074)
    ∧ Z.pos mr * 2 ^ (er + 1074) = m1 * U
    ∧ V / U ≤ m1 ≤ V / U + 1
    ∧ (V mod U = 0 → m1 = V / U).
Proof.
  intros He T V U. unfold binary_round. rewrite fexp_eq. fold T.
  pose proof (shl_align_spec m e T) as [Hez Hmz].
  destruct (shl_align m e T) as [mz ez]. simpl in Hez, Hmz. subst ez.
  assert (Z.pos (digits2_pos mz) + Z.min e T = Z.pos (digits2_pos m) + e)
    as Hd.
  { rewrite (digits2_shift m mz (e - Z.min e T)); [lia|lia|done]. }
  destruct (binary_round_aux_Exact s mz (Z.min e T))
    as (mr & er & m1 & Hr & Her & Hdr & Hnr & Hval & Hm1 & Hex).
  { rewrite fexp_eq, Hd. fold T. lia. }
  rewrite fexp_eq, Hd in Hval, Hm1, Hex. fold T in Hval, Hm1, Hex.
  assert (0 < 2 ^ (Z.min e T + 1074)) as Hpos
    by (apply Z.pow_pos_nonneg; lia).
  assert (V = Z.pos mz * 2 ^ (Z.min e T + 1074)) as HV.
  { unfold V. rewrite Hmz, <- Z.mul_assoc, <- Z.pow_add_r by lia.
    f_equal. f_equal. lia. }
  assert (U = 2 ^ (T - Z.min e T) * 2 ^ (Z.min e T + 1074)) as HU.
  { unfold U. rewrite <- Z.pow_add_r by lia. f_equal. lia. }
  assert (V / U = Z.pos mz / 2 ^ (T - Z.min e T)) as Hdiv.
  { rewrite HV, HU. apply Z.div_mul_cancel_r; lia. }
  assert (V mod U = Z.pos mz mod 2 ^ (T - Z.min e T)
                    * 2 ^ (Z.min e T + 1074)) as Hmod.
  { rewrite HV, HU. apply Z.mul_mod_distr_r; lia. }
  exists mr, er, m1. rewrite Hdiv.
  repeat (split; [assumption|]). intros Hz. apply Hex. nia.
Qed.

Section Round_bounds.
Variables (m : positive) (e : Z) (mz : positive) (ez : Z) (m1 : Z).
Let T := Z.max (Z.pos (digits2_pos m) + e - 53) (-1074).
Let V := Z.pos m * 2 ^ (e + 1074).
Let U := 2 ^ (T + 1074).
Let Z' := Z.pos mz * 2 ^ (ez + 1074).
Hypothesis He : -1074 ≤ e.
Hypothesis Hz : bounded prec emax mz ez = true.
Hypothesis Hm1 : V / U ≤ m1 ≤ V / U + 1.
Hypothesis Hex : V mod U = 0 → m1 = V / U.

Lemma unit_pos : 0 < U.
Proof. apply Z.pow_pos_nonneg; unfold T; lia. Qed.

(** A float of a finer exponent than the unit is below [2^52] units, and the
    number is at least that. *)
Lemma finer_exponent : ez < T → Z' < 2 ^ 52 * U ∧ 2 ^ 52 * U ≤ V.
Proof.
  intros Hlt. destruct (bounded_inv _ _ Hz) as (Hez & Hdz & _).
  pose proof (digits2_bounds mz) as [_ Hhi].
  pose proof (digits2_bounds m) as [Hlo _].
  assert (T = Z.pos (digits2_pos m) + e - 53) as HT by (unfold T in *; lia).
  assert (2 ^ Z.pos (digits2_pos mz) ≤ 2 ^ 53)
    by (apply Z.pow_le_mono_r; lia).
  assert (0 < 2 ^ (ez + 1074)) by (apply Z.pow_pos_nonneg; lia).
  assert (0 < 2 ^ (e + 1074)) by (apply Z.pow_pos_nonneg; lia).
  assert (2 * 2 ^ (ez + 1074) ≤ U).
  { unfold U. rewrite <- Z.pow_succ_r by lia. apply Z.pow_le_mono_r; lia. }
  assert (2 ^ 53 = 2 * 2 ^ 52) as H53 by reflexivity.
  assert (0 < 2 ^ 52) as H52 by done.
  split.
  { unfold Z'. rewrite H53 in *. clear H53.
    set (B := 2 ^ 52) in *. clearbody B.
    assert (Z.pos mz * 2 ^ (ez + 1074) < 2 * B * 2 ^ (ez + 1074))
      by (apply Z.mul_lt_mono_pos_r; lia).
    assert (B * (2 * 2 ^ (ez + 1074)) ≤ B * U)
      by (apply Z.mul_le_mono_nonneg_l; lia).
    lia. }
  assert (2 ^ 52 * U = 2 ^ (Z.pos (digits2_pos m) - 1) * 2 ^ (e + 1074))
    as ->.
  { unfold U. rewrite <- !Z.pow_add_r by lia. f_equal. lia. }
  unfold V. apply Z.mul_le_mono_nonneg_r; lia.
Qed.

(** A float of an exponent that is not finer is a whole number of units. *)
Lemma coarser_exponent : T ≤ ez → Z' = Z.pos mz * 2 ^ (ez - T) * U.
Proof.
  intros Hle. unfold Z', U. rewrite <- Z.mul_assoc, <- Z.pow_add_r
    by (unfold T in *; lia).
  f_equal. f_equal. lia.
Qed.

(** The rounded number is not below a float that the number is not
    below. *)
Lemma round_lower : Z' ≤ V → Z' ≤ m1 * U.
Proof.
  intros Hle. pose proof unit_pos as HU.
  destruct (Z.lt_ge_cases ez T) as [Hlt|Hge].
  - destruct (finer_exponent Hlt) as [H1 H2].
    assert (2 ^ 52 ≤ V / U) by (apply Z.div_le_lower_bound; lia).
    nia.
  - rewrite (coarser_exponent Hge) in *.
    set (K := Z.pos mz * 2 ^ (ez - T)) in *.
    assert (K ≤ V / U) by (apply Z.div_le_lower_bound; lia).
    nia.
Qed.

(** The rounded number is not above a float that the number is not
    above. *)
Lemma round_upper : V ≤ Z' → m1 * U ≤ Z'.
Proof.
  intros Hle. pose proof unit_pos as HU.
  destruct (Z.lt_ge_cases ez T) as [Hlt|Hge].
  - destruct (finer_exponent Hlt) as [H1 H2]. lia.
  - rewrite (coarser_exponent Hge) in *.
    set (K := Z.pos mz * 2 ^ (ez - T)) in *.
    pose proof (Z.div_mod V U ltac:(lia)) as Hdm.
    pose proof (Z.mod_pos_bound V U HU) as Hmb.
    destruct (decide (V mod U = 0)) as [Hz0|Hnz].
    + rewrite (Hex Hz0). nia.
    + assert (V / U < K) by nia. nia.
Qed.

End Round_bounds.

Lemma SFltb_ord (x y : spec_float) :
  valid_binary x = true → valid_binary y = true →
  SF_is_nan x = false → SF_is_nan y = false →
  SFltb x y = (SF_ord x <? SF_ord y).
Proof.
  intros Hx Hy Nx Ny. unfold SFltb, Z.ltb.
  by rewrite (SFcompare_ord x y Hx Hy Nx Ny).
Qed.

Lemma SFltb_irrefl (x : spec_float) : SFltb x x = false.
Proof.
  destruct x as [s|s| |s m e]; unfold SFltb, SFcompare; try done.
  - by destruct s.
  - rewrite Z.compare_refl.
    change (Pos.compare_cont Eq m m) with (m ?= m)%positive.
    rewrite Pos.compare_refl. by destruct s.
Qed.

(** A float that is not below zero: a zero, a positive finite float,
    [+inf], or NaN. *)
Lemma SFltb_zero_false (h : spec_float) :
  SFltb h (S754_zero false) = false →
  match h with
  | S754_infinity s | S754_finite s _ _ => s = false
  | _ => True
  end.
Proof. destruct h as [s|s| |s m e]; try done; by destruct s. Qed.

(** The sum of two finite floats is the rounding of the sum of their
    ranks. *)
Lemma SFadd_finite (sx sy : bool) (mx my : positive) (ex ey : Z) :
  ∃ M : Z,
    SFadd prec emax (S754_finite sx mx ex) (S754_finite sy my ey)
    = binary_normalize prec emax M (Z.min ex ey) false
    ∧ (-1074 ≤ ex → -1074 ≤ ey →
       M * 2 ^ (Z.min ex ey + 1074)
       = SF_ord (S754_finite sx mx ex) + SF_ord (S754_finite sy my ey)).
Proof.
  eexists. split; [reflexivity|]. intros Hx Hy.
  destruct (shl_align_spec mx ex (Z.min ex ey)) as [_ ->].
  destruct (shl_align_spec my ey (Z.min ex ey)) as [_ ->].
  replace (Z.min ex (Z.min ex ey)) with (Z.min ex ey) by lia.
  replace (Z.min ey (Z.min ex ey)) with (Z.min ex ey) by lia.
  unfold SF_ord. rewrite Z.mul_add_distr_r.
  assert (∀ (s : bool) (m : positive) (e : Z), -1074 ≤ e → Z.min ex ey ≤ e →
            cond_Zopp s (Z.pos m * 2 ^ (e - Z.min ex ey))
            * 2 ^ (Z.min ex ey + 1074)
            = cond_Zopp s (Z.pos m * 2 ^ (e + 1074))) as Hterm.
  { intros s m e He Hle.
    replace (e + 1074) with (e - Z.min ex ey + (Z.min ex ey + 1074)) by lia.
    rewrite (Z.pow_add_r 2 (e - Z.min ex ey) (Z.min ex ey + 1074)) by lia.
    destruct s; unfold cond_Zopp; ring. }
  rewrite !Hterm by lia. done.
Qed.

Lemma finite_result_valid (mr : positive) (er : Z) :
  -1074 ≤ er → Z.pos (digits2_pos mr) ≤ 53 →
  (Z.pos (digits2_pos mr) = 53 ∨ er = -1074) → er ≤ 971 →
  bounded prec emax mr er = true.
Proof. intros. apply bounded_intro; lia. Qed.

(** A canonical mantissa and exponent that make a number not above a valid
    float have an exponent in range. *)
Lemma exponent_in_range (mr mz : positive) (er ez : Z) :
  Z.pos (digits2_pos mr) = 53 ∨ er = -1074 →
  bounded prec emax mz ez = true →
  Z.pos mr * 2 ^ (er + 1074) ≤ Z.pos mz * 2 ^ (ez + 1074) →
  er ≤ 971.
Proof.
  intros Hn (Hez & Hdz & _)%bounded_inv Hle.
  destruct (Z.le_gt_cases er 971) as [|Hgt]; [done|exfalso].
  destruct Hn as [Hn|]; [|lia].
  pose proof (digits2_bounds mr) as [Hlo _]. rewrite Hn in Hlo.
  change (53 - 1) with 52 in Hlo.
  pose proof (digits2_bounds mz) as [_ Hhi].
  assert (2 ^ Z.pos (digits2_pos mz) ≤ 2 ^ 53)
    by (apply Z.pow_le_mono_r; lia).
  assert (0 < 2 ^ (ez + 1074)) by (apply Z.pow_pos_nonneg; lia).
  assert (2 * 2 ^ (ez + 1074) ≤ 2 ^ (er + 1074)).
  { rewrite <- Z.pow_succ_r by lia. apply Z.pow_le_mono_r; lia. }
  assert (2 ^ 53 = 2 * 2 ^ 52) as H53 by reflexivity.
  assert (0 < 2 ^ 52) as H52 by done.
  rewrite H53 in *. clear H53. set (B := 2 ^ 52) in *. clearbody B.
  assert (Z.pos mz * 2 ^ (ez + 1074) < 2 * B * 2 ^ (ez + 1074))
    by (apply Z.mul_lt_mono_pos_r; lia).
  assert (B * (2 * 2 ^ (ez + 1074)) ≤ B * 2 ^ (er + 1074))
    by (apply Z.mul_le_mono_nonneg_l; lia).
  assert (B * 2 ^ (er + 1074) ≤ Z.pos mr * 2 ^ (er + 1074))
    by (apply Z.mul_le_mono_nonneg_r; lia).
  lia.
Qed.

(** Adding a float that is not below zero does not give a float below the
    first one. *)
Lemma SFadd_not_below (x h : spec_float) :
  valid_binary x = true → valid_binary h = true →
  SFltb h (S754_zero false) = false →
  SFltb (SFadd prec emax x h) x = false.
Proof.
  intros Hx Hh Hpos. apply SFltb_zero_false in Hpos.
  destruct x as [sx|sx| |sx mx ex], h as [sh|sh| |sh mh eh];
    try subst sh; try done;
    try (by destruct sx); try (by destruct sx, sh);
    try apply SFltb_irrefl.
  (* finite + finite *)
  destruct (SFadd_finite sx false mx mh ex eh) as (M & -> & HM).
  destruct (bounded_inv _ _ Hx) as (Hex & _).
  destruct (bounded_inv _ _ Hh) as (Heh & _).
  specialize (HM ltac:(lia) ltac:(lia)).
  pose proof (finite_below_infinity _ _ Hx) as [Hxpos _].
  pose proof (finite_below_infinity _ _ Hh) as [Hhpos _].
  assert (0 < 2 ^ (Z.min ex eh + 1074)) as Hu
    by (apply Z.pow_pos_nonneg; lia).
  unfold SF_ord in HM. simpl cond_Zopp in HM.
  destruct M as [|p|p]; unfold binary_normalize.
  - (* the sum is zero *)
    destruct sx; [done | simpl cond_Zopp in HM; lia].
  - (* the sum is positive *)
    destruct (binary_round_spec false p (Z.min ex eh))
      as (mr & er & m1 & -> & Her & Hdr & Hnr & Hval & Hm1 & Hexact); [lia|].
    destruct sx.
    { by destruct (er <=? 971). }
    simpl cond_Zopp in HM.
    destruct (Z.leb_spec er 971) as [Hin|Hout]; [|done].
    rewrite SFltb_ord; try done;
      [|by apply finite_result_valid].
    apply Z.ltb_ge. unfold SF_ord, cond_Zopp. rewrite Hval.
    apply (round_lower p (Z.min ex eh) mx ex m1); try done; lia.
  - (* the sum is negative *)
    destruct sx; [|simpl cond_Zopp in HM; lia].
    simpl cond_Zopp in HM.
    destruct (binary_round_spec true p (Z.min ex eh))
      as (mr & er & m1 & -> & Her & Hdr & Hnr & Hval & Hm1 & Hexact); [lia|].
    assert (Z.pos mr * 2 ^ (er + 1074) ≤ Z.pos mx * 2 ^ (ex + 1074)) as Hle.
    { rewrite Hval.
      apply (round_upper p (Z.min ex eh) mx ex m1); try done; lia. }
    pose proof (exponent_in_range mr mx er ex Hnr Hx Hle) as Hin.
    rewrite (proj2 (Z.leb_le er 971) Hin).
    rewrite SFltb_ord; try done;
      [|by apply finite_result_valid].
    apply Z.ltb_ge. unfold SF_ord, cond_Zopp. lia.
Qed.

(** ** Binary64: the primitive operations *)

Lemma ltb_ord (x y : float) :
  is_nan x = false → is_nan y = false →
  PrimFloat.ltb x y = (ord x <? ord y).
Proof.
  intros Nx Ny. rewrite ltb_spec.
  apply SFltb_ord; auto using Prim2SF_valid.
Qed.

Lemma ltb_nan_l (x y : float) : is_nan x = true → PrimFloat.ltb x y = false.
Proof.
  unfold is_nan. rewrite ltb_spec. by destruct (Prim2SF x).
Qed.

Lemma ltb_nan_r (x y : float) : is_nan y = true → PrimFloat.ltb x y = false.
Proof.
  unfold is_nan. rewrite ltb_spec.
  by destruct (Prim2SF x) as [[|]|[|]| |[|] m e], (Prim2SF y).
Qed.

Lemma add_nan_l (x h : float) :
  is_nan x = true → is_nan (PrimFloat.add x h) = true.
Proof.
  unfold is_nan. rewrite add_spec. unfold SF64add.
  by destruct (Prim2SF x).
Qed.

(** [x + h < x] is false when [h < 0] is false. *)
Lemma add_not_below (x h : float) :
  PrimFloat.ltb h 0 = false → PrimFloat.ltb (PrimFloat.add x h) x = false.
Proof.
  rewrite !ltb_spec, add_spec. change (Prim2SF 0) with (S754_zero false).
  apply SFadd_not_below; apply Prim2SF_valid.
Qed.

Lemma not_below_refl (x : float) : not_below x x.
Proof.
  unfold not_below. destruct (is_nan x); [by left | right; auto with lia].
Qed.

Lemma not_below_trans (x y z : float) :
  not_below x y → not_below y z → not_below x z.
Proof.
  unfold not_below. intros Hxy [Hz | (Ny & Nz & Hyz)]; [by left|].
  destruct Hxy as [Hy | (Nx & _ & Hxy)]; [congruence|].
  right. auto with lia.
Qed.

Lemma not_below_add (x h : float) :
  PrimFloat.ltb h 0 = false → not_below x (PrimFloat.add x h).
Proof.
  intros Hh. unfold not_below.
  destruct (is_nan (PrimFloat.add x h)) eqn:Ns; [by left | right].
  destruct (is_nan x) eqn:Nx.
  { by rewrite (add_nan_l x h Nx) in Ns. }
  repeat split; try done.
  pose proof (add_not_below x h Hh) as Hlt.
  rewrite ltb_ord in Hlt by done. by apply Z.ltb_ge in Hlt.
Qed.

Lemma not_below_ltb (x y : float) : not_below x y → PrimFloat.ltb y x = false.
Proof.
  intros [Ny | (Nx & Ny & Hle)]; [by apply ltb_nan_l|].
  rewrite ltb_ord by done. by apply Z.ltb_ge.
Qed.

(** A float that is not below a float that is not negative is not
    negative. *)
Lemma not_below_nonneg (x y : float) :
  PrimFloat.ltb x 0 = false → not_below x y → PrimFloat.ltb y 0 = false.
Proof.
  intros Hx [Ny | (Nx & Ny & Hle)]; [by apply ltb_nan_l|].
  rewrite ltb_ord in * by done. apply Z.ltb_ge. apply Z.ltb_ge in Hx. lia.
Qed.

(** ** Employees: what the setters keep *)

Lemma employee_call_step (w : World) (c : loc * employee_op) (self : loc)
    (e : employee) :
  heap w !! self = Some (OEmployee e) →
  ∃ e', heap (after (employee_call c) w) !! self = Some (OEmployee e')
        ∧ employee_step e e'.
Proof.
  intros Hs. destruct c as [l op].
  assert (∀ e' : employee, employee_step e e' →
            heap w !! l = Some (OEmployee e) ∨ l ≠ self →
            ∃ e'', <[l := OEmployee e']> (heap w) !! self
                   = Some (OEmployee e'')
                   ∧ employee_step e e'') as Hstore.
  { intros e' Hstep Hl. destruct (decide (l = self)) as [->|Hne].
    - exists e'. by rewrite lookup_insert_eq.
    - exists e. rewrite lookup_insert_ne by done. split; [done|constructor]. }
  assert (∃ e', heap w !! self = Some (OEmployee e') ∧ employee_step e e')
    as Hnone by (exists e; split; [done|constructor]).
  destruct op; unfold employee_call, Employee.get_id, Employee.get_name,
    Employee.get_position, Employee.get_salary, Employee.get_hours_worked,
    Employee.set_id, Employee.set_name, Employee.set_position,
    Employee.set_salary, Employee.add_hours, Employee.calculate_pay; simpl;
    try (rewrite truthy_strip; destruct (blank value) eqn:Hb; simpl);
    try (destruct (PrimFloat.ltb value 0) eqn:Hv);
    try (destruct (PrimFloat.ltb hours 0) eqn:Hh);
    unfold_call;
    destruct (heap w !! l) as [[e0|t0|p0|l0]|] eqn:Hl; simpl; try done;
    (destruct (decide (l = self)) as [->|Hne];
     [ assert (e0 = e) as -> by congruence;
       rewrite lookup_insert_eq; eexists; split; [reflexivity|];
       by constructor
     | rewrite lookup_insert_ne by done; exact Hnone ]).
Qed.

Lemma run_employee_calls_steps (cs : list (loc * employee_op)) (w : World)
    (self : loc) (e : employee) :
  heap w !! self = Some (OEmployee e) →
  ∃ e', heap (run_calls employee_call cs w) !! self = Some (OEmployee e')
        ∧ rtc employee_step e e'.
Proof.
  revert w e. induction cs as [|c cs IH]; intros w e Hs; simpl.
  - by exists e.
  - destruct (employee_call_step w c self e Hs) as (e1 & H1 & Hstep).
    destruct (IH _ _ H1) as (e2 & H2 & Hsteps).
    exists e2. split; [done|]. by eapply rtc_l.
Qed.

Lemma employee_step_keeps (e e' : employee) :
  employee_step e e' →
  (name_ok e → name_ok e') ∧ (salary_ok e → salary_ok e')
  ∧ (hours_ok e → hours_ok e')
  ∧ not_below (emp_hours_worked e) (emp_hours_worked e').
Proof.
  unfold name_ok, salary_ok, hours_ok.
  destruct 1; simpl; repeat split; try done; try apply not_below_refl.
  - intros H0. eapply not_below_nonneg; [exact H0|]. by apply not_below_add.
  - by apply not_below_add.
Qed.

Lemma employee_steps_keep (e e' : employee) :
  rtc employee_step e e' →
  (name_ok e → name_ok e') ∧ (salary_ok e → salary_ok e')
  ∧ (hours_ok e → hours_ok e')
  ∧ not_below (emp_hours_worked e) (emp_hours_worked e').
Proof.
  induction 1 as [e|e e1 e2 Hstep _ IH].
  - repeat split; try done. apply not_below_refl.
  - destruct (employee_step_keeps _ _ Hstep) as (Hn & Hs & Hh & Hnb).
    destruct IH as (Hn' & Hs' & Hh' & Hnb').
    repeat split; auto. by eapply not_below_trans.
Qed.

Lemma employee_init_run (w : World) (name position : str)
    (salary hours_worked : float) (id : option Z) :
  Employee.__init__ name position salary hours_worked id w =
    (Ok (fresh (dom (heap w))),
     mkWorld (<[fresh (dom (heap w)) :=
                  OEmployee (mkEmployee id name position salary
                               hours_worked)]> (heap w))
             (db w) (log w)).
Proof. reflexivity. Qed.

(** C2 (as the code has it), for salaries, hours and arguments of
    [set_salary] and [add_hours] that are floats: every state of an employee
    that is reached from its construction by calls of [Employee] methods, on
    any objects, has a name that is not empty or whitespace-only if the name
    given to the constructor was not, a salary that is not negative if the
    salary given to the constructor was not, and hours that are not negative
    if the hours given to the constructor were not; and, whatever floats
    were given to the constructor, the hours of a later state are not below
    the hours of an earlier one.  (With integer hours beyond [2^53] the last
    part fails, see [hours_of_an_integer_can_decrease].) *)
Theorem employee_invariants_after_valid_construction
    (w : World) (name position : str) (salary hours_worked : float)
    (id : option Z) :
  let self := fresh (dom (heap w)) in
  let w0 := after (Employee.__init__ name position salary hours_worked id)
                  w in
  result (Employee.__init__ name position salary hours_worked id) w = Ok self
  ∧ (∀ cs, ∃ e,
       heap (run_calls employee_call cs w0) !! self = Some (OEmployee e)
       ∧ (blank name = false → blank (emp_name e) = false)
       ∧ (PrimFloat.ltb salary 0 = false →
          PrimFloat.ltb (emp_salary e) 0 = false)
       ∧ (PrimFloat.ltb hours_worked 0 = false →
          PrimFloat.ltb (emp_hours_worked e) 0 = false))
  ∧ (∀ cs1 cs2 e1 e2,
       heap (run_calls employee_call cs1 w0) !! self = Some (OEmployee e1) →
       heap (run_calls employee_call (cs1 ++ cs2) w0) !! self
         = Some (OEmployee e2) →
       PrimFloat.ltb (emp_hours_worked e2) (emp_hours_worked e1) = false).
Proof.
  intros self w0. unfold result, after in *.
  rewrite employee_init_run in *. simpl in *. split; [done|].
  assert (heap w0 !! self =
            Some (OEmployee (mkEmployee id name position salary
                               hours_worked))) as H0
    by apply lookup_insert_eq.
  split.
  - intros cs.
    destruct (run_employee_calls_steps cs w0 self _ H0) as (e & He & Hsteps).
    exists e. split; [done|].
    destruct (employee_steps_keep _ _ Hsteps) as (Hn & Hs & Hh & _).
    auto.
  - intros cs1 cs2 e1 e2 H1 H2. rewrite run_calls_app in H2.
    destruct (run_employee_calls_steps cs2 _ self e1 H1)
      as (e & He & Hsteps).
    assert (e = e2) as -> by congruence.
    destruct (employee_steps_keep _ _ Hsteps) as (_ & _ & _ & Hnb).
    by apply not_below_ltb.
Qed.

Lemma employee_invariants_after_valid_construction_witness :
  let w0 := after (Employee.__init__ (of_ascii "Ivan"%string)
                     (of_ascii "Developer"%string) 100000 0 None)
                  sample_world in
  ∃ e, heap (run_calls employee_call
               [(6%positive, E_add_hours 8);
                (6%positive, E_set_salary (-1));
                (6%positive, E_set_name [32%N])] w0)
         !! 6%positive = Some (OEmployee e)
       ∧ blank (emp_name e) = false
       ∧ PrimFloat.ltb (emp_salary e) 0 = false
       ∧ PrimFloat.ltb (emp_hours_worked e) 0 = false.
Proof.
  intros w0.
  destruct (employee_invariants_after_valid_construction sample_world
              (of_ascii "Ivan"%string) (of_ascii "Developer"%string)
              100000 0 None) as (_ & Hinv & _).
  destruct (Hinv [(6%positive, E_add_hours 8);
                  (6%positive, E_set_salary (-1));
                  (6%positive, E_set_name [32%N])])
    as (e & He & Hn & Hs & Hh).
  exists e. split; [exact He|].
  split; [apply Hn; reflexivity|].
  split; [apply Hs; reflexivity | apply Hh; reflexivity].
Defined.

(** C2, as stated, fails: the constructor checks nothing, so a newly
    constructed employee can have an empty name, a negative salary and
    negative hours. *)
Lemma employee_constructor_checks_nothing :
  ¬ (∀ (w : World) (name position : str) (salary hours_worked : float)
       (id : option Z) (cs : list (loc * employee_op)),
       ∃ e, heap (run_calls employee_call cs
                    (after (Employee.__init__ name position salary
                              hours_worked id) w))
              !! fresh (dom (heap w)) = Some (OEmployee e)
            ∧ blank (emp_name e) = false
            ∧ PrimFloat.ltb (emp_salary e) 0 = false
            ∧ PrimFloat.ltb (emp_hours_worked e) 0 = false).
Proof.
  intros H.
  destruct (H sample_world [] [] (-1)%float (-1)%float None [])
    as (e & He & Hn & _).
  vm_compute in He. injection He as <-. discriminate.
Qed.

(** The hours need not be a float.  [Employee('a', 'b', 0, 2**53 + 1)] keeps
    the integer, and [add_hours(0.5)] passes the test [0.5 < 0] and assigns
    [(2**53 + 1) + 0.5]: the integer is rounded to the float [2^53] and the
    sum is rounded to [2^53] again, which is below the hours before. *)
Example hours_of_an_integer_can_decrease :
  let before := 2 ^ 53 + 1 in
  let after_add := int_add_float before 0.5 in
  PrimFloat.ltb 0.5 0 = false
  ∧ after_add = float_of_int (2 ^ 53)
  ∧ Prim2SF after_add = S754_finite false (2 ^ 52) 1
  ∧ float_lt_int after_add before = true.
Proof. vm_compute. repeat split. Qed.

(** ** Projects: adding and removing tasks *)

Lemma world_eta (w : World) : mkWorld (heap w) (db w) (log w) = w.
Proof. by destruct w. Qed.

Lemma project_add_task_run (w : World) (self x : loc) (p : project)
    (xs : list loc) :
  heap w !! self = Some (OProject p) →
  heap w !! proj_tasks p = Some (OList xs) →
  Project.add_task self x w
  = (Ok tt, mkWorld (<[proj_tasks p := OList (xs ++ [x])]> (heap w))
                    (db w) (log w)).
Proof.
  intros Hp Hl. unfold Project.add_task, PyList.append.
  run_with Hp. run_with Hl. done.
Qed.

Lemma remove_first_absent (x : loc) (xs : list loc) :
  x ∉ xs → PyList.remove_first x xs = xs.
Proof.
  induction xs as [|y xs IH]; [done|]. intros Hx.
  apply not_elem_of_cons in Hx as [Hy Hx]. simpl.
  rewrite decide_False by done. by rewrite IH.
Qed.

Lemma remove_first_middle (x : loc) (ys zs : list loc) :
  x ∉ ys → PyList.remove_first x (ys ++ x :: zs) = ys ++ zs.
Proof.
  induction ys as [|y ys IH]; intros Hx; simpl.
  - by rewrite decide_True.
  - apply not_elem_of_cons in Hx as [Hy Hx].
    rewrite decide_False by done. by rewrite IH.
Qed.

Lemma project_remove_task_run (w : World) (self x : loc) (p : project)
    (xs : list loc) :
  heap w !! self = Some (OProject p) →
  heap w !! proj_tasks p = Some (OList xs) →
  Project.remove_task self x w
  = (Ok tt, mkWorld (<[proj_tasks p := OList (PyList.remove_first x xs)]>
                       (heap w)) (db w) (log w)).
Proof.
  intros Hp Hl. unfold Project.remove_task, PyList.contains, PyList.remove.
  run_with Hp. run_with Hl. case_bool_decide as Hx; simpl.
  - run_with Hl. by rewrite bool_decide_eq_true_2.
  - rewrite remove_first_absent, insert_id, world_eta by done. done.
Qed.

(** A project and the list of its tasks are two objects. *)
Lemma project_is_not_its_list (h : gmap loc object) (self : loc) (p : project)
    (xs : list loc) :
  h !! self = Some (OProject p) → h !! proj_tasks p = Some (OList xs) →
  self ≠ proj_tasks p.
Proof. intros Hp Hl ->. congruence. Qed.

Lemma project_tasks_after_change (h : gmap loc object) (self : loc)
    (p : project) (xs ys : list loc) :
  h !! self = Some (OProject p) → h !! proj_tasks p = Some (OList xs) →
  project_tasks (<[proj_tasks p := OList ys]> h) self = Some ys.
Proof.
  intros Hp Hl. unfold project_tasks.
  rewrite lookup_insert_ne, Hp by (symmetry; eapply project_is_not_its_list; eauto).
  by rewrite lookup_insert_eq.
Qed.

Lemma task_at_after_change (h : gmap loc object) (l x : loc)
    (xs ys : list loc) :
  h !! l = Some (OList xs) →
  task_at (<[l := OList ys]> h) x = task_at h x.
Proof.
  intros Hl. unfold task_at. destruct (decide (x = l)) as [->|Hne].
  - by rewrite lookup_insert_eq, Hl.
  - by rewrite lookup_insert_ne.
Qed.

Lemma completed_among_app (h : gmap loc object) (xs ys : list loc) :
  completed_among h (xs ++ ys) = completed_among h xs + completed_among h ys.
Proof.
  unfold completed_among, count_of.
  rewrite List.filter_app, length_app. lia.
Qed.

(** X1: [add_task] puts the task at the end of the project's list, whatever
    the task is and whether or not the list has it already; no other object
    changes, and the store is not touched.  Over a list of tasks, the count
    of completed tasks grows by one exactly when the added task is
    completed. *)
Theorem add_task_appends (w : World) (self x : loc) (p : project)
    (xs : list loc) :
  heap w !! self = Some (OProject p) →
  heap w !! proj_tasks p = Some (OList xs) →
  let w' := after (Project.add_task self x) w in
  result (Project.add_task self x) w = Ok tt
  ∧ project_tasks (heap w') self = Some (xs ++ [x])
  ∧ (∀ y, y ≠ proj_tasks p → heap w' !! y = heap w !! y)
  ∧ db w' = db w ∧ log w' = log w
  ∧ (Forall (λ y, is_Some (task_at (heap w) y)) (xs ++ [x]) →
     result (Project.get_completed_tasks_count self) w'
     = Ok (completed_among (heap w) xs
           + (if completed_at (heap w) x then 1 else 0))).
Proof.
  intros Hp Hl w'. unfold w', result, after.
  rewrite (project_add_task_run _ _ _ _ _ Hp Hl). simpl.
  split; [done|]. split; [by eapply project_tasks_after_change|].
  split; [by intros y Hy; rewrite lookup_insert_ne|].
  split; [done|]. split; [done|]. intros Hts.
  erewrite get_completed_tasks_count_run; simpl.
  2: { rewrite lookup_insert_ne; [exact Hp|].
       symmetry. eapply project_is_not_its_list; eauto. }
  2: { by rewrite lookup_insert_eq. }
  simpl. erewrite count_completed_ext.
  2: { intros y. by eapply task_at_after_change. }
  rewrite count_completed_tasks by done. f_equal.
  rewrite completed_among_app. unfold completed_among at 2.
  rewrite count_of_cons. unfold count_of. simpl. lia.
Qed.

Lemma add_task_appends_witness :
  project_tasks (heap (after (Project.add_task 5%positive 3%positive)
                             sample_world)) 5%positive
  = Some ([3%positive; 4%positive] ++ [3%positive]).
Proof.
  destruct (add_task_appends sample_world 5%positive 3%positive
              sample_project [3%positive; 4%positive] eq_refl eq_refl)
    as (_ & H & _).
  exact H.
Defined.

(** X2: [remove_task] never raises.  A task that the project does not hold
    is ignored: the world stays as it is.  Otherwise the first occurrence of
    the task leaves the list and nothing else changes. *)
Theorem remove_task_drops_first_occurrence (w : World) (self x : loc)
    (p : project) (xs : list loc) :
  heap w !! self = Some (OProject p) →
  heap w !! proj_tasks p = Some (OList xs) →
  let w' := after (Project.remove_task self x) w in
  result (Project.remove_task self x) w = Ok tt
  ∧ (x ∉ xs → w' = w)
  ∧ (∀ ys zs, xs = ys ++ x :: zs → x ∉ ys →
     project_tasks (heap w') self = Some (ys ++ zs))
  ∧ (∀ y, y ≠ proj_tasks p → heap w' !! y = heap w !! y)
  ∧ db w' = db w ∧ log w' = log w.
Proof.
  intros Hp Hl w'. unfold w', result, after.
  rewrite (project_remove_task_run _ _ _ _ _ Hp Hl). simpl.
  split; [done|]. split.
  { intros Hx. by rewrite remove_first_absent, insert_id, world_eta. }
  split.
  { intros ys zs -> Hx. rewrite remove_first_middle by done.
    by eapply project_tasks_after_change. }
  split; [by intros y Hy; rewrite lookup_insert_ne|]. done.
Qed.

Lemma remove_task_drops_first_occurrence_witness :
  project_tasks (heap (after (Project.remove_task 5%positive 4%positive)
                             sample_world)) 5%positive
  = Some ([3%positive] ++ []).
Proof.
  destruct (remove_task_drops_first_occurrence sample_world 5%positive
              4%positive sample_project [3%positive; 4%positive]
              eq_refl eq_refl) as (_ & _ & H & _).
  apply (H [3%positive] []); [reflexivity|].
  intros Hin. apply list_elem_of_singleton in Hin. discriminate Hin.
Defined.

(** X3: adding a task that the project does not hold and removing it again
    restores the world.  When the project holds the task already, the pair
    of calls moves its first occurrence to the end of the list. *)
Theorem add_then_remove_task (w : World) (self x : loc) (p : project)
    (xs : list loc) :
  heap w !! self = Some (OProject p) →
  heap w !! proj_tasks p = Some (OList xs) →
  let m := Project.add_task self x ;; Project.remove_task self x in
  result m w = Ok tt
  ∧ (x ∉ xs → after m w = w)
  ∧ (∀ ys zs, xs = ys ++ x :: zs → x ∉ ys →
     project_tasks (heap (after m w)) self = Some (ys ++ zs ++ [x])).
Proof.
  intros Hp Hl m. unfold m, result, after, mbind, M_bind.
  rewrite (project_add_task_run _ _ _ _ _ Hp Hl).
  assert (Hne : self ≠ proj_tasks p)
    by (eapply project_is_not_its_list; eauto).
  erewrite project_remove_task_run; simpl.
  2: { rewrite lookup_insert_ne by done. exact Hp. }
  2: { by rewrite lookup_insert_eq. }
  rewrite insert_insert_eq. split; [done|]. split.
  - intros Hx. replace (xs ++ [x]) with (xs ++ x :: []) by done.
    rewrite remove_first_middle, app_nil_r, insert_id, world_eta by done.
    done.
  - intros ys zs -> Hx. rewrite <- app_assoc. simpl.
    rewrite remove_first_middle by done.
    by eapply project_tasks_after_change.
Qed.

Lemma add_then_remove_task_witness :
  after (Project.add_task 5%positive 1%positive ;;
         Project.remove_task 5%positive 1%positive) sample_world
  = sample_world.
Proof.
  destruct (add_then_remove_task sample_world 5%positive 1%positive
              sample_project [3%positive; 4%positive] eq_refl eq_refl)
    as (_ & H & _).
  apply H. intros Hin.
  apply elem_of_cons in Hin as [Hin|Hin]; [discriminate Hin|].
  apply list_elem_of_singleton in Hin. discriminate Hin.
Defined.

(** ** Projects: the list handed to [set_tasks] *)

Lemma set_tasks_run (w : World) (self l : loc) (p : project) :
  heap w !! self = Some (OProject p) →
  Project.set_tasks self l w
  = (Ok tt, mkWorld (<[self := OProject (mkProject (proj_id p) (proj_title p)
                                                    l)]> (heap w))
                    (db w) (log w)).
Proof. intros Hp. unfold Project.set_tasks, store. run_with Hp. done. Qed.

(** X4: [set_tasks] keeps the caller's list object itself, not a copy of it:
    from then on a change that the caller makes to its list is a change of
    the project's tasks, and a task added through the project appears in
    the caller's list. *)
Theorem set_tasks_shares_the_list (w : World) (self l x : loc) (p : project)
    (xs : list loc) (f : list loc → list loc) :
  heap w !! self = Some (OProject p) →
  heap w !! l = Some (OList xs) →
  let w1 := after (Project.set_tasks self l) w in
  result (Project.set_tasks self l) w = Ok tt
  ∧ project_tasks (heap w1) self = Some xs
  ∧ project_tasks (heap (after (PyList.mutate l f) w1)) self = Some (f xs)
  ∧ project_tasks (heap (after (PyList.append l x) w1)) self
    = Some (xs ++ [x])
  ∧ heap (after (Project.add_task self x) w1) !! l = Some (OList (xs ++ [x])).
Proof.
  intros Hp Hl w1. unfold w1, result, after.
  rewrite (set_tasks_run _ _ _ _ Hp). simpl.
  assert (Hne : self ≠ l) by (intros ->; congruence).
  set (p' := mkProject (proj_id p) (proj_title p) l).
  set (h1 := <[self := OProject p']> (heap w)).
  assert (Hp1 : h1 !! self = Some (OProject p')) by apply lookup_insert_eq.
  assert (Hl1 : h1 !! proj_tasks p' = Some (OList xs)).
  { unfold h1. simpl. by rewrite lookup_insert_ne. }
  split; [done|]. split.
  { unfold project_tasks. by rewrite Hp1, Hl1. }
  split.
  { unfold PyList.mutate, store.
    run_with Hl1. by eapply (project_tasks_after_change h1 self p'). }
  split.
  { unfold PyList.append, store.
    run_with Hl1. by eapply (project_tasks_after_change h1 self p'). }
  erewrite project_add_task_run by (simpl; eauto). simpl.
  by rewrite lookup_insert_eq.
Qed.

Lemma set_tasks_shares_the_list_witness :
  project_tasks
    (heap (after (PyList.append 2%positive 1%positive)
                 (after (Project.set_tasks 5%positive 2%positive)
                        sample_world))) 5%positive
  = Some ([3%positive; 4%positive] ++ [1%positive]).
Proof.
  destruct (set_tasks_shares_the_list sample_world 5%positive 2%positive
              1%positive sample_project [3%positive; 4%positive] id
              eq_refl eq_refl) as (_ & _ & _ & H & _).
  exact H.
Defined.

(** ** Projects: a new project *)

Lemma project_init_run (w : World) (title : str) (id : option Z) :
  let l := fresh (dom (heap w)) in
  let self := fresh (dom (<[l := OList []]> (heap w))) in
  Project.__init__ title id w
  = (Ok self,
     mkWorld (<[self := OProject (mkProject id title l)]>
                (<[l := OList []]> (heap w))) (db w) (log w)).
Proof. reflexivity. Qed.

(** X5: the constructor of [Project] checks nothing and makes two new
    objects, the project and an empty list of its own: the new project has
    the identifier and the title it was given (a blank title too), no
    tasks, progress [0.0] and no completed task, and the objects that were
    there before are as they were. *)
Theorem new_project_is_empty (w : World) (title : str) (id : option Z) :
  ∃ self p,
    result (Project.__init__ title id) w = Ok self
    ∧ let w' := after (Project.__init__ title id) w in
      heap w !! self = None
      ∧ heap w' !! self = Some (OProject p)
      ∧ proj_id p = id ∧ proj_title p = title
      ∧ heap w !! proj_tasks p = None
      ∧ project_tasks (heap w') self = Some []
      ∧ heap w ⊆ heap w'
      ∧ db w' = db w ∧ log w' = log w
      ∧ result (Project.project_progress self) w' = Ok 0%float
      ∧ result (Project.get_completed_tasks_count self) w' = Ok 0.
Proof.
  pose proof (project_init_run w title id) as Hrun. simpl in Hrun.
  set (l := fresh (dom (heap w))) in *.
  set (h1 := <[l := OList []]> (heap w)) in *.
  set (self := fresh (dom h1)) in *.
  exists self, (mkProject id title l).
  unfold result, after. rewrite Hrun. simpl.
  assert (Hl : heap w !! l = None) by apply fresh_loc_unused.
  assert (Hs1 : h1 !! self = None) by apply fresh_loc_unused.
  assert (Hs : heap w !! self = None).
  { eapply lookup_weaken_None; [exact Hs1|]. by apply insert_subseteq. }
  assert (Hne : self ≠ l).
  { intros Heq. rewrite Heq in Hs1. unfold h1 in Hs1.
    by rewrite lookup_insert_eq in Hs1. }
  set (h2 := <[self := OProject (mkProject id title l)]> h1).
  assert (Hp2 : h2 !! self = Some (OProject (mkProject id title l)))
    by apply lookup_insert_eq.
  assert (Hl2 : h2 !! l = Some (OList [])).
  { unfold h2, h1. rewrite lookup_insert_ne by done. apply lookup_insert_eq. }
  split; [done|]. split; [done|]. split; [done|]. split; [done|].
  split; [done|]. split; [done|]. split.
  { unfold project_tasks. rewrite Hp2. simpl. by rewrite Hl2. }
  split.
  { etrans; [apply insert_subseteq, Hl|]. by apply insert_subseteq. }
  split; [done|]. split; [done|]. split.
  - erewrite project_progress_run by (simpl; eauto). done.
  - erewrite get_completed_tasks_count_run by (simpl; eauto). done.
Qed.

(** ** Projects: all tasks completed *)

Lemma mark_complete_run (w : World) (x : loc) (t : task) :
  heap w !! x = Some (OTask t) →
  Task.mark_complete x w
  = (Ok tt,
     mkWorld (<[x := OTask (mkTask (task_id t) (task_title t)
                              (task_description t) Task.COMPLETED
                              (task_assigned_employee t)
                              (task_project_id t))]> (heap w))
             (db w) (log w)).
Proof. intros Ht. unfold Task.mark_complete, store. run_with Ht. done. Qed.

Lemma task_at_Some (h : gmap loc object) (x : loc) (t : task) :
  task_at h x = Some t ↔ h !! x = Some (OTask t).
Proof.
  unfold task_at. destruct (h !! x) as [[e0|t0|p0|l0]|]; naive_solver.
Qed.

(** The loop over tasks completes each of them and touches nothing else. *)
Lemma mark_all_complete_run (xs : list loc) (w : World) :
  Forall (λ x, is_Some (task_at (heap w) x)) xs →
  ∃ h', mark_all_complete xs w = (Ok tt, mkWorld h' (db w) (log w))
        ∧ (∀ y, task_at (heap w) y = None → h' !! y = heap w !! y)
        ∧ (∀ y, is_Some (task_at (heap w) y) → is_Some (task_at h' y))
        ∧ (∀ y, completed_at (heap w) y = true → completed_at h' y = true)
        ∧ Forall (λ x, completed_at h' x = true) xs.
Proof.
  revert w. induction xs as [|x xs IH]; intros w Hxs.
  - exists (heap w). rewrite world_eta. by repeat split.
  - apply Forall_cons in Hxs as [[t Ht] Hxs].
    apply task_at_Some in Ht.
    unfold mark_all_complete. rewrite foldM_cons.
    rewrite (mark_complete_run _ _ _ Ht).
    set (t' := mkTask _ _ _ _ _ _).
    set (w1 := mkWorld (<[x := OTask t']> (heap w)) (db w) (log w)).
    assert (Hat : ∀ y, task_at (heap w1) y
                       = if decide (y = x) then Some t' else task_at (heap w) y).
    { intros y. unfold task_at. simpl. destruct (decide (y = x)) as [->|Hne].
      - by rewrite lookup_insert_eq.
      - by rewrite lookup_insert_ne. }
    destruct (IH w1) as (h' & Hrun & Hother & Htask & Hkeep & Hall).
    { eapply Forall_impl; [exact Hxs|]. intros y Hy. simpl in Hy.
      rewrite Hat. by destruct (decide (y = x)). }
    exists h'. fold (mark_all_complete xs). rewrite Hrun. simpl.
    split; [done|]. split.
    { intros y Hy. rewrite Hother.
      - simpl. rewrite lookup_insert_ne; [done|].
        intros <-. apply task_at_Some in Ht. congruence.
      - rewrite Hat. destruct (decide (y = x)) as [->|]; [|done].
        apply task_at_Some in Ht. congruence. }
    split.
    { intros y Hy. apply Htask. rewrite Hat. by destruct (decide (y = x)). }
    assert (Hx : completed_at (heap w1) x = true).
    { unfold completed_at. rewrite Hat, decide_True by done.
      by apply bool_decide_eq_true_2. }
    split.
    { intros y Hy. apply Hkeep. destruct (decide (y = x)) as [->|Hne];
        [done|]. unfold completed_at in *. rewrite Hat.
      by rewrite decide_False. }
    constructor; [by apply Hkeep | done].
Qed.

Lemma completed_among_all (h : gmap loc object) (xs : list loc) :
  Forall (λ x, completed_at h x = true) xs →
  completed_among h xs = Z.of_nat (length xs).
Proof.
  intros Hxs. unfold completed_among. induction Hxs as [|x xs Hx _ IH].
  - done.
  - rewrite count_of_cons, Hx, IH. simpl length. lia.
Qed.

(** X6: once every task of a project that has tasks was marked complete,
    [project_progress] returns exactly [100.0] and
    [get_completed_tasks_count] the number of tasks; marking the tasks
    raises nothing and leaves the store alone. *)
Theorem all_tasks_complete_is_100 (w : World) (self : loc) (p : project)
    (xs : list loc) :
  heap w !! self = Some (OProject p) →
  heap w !! proj_tasks p = Some (OList xs) →
  Forall (λ x, is_Some (task_at (heap w) x)) xs →
  xs ≠ [] →
  let w' := after (mark_all_complete xs) w in
  result (mark_all_complete xs) w = Ok tt
  ∧ db w' = db w ∧ log w' = log w
  ∧ result (Project.project_progress self) w' = Ok 100%float
  ∧ result (Project.get_completed_tasks_count self) w'
    = Ok (Z.of_nat (length xs)).
Proof.
  intros Hp Hl Hxs Hne w'.
  destruct (mark_all_complete_run xs w Hxs)
    as (h' & Hrun & Hother & Htask & _ & Hall).
  unfold w', result, after. rewrite Hrun. simpl.
  assert (Hp' : h' !! self = Some (OProject p)).
  { rewrite Hother; [done|]. unfold task_at. by rewrite Hp. }
  assert (Hl' : h' !! proj_tasks p = Some (OList xs)).
  { rewrite Hother; [done|]. unfold task_at. by rewrite Hl. }
  assert (Hxs' : Forall (λ x, is_Some (task_at h' x)) xs).
  { eapply Forall_impl; [exact Hxs|]. intros y Hy. by apply Htask. }
  assert (Hn : 0 < Z.of_nat (length xs)) by (destruct xs; [done|simpl; lia]).
  split; [done|]. split; [done|]. split; [done|]. split.
  - erewrite project_progress_run by (simpl; eauto). simpl.
    rewrite bool_decide_eq_false_2 by lia.
    rewrite count_completed_tasks by done.
    rewrite completed_among_all by done. simpl.
    rewrite int_truediv_self by done. reflexivity.
  - erewrite get_completed_tasks_count_run by (simpl; eauto). simpl.
    rewrite count_completed_tasks by done.
    by rewrite completed_among_all.
Qed.

Lemma all_tasks_complete_is_100_witness :
  result (Project.project_progress 5%positive)
         (after (mark_all_complete [3%positive; 4%positive]) sample_world)
  = Ok 100%float.
Proof.
  destruct (all_tasks_complete_is_100 sample_world 5%positive sample_project
              [3%positive; 4%positive] eq_refl eq_refl
              sample_tasks_are_tasks ltac:(discriminate))
    as (_ & _ & _ & H & _).
  exact H.
Defined.

(** ** Binary64: signs of quotients and products *)

Lemma SFltb_zero_nonneg (x : spec_float) :
  SFltb x (S754_zero false) = false ↔ SF_nonneg x.
Proof. destruct x as [s|s| |s m e]; try destruct s; simpl; naive_solver. Qed.

(** Rounding keeps the sign it is given. *)
Lemma binary_round_aux_nonneg (m e : Z) (l : location) :
  SF_nonneg (binary_round_aux prec emax false m e l).
Proof.
  unfold binary_round_aux.
  destruct (shr_fexp prec emax m e l) as [mrs' e'].
  destruct (shr_fexp prec emax _ e' loc_Exact) as [mrs'' e''].
  destruct (shr_m mrs'') as [|p|p]; simpl; [done| |done].
  by destruct (e'' <=? emax - prec).
Qed.

Lemma SFdiv_nonneg (x : spec_float) (my : positive) (ey : Z) :
  SF_nonneg x → SF_nonneg (SFdiv prec emax x (S754_finite false my ey)).
Proof.
  destruct x as [sx|sx| |sx mx ex]; simpl; intros Hx; subst; try done.
  destruct (SFdiv_core_binary prec emax (Z.pos mx) ex (Z.pos my) ey)
    as [[mz ez] lz].
  apply binary_round_aux_nonneg.
Qed.

Lemma SFmul_nonneg (x y : spec_float) :
  SF_nonneg x → SF_nonneg y → SF_nonneg (SFmul prec emax x y).
Proof.
  destruct x as [sx|sx| |sx mx ex], y as [sy|sy| |sy my ey]; simpl;
    intros Hx Hy; subst; try done.
  apply binary_round_aux_nonneg.
Qed.

Lemma ltb_zero_nonneg (x : float) :
  PrimFloat.ltb x 0 = false ↔ SF_nonneg (Prim2SF x).
Proof.
  rewrite ltb_spec. change (Prim2SF 0) with (S754_zero false).
  apply SFltb_zero_nonneg.
Qed.

(** ** Pay is not negative *)

(** X7: for an employee whose salary and hours are not negative,
    [calculate_pay] returns a value that is not negative; it raises
    nothing and changes nothing. *)
Theorem calculate_pay_is_not_negative (w : World) (self : loc) (e : employee) :
  heap w !! self = Some (OEmployee e) →
  salary_ok e → hours_ok e →
  ∃ pay, Employee.calculate_pay self w = (Ok pay, w)
         ∧ PrimFloat.ltb pay 0 = false.
Proof.
  intros He Hs Hh. rewrite (calculate_pay_run _ _ _ He).
  eexists. split; [done|].
  apply ltb_zero_nonneg. rewrite mul_spec, div_spec.
  apply SFmul_nonneg; [by apply ltb_zero_nonneg|].
  assert (Hd : ∃ m k, Prim2SF 176 = S754_finite false m k)
    by (vm_compute; eauto).
  destruct Hd as (m & k & ->). apply SFdiv_nonneg. by apply ltb_zero_nonneg.
Qed.

Lemma calculate_pay_is_not_negative_witness :
  ∃ pay, Employee.calculate_pay 1%positive stored_world
         = (Ok pay, stored_world)
         ∧ PrimFloat.ltb pay 0 = false.
Proof.
  apply (calculate_pay_is_not_negative stored_world 1%positive
           stored_employee); reflexivity.
Defined.



(** ** The queries: scanning a table *)

Section Scan.

Context {A : Type}.
Implicit Types t : table A.

#[local] Instance key_le_trans : Transitive (@key_le A).
Proof. intros a b c. unfold key_le. lia. Qed.

#[local] Instance key_le_total : Total (@key_le A).
Proof. intros a b. unfold key_le. lia. Qed.

Lemma elem_of_table_scan t (k : Z) (r : A) :
  (k, r) ∈ table_scan t ↔ rows t !! k = Some r.
Proof.
  unfold table_scan. rewrite merge_sort_Permutation.
  apply elem_of_map_to_list.
Qed.

Lemma table_scan_NoDup t : NoDup (table_scan t).*1.
Proof.
  unfold table_scan. rewrite merge_sort_Permutation.
  apply NoDup_fst_map_to_list.
Qed.

Lemma table_scan_sorted t : StronglySorted key_le (table_scan t).
Proof. apply StronglySorted_merge_sort; apply _. Qed.

Lemma table_scan_length t : length (table_scan t) = size (rows t).
Proof.
  unfold table_scan. rewrite merge_sort_Permutation.
  apply length_map_to_list.
Qed.

End Scan.

(** ** The queries: the loop that collects objects *)

Section Collect.

Context {A : Type} (make : A → M loc) (d : DB).

(** [P row h0 h x]: in the heap [h], [x] is what [make row] built when the
    heap was [h0]. *)
Context (P : A → gmap loc object → gmap loc object → loc → Prop).

Hypothesis make_spec : ∀ w row, db w = d →
  ∃ x h', make row w = (Ok x, mkWorld h' d (log w))
          ∧ heap w ⊆ h'
          ∧ heap w !! x = None ∧ is_Some (h' !! x)
          ∧ P row (heap w) h' x.

(** [P] reads only objects that are new since [h0]. *)
Hypothesis P_stable : ∀ row h0 h h' x,
  (∀ y o, h0 !! y = None → h !! y = Some o → h' !! y = Some o) →
  P row h0 h x → P row h0 h' x.

Hypothesis P_weaken : ∀ row h0 h0' h x,
  (∀ y, h0 !! y = None → h0' !! y = None) →
  P row h0 h x → P row h0' h x.

Lemma collect_loop (l : loc) (rows : list A) :
  ∀ (w : World) (xs0 : list loc),
    db w = d → heap w !! l = Some (OList xs0) →
    ∃ h' xs,
      foldM (λ (_ : unit) (row : A), x ← make row; PyList.append l x)
            tt rows w
      = (Ok tt, mkWorld h' d (log w))
      ∧ h' !! l = Some (OList (xs0 ++ xs))
      ∧ (∀ y o, y ≠ l → heap w !! y = Some o → h' !! y = Some o)
      ∧ Forall2 (λ x row, heap w !! x = None ∧ is_Some (h' !! x)
                          ∧ P row (heap w) h' x) xs rows
      ∧ NoDup xs.
Proof.
  induction rows as [|row rows IH]; intros w xs0 Hd Hl.
  - exists (heap w), []. simpl. rewrite app_nil_r. unfold mret, M_ret.
    rewrite <- Hd, world_eta. split; [done|]. split; [done|].
    split; [done|]. split; constructor.
  - destruct (make_spec w row Hd) as (x & h1 & Hmake & Hsub & Hx & Hx1 & HP).
    rewrite foldM_cons. unfold mbind at 1, M_bind at 1. rewrite Hmake.
    assert (Hl1 : h1 !! l = Some (OList xs0)) by by eapply lookup_weaken.
    unfold PyList.append at 1, store.
    unfold mbind at 1, M_bind at 1.
    erewrite load_list_Ok by exact Hl1. simpl.
    set (w2 := mkWorld (<[l := OList (xs0 ++ [x])]> h1) d (log w)).
    assert (Hxl : x ≠ l) by (intros ->; congruence).
    destruct (IH w2 (xs0 ++ [x]) eq_refl) as (h' & xs & Hrun & Hl' & Hkeep & Hxs & Hnd).
    { apply lookup_insert_eq. }
    exists h', (x :: xs). split; [exact Hrun|].
    split; [by rewrite <- app_assoc in Hl'|].
    assert (Hkeep1 : ∀ y o, y ≠ l → h1 !! y = Some o → h' !! y = Some o).
    { intros y o Hy Ho. apply Hkeep; [done|]. simpl.
      by rewrite lookup_insert_ne. }
    split.
    { intros y o Hy Ho. apply Hkeep1; [done|]. by eapply lookup_weaken. }
    assert (Hnew : ∀ y, heap w2 !! y = None → heap w !! y = None).
    { intros y Hy. simpl in Hy. apply lookup_insert_None in Hy as [Hy _].
      by eapply lookup_weaken_None. }
    split.
    { constructor.
      - split; [done|]. split.
        + destruct Hx1 as [o Ho]. exists o. by apply Hkeep1.
        + eapply P_stable; [|exact HP]. intros y o Hy Ho.
          apply Hkeep1; [|done]. intros ->. congruence.
      - eapply Forall2_impl; [exact Hxs|]. intros y r (Hy & Hy' & HPy).
        split; [by apply Hnew|]. split; [done|].
        eapply P_weaken; [exact Hnew | exact HPy]. }
    constructor; [|done]. intros Hin.
    apply list_elem_of_lookup_1 in Hin as [i Hi].
    destruct (Forall2_lookup_l _ _ _ _ _ Hxs Hi) as (r & _ & Hy & _).
    simpl in Hy. rewrite lookup_insert_ne in Hy by done.
    destruct Hx1 as [o Ho]. congruence.
Qed.

Lemma collect_run (rows : list A) (w : World) :
  db w = d →
  ∃ l xs h',
    collect make rows w = (Ok l, mkWorld h' d (log w))
    ∧ heap w ⊆ h'
    ∧ heap w !! l = None
    ∧ h' !! l = Some (OList xs)
    ∧ NoDup xs
    ∧ Forall2 (λ x row, heap w !! x = None ∧ P row (heap w) h' x) xs rows.
Proof.
  intros Hd. unfold collect. unfold mbind at 1, M_bind at 1.
  rewrite alloc_Ok. set (l := fresh (dom (heap w))).
  set (w1 := mkWorld (<[l := OList []]> (heap w)) (db w) (log w)).
  assert (Hl : heap w !! l = None) by apply fresh_loc_unused.
  destruct (collect_loop l rows w1 []) as (h' & xs & Hrun & Hl' & Hkeep & Hxs & Hnd).
  { done. }
  { apply lookup_insert_eq. }
  exists l, xs, h'. erewrite bind_Ok by exact Hrun. unfold mret, M_ret. simpl.
  split; [done|]. split.
  { apply map_subseteq_spec. intros y o Ho. apply Hkeep.
    - intros ->. congruence.
    - simpl. rewrite lookup_insert_ne; [done|]. intros <-. congruence. }
  split; [done|]. split; [done|]. split; [done|].
  assert (Hnew : ∀ y, heap w1 !! y = None → heap w !! y = None).
  { intros y Hy. simpl in Hy. by apply lookup_insert_None in Hy as [Hy _]. }
  eapply Forall2_impl; [exact Hxs|]. intros y r (Hy & _ & HPy).
  split; [by apply Hnew|]. eapply P_weaken; [exact Hnew | exact HPy].
Qed.

End Collect.

(** ** The queries: employees *)

Lemma employee_of_row_run (w : World) (row : Z * employee_row) :
  Query.employee_of_row row w
  = (Ok (fresh (dom (heap w))),
     mkWorld (<[fresh (dom (heap w)) := OEmployee (employee_read row.1 row.2)]>
                (heap w)) (db w) (log w)).
Proof. reflexivity. Qed.

Lemma get_employee_by_id_run (w : World) (i : Z) :
  Query.get_employee_by_id i w
  = match rows (employees (db w)) !! i with
    | Some r =>
        (Ok (Some (fresh (dom (heap w)))),
         mkWorld (<[fresh (dom (heap w)) := OEmployee (employee_read i r)]>
                    (heap w)) (db w) (log w))
    | None => (Ok None, w)
    end.
Proof.
  unfold Query.get_employee_by_id, get_db, fetchone, mbind, M_bind. simpl.
  by destruct (rows (employees (db w)) !! i).
Qed.

Lemma employee_loaded_stable (row : Z * employee_row)
    (h0 h h' : gmap loc object) (x : loc) :
  (∀ y o, h0 !! y = None → h !! y = Some o → h' !! y = Some o) →
  employee_loaded row h0 h x → employee_loaded row h0 h' x.
Proof. intros Hk [H0 Hx]. split; [done|]. by apply Hk. Qed.

Lemma employee_loaded_weaken (row : Z * employee_row)
    (h0 h0' h : gmap loc object) (x : loc) :
  (∀ y, h0 !! y = None → h0' !! y = None) →
  employee_loaded row h0 h x → employee_loaded row h0' h x.
Proof. intros Hk [H0 Hx]. split; [by apply Hk | done]. Qed.

Lemma employee_of_row_spec (d : DB) (w : World) (row : Z * employee_row) :
  db w = d →
  ∃ x h', Query.employee_of_row row w = (Ok x, mkWorld h' d (log w))
          ∧ heap w ⊆ h'
          ∧ heap w !! x = None ∧ is_Some (h' !! x)
          ∧ employee_loaded row (heap w) h' x.
Proof.
  intros <-. eexists _, _. rewrite employee_of_row_run.
  split; [done|].
  assert (Hx : heap w !! fresh (dom (heap w)) = None)
    by apply fresh_loc_unused.
  split; [by apply insert_subseteq|]. split; [done|].
  split; [by rewrite lookup_insert_eq|].
  split; [done|]. by rewrite lookup_insert_eq.
Qed.

(** ** The queries: tasks *)

Lemma task_of_row_run (w : World) (row : Z * task_row) :
  Query.task_of_row row w
  = match task_employee (db w) row.2 with
    | Some er =>
        let a := fresh (dom (heap w)) in
        let h1 := <[a := OEmployee (employee_read er.1 er.2)]> (heap w) in
        (Ok (fresh (dom h1)),
         mkWorld (<[fresh (dom h1) :=
                      OTask (mkTask (Some row.1) (tr_title row.2)
                               (tr_description row.2) (tr_status row.2)
                               (Some a) (tr_project_id row.2))]> h1)
                 (db w) (log w))
    | None =>
        (Ok (fresh (dom (heap w))),
         mkWorld (<[fresh (dom (heap w)) :=
                      OTask (mkTask (Some row.1) (tr_title row.2)
                               (tr_description row.2) (tr_status row.2)
                               None (tr_project_id row.2))]> (heap w))
                 (db w) (log w))
    end.
Proof.
  unfold Query.task_of_row, task_employee.
  destruct (tr_employee_id row.2) as [i|]; [|done].
  case_bool_decide; [done|].
  unfold mbind at 1, M_bind at 1. rewrite get_employee_by_id_run.
  unfold fetchone. by destruct (rows (employees (db w)) !! i).
Qed.

Lemma task_loaded_stable (d : DB) (row : Z * task_row)
    (h0 h h' : gmap loc object) (x : loc) :
  (∀ y o, h0 !! y = None → h !! y = Some o → h' !! y = Some o) →
  task_loaded d row h0 h x → task_loaded d row h0 h' x.
Proof.
  intros Hk (H0 & t & Hx & Hid & Hti & Hde & Hst & Hpr & Hemp).
  split; [done|]. exists t. split; [by apply Hk|].
  repeat (split; [done|]).
  destruct (task_assigned_employee t) as [a|], (task_employee d row.2);
    try done.
  destruct Hemp as [Ha0 Ha]. split; [done|]. by apply Hk.
Qed.

Lemma task_loaded_weaken (d : DB) (row : Z * task_row)
    (h0 h0' h : gmap loc object) (x : loc) :
  (∀ y, h0 !! y = None → h0' !! y = None) →
  task_loaded d row h0 h x → task_loaded d row h0' h x.
Proof.
  intros Hk (H0 & t & Hx & Hid & Hti & Hde & Hst & Hpr & Hemp).
  split; [by apply Hk|]. exists t. repeat (split; [done|]).
  destruct (task_assigned_employee t) as [a|], (task_employee d row.2);
    try done.
  destruct Hemp as [Ha0 Ha]. split; [by apply Hk | done].
Qed.

Lemma task_of_row_spec (d : DB) (w : World) (row : Z * task_row) :
  db w = d →
  ∃ x h', Query.task_of_row row w = (Ok x, mkWorld h' d (log w))
          ∧ heap w ⊆ h'
          ∧ heap w !! x = None ∧ is_Some (h' !! x)
          ∧ task_loaded d row (heap w) h' x.
Proof.
  intros <-. rewrite task_of_row_run. unfold task_loaded.
  destruct (task_employee (db w) row.2) as [er|] eqn:Her; simpl.
  - set (a := fresh (dom (heap w))).
    set (h1 := <[a := _]> (heap w)). set (x := fresh (dom h1)).
    assert (Ha : heap w !! a = None) by apply fresh_loc_unused.
    assert (Hx1 : h1 !! x = None) by apply fresh_loc_unused.
    assert (Hx : heap w !! x = None).
    { eapply lookup_weaken_None; [exact Hx1|]. by apply insert_subseteq. }
    assert (Hne : a ≠ x).
    { intros Heq. unfold h1 in Hx1. rewrite <- Heq in Hx1.
      by rewrite lookup_insert_eq in Hx1. }
    eexists _, _. split; [done|]. split.
    { etrans; [apply insert_subseteq, Ha|]. by apply insert_subseteq. }
    split; [done|]. split; [by rewrite lookup_insert_eq|].
    split; [done|]. eexists. split; [by rewrite lookup_insert_eq|].
    simpl. repeat (split; [done|]). try rewrite Her.
    repeat (split; [done|]).
    rewrite lookup_insert_ne by done. apply lookup_insert_eq.
  - assert (Hx : heap w !! fresh (dom (heap w)) = None)
      by apply fresh_loc_unused.
    eexists _, _. split; [done|]. split; [by apply insert_subseteq|].
    split; [done|]. split; [by rewrite lookup_insert_eq|].
    split; [done|]. eexists. split; [by rewrite lookup_insert_eq|].
    simpl. repeat (split; [done|]). try rewrite Her. done.
Qed.

Lemma collect_tasks_run (w : World) (rows : list (Z * task_row)) :
  ∃ l xs h',
    collect Query.task_of_row rows w = (Ok l, mkWorld h' (db w) (log w))
    ∧ heap w ⊆ h'
    ∧ heap w !! l = None
    ∧ h' !! l = Some (OList xs)
    ∧ NoDup xs
    ∧ Forall2 (λ x row, task_loaded (db w) row (heap w) h' x) xs rows.
Proof.
  destruct (collect_run Query.task_of_row (db w) (task_loaded (db w))
              (λ w0 row, task_of_row_spec (db w) w0 row)
              (task_loaded_stable (db w)) (task_loaded_weaken (db w))
              rows w eq_refl)
    as (l & xs & h' & Hrun & Hsub & Hl & Hl' & Hnd & Hxs).
  exists l, xs, h'. repeat (split; [done|]).
  eapply Forall2_impl; [exact Hxs|]. by intros y r [_ Hy].
Qed.

Lemma elem_of_task_rows_of (d : DB) (pid : option Z) (k : Z) (r : task_row) :
  (k, r) ∈ task_rows_of d pid
  ↔ rows (tasks d) !! k = Some r ∧ sql_eq (tr_project_id r) pid = true.
Proof.
  unfold task_rows_of. rewrite list_elem_of_In, List.filter_In.
  rewrite <- list_elem_of_In, elem_of_table_scan. simpl. naive_solver.
Qed.

Lemma get_tasks_by_project_run (w : World) (pid : option Z) :
  Query.get_tasks_by_project pid w
  = collect Query.task_of_row (task_rows_of (db w) pid) w.
Proof. reflexivity. Qed.

(** ** The queries: projects *)

Lemma project_loaded_stable (d : DB) (row : Z * project_row)
    (h0 h h' : gmap loc object) (x : loc) :
  (∀ y o, h0 !! y = None → h !! y = Some o → h' !! y = Some o) →
  project_loaded d row h0 h x → project_loaded d row h0 h' x.
Proof.
  intros Hk (H0 & l & xs & Hx & Hl0 & Hl & Hnd & Hxs).
  split; [done|]. exists l, xs. split; [by apply Hk|]. split; [done|].
  split; [by apply Hk|]. split; [done|].
  eapply Forall2_impl; [exact Hxs|]. intros y r Hy.
  by eapply task_loaded_stable.
Qed.

Lemma project_loaded_weaken (d : DB) (row : Z * project_row)
    (h0 h0' h : gmap loc object) (x : loc) :
  (∀ y, h0 !! y = None → h0' !! y = None) →
  project_loaded d row h0 h x → project_loaded d row h0' h x.
Proof.
  intros Hk (H0 & l & xs & Hx & Hl0 & Hl & Hnd & Hxs).
  split; [by apply Hk|]. exists l, xs. split; [done|].
  split; [by apply Hk|]. split; [done|]. split; [done|].
  eapply Forall2_impl; [exact Hxs|]. intros y r Hy.
  by eapply task_loaded_weaken.
Qed.

Lemma project_of_row_spec (d : DB) (w : World) (row : Z * project_row) :
  db w = d →
  ∃ x h', Query.project_of_row row w = (Ok x, mkWorld h' d (log w))
          ∧ heap w ⊆ h'
          ∧ heap w !! x = None ∧ is_Some (h' !! x)
          ∧ project_loaded d row (heap w) h' x.
Proof.
  intros <-. unfold Query.project_of_row.
  unfold mbind at 1, M_bind at 1.
  pose proof (project_init_run w (pr_title row.2) (Some row.1)) as Hinit.
  simpl in Hinit. rewrite Hinit. clear Hinit.
  set (l0 := fresh (dom (heap w))).
  set (h1 := <[l0 := OList []]> (heap w)).
  set (x := fresh (dom h1)).
  set (p0 := mkProject (Some row.1) (pr_title row.2) l0).
  set (w2 := mkWorld (<[x := OProject p0]> h1) (db w) (log w)).
  assert (Hl0 : heap w !! l0 = None) by apply fresh_loc_unused.
  assert (Hx1 : h1 !! x = None) by apply fresh_loc_unused.
  assert (Hx : heap w !! x = None).
  { eapply lookup_weaken_None; [exact Hx1|]. by apply insert_subseteq. }
  assert (Hx2 : heap w2 !! x = Some (OProject p0)) by apply lookup_insert_eq.
  assert (Hsub2 : heap w ⊆ heap w2).
  { etrans; [apply insert_subseteq, Hl0|]. by apply insert_subseteq. }
  unfold Project.get_id. unfold mbind at 1, M_bind at 1.
  unfold mbind at 1, M_bind at 1.
  erewrite load_project_Ok by exact Hx2. unfold mret at 1, M_ret at 1.
  unfold mbind at 1, M_bind at 1. rewrite get_tasks_by_project_run.
  destruct (collect_tasks_run w2 (task_rows_of (db w2) (proj_id p0)))
    as (l & xs & h3 & Hrun & Hsub3 & Hl & Hl3 & Hnd & Hxs).
  rewrite Hrun. simpl db. simpl log.
  assert (Hx3 : h3 !! x = Some (OProject p0)) by by eapply lookup_weaken.
  erewrite bind_Ok
    by exact (set_tasks_run (mkWorld h3 (db w) (log w)) x l p0 Hx3).
  unfold mret, M_ret. simpl.
  assert (Hxl : x ≠ l) by (intros ->; congruence).
  assert (Hnew : ∀ y, heap w2 !! y = None → heap w !! y = None).
  { intros y Hy. by eapply lookup_weaken_None. }
  eexists _, _. split; [done|]. split.
  { apply map_subseteq_spec. intros y o Ho.
    rewrite lookup_insert_ne by (intros <-; congruence).
    eapply lookup_weaken; [|exact Hsub3].
    by eapply lookup_weaken. }
  split; [done|]. split; [by rewrite lookup_insert_eq|].
  split; [done|]. exists l, xs.
  split; [by rewrite lookup_insert_eq|].
  split; [by apply Hnew|].
  split; [by rewrite lookup_insert_ne|]. split; [done|].
  eapply Forall2_impl; [exact Hxs|]. intros y r Hy.
  eapply task_loaded_weaken; [exact Hnew|].
  eapply task_loaded_stable; [|exact Hy].
  intros z o Hz Ho. rewrite lookup_insert_ne; [done|].
  intros <-. congruence.
Qed.

Lemma get_project_by_id_run_absent (w : World) (i : Z) :
  rows (projects (db w)) !! i = None →
  Query.get_project_by_id i w = (Ok None, w).
Proof.
  intros Hi. unfold Query.get_project_by_id, get_db, fetchone, mbind, M_bind.
  simpl. by rewrite Hi.
Qed.

(** ** The queries: what is not there *)

Lemma task_rows_of_nil (d : DB) (pid : option Z) :
  (∀ k r, rows (tasks d) !! k = Some r → sql_eq (tr_project_id r) pid = false) →
  task_rows_of d pid = [].
Proof.
  intros Hno. destruct (task_rows_of d pid) as [|[k r] rs] eqn:Hrs; [done|].
  assert (Hin : (k, r) ∈ task_rows_of d pid) by (rewrite Hrs; left).
  apply elem_of_task_rows_of in Hin as [Hk Hp].
  rewrite (Hno k r Hk) in Hp. done.
Qed.

Lemma collect_nil {A} (make : A → M loc) (w : World) :
  collect make [] w
  = (Ok (fresh (dom (heap w))),
     mkWorld (<[fresh (dom (heap w)) := OList []]> (heap w)) (db w) (log w)).
Proof. reflexivity. Qed.

(** X8: a lookup by an identifier, an integer of 64 bits, that the table
    does not have returns [None]; it raises nothing and makes no object.
    This is what a lookup finds after [delete_employee] and
    [delete_project] of that identifier, and after [delete_project] the
    list of the tasks of the project is empty. *)
Theorem lookup_of_missing_row_is_none (w : World) (i : Z) :
  storable_int (Some i) →
  (rows (employees (db w)) !! i = None →
   Query.get_employee_by_id i w = (Ok None, w))
  ∧ (rows (projects (db w)) !! i = None →
     Query.get_project_by_id i w = (Ok None, w))
  ∧ (let w' := after (DatabaseManager.delete_employee i) w in
     Query.get_employee_by_id i w' = (Ok None, w'))
  ∧ (let w' := after (DatabaseManager.delete_project i) w in
     Query.get_project_by_id i w' = (Ok None, w')
     ∧ ∃ l, result (Query.get_tasks_by_project (Some i)) w' = Ok l
            ∧ heap w' !! l = None
            ∧ heap (after (Query.get_tasks_by_project (Some i)) w') !! l
              = Some (OList [])).
Proof.
  intros _. split.
  { intros Hi. rewrite get_employee_by_id_run. by rewrite Hi. }
  split; [apply get_project_by_id_run_absent|]. split.
  { unfold after. rewrite delete_employee_run, get_employee_by_id_run. simpl.
    by rewrite lookup_delete_eq. }
  unfold after. rewrite delete_project_run. simpl. split.
  { apply get_project_by_id_run_absent. simpl. apply lookup_delete_eq. }
  unfold result. rewrite get_tasks_by_project_run.
  rewrite task_rows_of_nil.
  - rewrite collect_nil. simpl. eexists. split; [done|].
    split; [apply fresh_loc_unused | apply lookup_insert_eq].
  - simpl. intros k r Hk. rewrite lookup_tasks_of_other_projects in Hk.
    destruct (rows (tasks (db w)) !! k) as [r'|]; [|done].
    case_decide as Hp; [done|]. injection Hk as ->.
    rewrite sql_eq_Some. by apply bool_decide_eq_false_2.
Qed.

Lemma lookup_of_missing_row_is_none_witness :
  let w' := after (DatabaseManager.delete_employee 1) tracker_world in
  Query.get_employee_by_id 1 w' = (Ok None, w').
Proof.
  destruct (lookup_of_missing_row_is_none tracker_world 1 key_1_storable)
    as (_ & _ & Hgone & _).
  exact Hgone.
Defined.

(** ** What a [REAL] column gives back *)

Lemma SFeqb_refl (x : spec_float) : SF_is_nan x = false → SFeqb x x = true.
Proof.
  destruct x as [s|s| |s m e]; unfold SFeqb, SFcompare; try done.
  - by destruct s.
  - intros _. rewrite Z.compare_refl.
    change (Pos.compare_cont Eq m m) with (m ?= m)%positive.
    rewrite Pos.compare_refl. by destruct s.
Qed.

Lemma eqb_zero (x : float) :
  PrimFloat.eqb x 0 = true → ∃ s, Prim2SF x = S754_zero s.
Proof.
  intros H. rewrite FloatAxioms.eqb_spec in H.
  change (Prim2SF 0) with (S754_zero false) in H.
  destruct (Prim2SF x) as [s|[|]| |[|] m e]; try done. by exists s.
Qed.

(** The float read is equal to the float written, in the sense of [==]. *)
Lemma real_column_eqb (x : float) :
  is_nan x = false → PrimFloat.eqb (real_column x) x = true.
Proof.
  intros Nx. unfold real_column. destruct (PrimFloat.eqb x 0) eqn:Hx.
  - apply eqb_zero in Hx as [s Hs]. rewrite FloatAxioms.eqb_spec, Hs. done.
  - rewrite FloatAxioms.eqb_spec. by apply SFeqb_refl.
Qed.

Lemma real_column_idem (x : float) :
  real_column (real_column x) = real_column x.
Proof.
  unfold real_column. destruct (PrimFloat.eqb x 0) eqn:Hx; [done|].
  by rewrite Hx.
Qed.

Lemma real_column_nonneg (x : float) :
  PrimFloat.ltb x 0 = false → PrimFloat.ltb (real_column x) 0 = false.
Proof. unfold real_column. by destruct (PrimFloat.eqb x 0). Qed.

(** ** The queries: an employee comes back *)

(** X9: for an employee object whose name and position have no lone
    surrogate and whose salary and hours are floats other than NaN, and a
    table of employees that can take one more row: the object that is added
    and then looked up by the identifier that [add_employee] returned comes
    back as a new object, with that identifier, the same name and position,
    and a salary and hours equal to those written (the same floats, except
    that a negative zero comes back as zero).  The object that was added is
    still without the identifier. *)
Theorem added_employee_is_found (w : World) (self : loc) (e : employee) :
  heap w !! self = Some (OEmployee e) →
  storable_text (emp_name e) → storable_text (emp_position e) →
  is_nan (emp_salary e) = false → is_nan (emp_hours_worked e) = false →
  has_room (employees (db w)) →
  ∃ i x e',
    result (DatabaseManager.add_employee self) w = Ok (Some i)
    ∧ let w1 := after (DatabaseManager.add_employee self) w in
      result (Query.get_employee_by_id i) w1 = Ok (Some x)
      ∧ let w2 := after (Query.get_employee_by_id i) w1 in
        x ≠ self ∧ heap w !! x = None
        ∧ heap w2 !! x = Some (OEmployee e')
        ∧ heap w2 !! self = Some (OEmployee e)
        ∧ db w2 = db w1 ∧ log w2 = log w1
        ∧ emp_id e' = Some i
        ∧ emp_name e' = emp_name e
        ∧ emp_position e' = emp_position e
        ∧ PrimFloat.eqb (emp_salary e') (emp_salary e) = true
        ∧ PrimFloat.eqb (emp_hours_worked e') (emp_hours_worked e) = true
        ∧ (kept_real (emp_salary e) → emp_salary e' = emp_salary e)
        ∧ (kept_real (emp_hours_worked e) →
           emp_hours_worked e' = emp_hours_worked e).
Proof.
  intros He _ _ Ns Nh _.
  set (r := mkEmployeeRow (emp_name e) (emp_position e) (emp_salary e)
                          (emp_hours_worked e)).
  exists (next_rowid (employees (db w))), (fresh (dom (heap w))),
    (employee_read (next_rowid (employees (db w))) r).
  unfold result, after. rewrite (add_employee_run _ _ _ He). simpl.
  split; [done|]. rewrite get_employee_by_id_run. simpl.
  rewrite lookup_insert_eq. simpl.
  assert (Hx : heap w !! fresh (dom (heap w)) = None)
    by apply fresh_loc_unused.
  split; [done|]. split; [intros Heq; congruence|]. split; [done|].
  split; [by rewrite lookup_insert_eq|].
  split; [rewrite lookup_insert_ne; [done|]; intros Heq; congruence|].
  repeat (split; [done|]).
  split; [by apply real_column_eqb|]. split; [by apply real_column_eqb|].
  done.
Qed.

Lemma added_employee_is_found_witness :
  ∃ i x e',
    result (DatabaseManager.add_employee 1%positive) sample_world
    = Ok (Some i)
    ∧ result (Query.get_employee_by_id i)
             (after (DatabaseManager.add_employee 1%positive) sample_world)
      = Ok (Some x)
    ∧ heap (after (Query.get_employee_by_id i)
              (after (DatabaseManager.add_employee 1%positive) sample_world))
      !! x = Some (OEmployee e')
    ∧ emp_name e' = emp_name sample_employee.
Proof.
  destruct (added_employee_is_found sample_world 1%positive sample_employee)
    as (i & x & e' & Hadd & Hget & _ & _ & Hx & _ & _ & _ & _ & Hname & _).
  - reflexivity.
  - unfold storable_text. repeat constructor.
  - unfold storable_text. repeat constructor.
  - reflexivity.
  - reflexivity.
  - reflexivity.
  - exists i, x, e'. auto.
Defined.

(** X10: the store keeps no table of the objects it has made: two lookups of
    one identifier return two objects with the same attributes, and a
    change of one of them changes neither the other nor the row. *)
Theorem two_lookups_make_two_objects (w : World) (i : Z) (r : employee_row)
    (v : str) :
  rows (employees (db w)) !! i = Some r →
  real_rows (db w) →
  blank v = false →
  ∃ x1 x2,
    result (Query.get_employee_by_id i) w = Ok (Some x1)
    ∧ let w1 := after (Query.get_employee_by_id i) w in
      result (Query.get_employee_by_id i) w1 = Ok (Some x2)
      ∧ let w2 := after (Query.get_employee_by_id i) w1 in
        x1 ≠ x2
        ∧ heap w2 !! x1 = Some (OEmployee (employee_read i r))
        ∧ heap w2 !! x2 = Some (OEmployee (employee_read i r))
        ∧ let w3 := after (Employee.set_name x1 v) w2 in
          result (Employee.set_name x1 v) w2 = Ok tt
          ∧ (∃ e1, heap w3 !! x1 = Some (OEmployee e1) ∧ emp_name e1 = v)
          ∧ heap w3 !! x2 = Some (OEmployee (employee_read i r))
          ∧ db w3 = db w.
Proof.
  intros Hi _ Hv.
  set (x1 := fresh (dom (heap w))).
  set (h1 := <[x1 := OEmployee (employee_read i r)]> (heap w)).
  set (x2 := fresh (dom h1)).
  exists x1, x2. unfold result, after.
  rewrite get_employee_by_id_run, Hi. simpl. split; [done|].
  rewrite get_employee_by_id_run. simpl. rewrite Hi. simpl.
  fold x1. fold h1. fold x2. split; [done|].
  assert (H2 : h1 !! x2 = None) by apply fresh_loc_unused.
  assert (Hne : x1 ≠ x2).
  { intros Heq. rewrite <- Heq in H2. unfold h1 in H2.
    by rewrite lookup_insert_eq in H2. }
  split; [done|].
  assert (Hx1 : <[x2 := OEmployee (employee_read i r)]> h1 !! x1
                = Some (OEmployee (employee_read i r))).
  { rewrite lookup_insert_ne by done. apply lookup_insert_eq. }
  split; [done|]. split; [apply lookup_insert_eq|].
  pose proof (set_name_stores
    (mkWorld (<[x2 := OEmployee (employee_read i r)]> h1) (db w) (log w))
    x1 v (employee_read i r) Hv Hx1) as Hset.
  rewrite Hset. simpl. split; [done|]. split.
  - eexists. by rewrite lookup_insert_eq.
  - split; [|done]. rewrite lookup_insert_ne by done. apply lookup_insert_eq.
Qed.

(** ** The queries: lists of objects *)

Lemma filter_StronglySorted {A} (R : relation A) (f : A → bool)
    (l : list A) :
  StronglySorted R l → StronglySorted R (List.filter f l).
Proof.
  induction 1 as [|x l Hl IH Hx]; simpl; [constructor|].
  destruct (f x); [|done]. constructor; [done|].
  apply Forall_forall. intros y Hy.
  apply list_elem_of_In, List.filter_In in Hy as [Hy _].
  apply list_elem_of_In in Hy. by eapply Forall_forall in Hx.
Qed.

Lemma get_all_employees_run (w : World) :
  Query.get_all_employees w
  = collect Query.employee_of_row (table_scan (employees (db w))) w.
Proof. reflexivity. Qed.

Lemma get_all_tasks_run (w : World) :
  Query.get_all_tasks w
  = collect Query.task_of_row (table_scan (tasks (db w))) w.
Proof. reflexivity. Qed.

Lemma get_all_projects_run (w : World) :
  Query.get_all_projects w
  = collect Query.project_of_row (table_scan (projects (db w))) w.
Proof. reflexivity. Qed.

(** X11: [get_all_employees] returns a new list with one new employee
    object for each row of the table, in the order of the keys; the object
    has the key and the columns of its row.  The objects that were there
    before and the store are left as they were. *)
Theorem get_all_employees_loads (w : World) :
  real_rows (db w) →
  ∃ l xs,
    result Query.get_all_employees w = Ok l
    ∧ let w' := after Query.get_all_employees w in
      let scan := table_scan (employees (db w)) in
      db w' = db w ∧ log w' = log w ∧ heap w ⊆ heap w'
      ∧ heap w !! l = None
      ∧ heap w' !! l = Some (OList xs)
      ∧ NoDup xs
      ∧ Forall2 (λ x row, employee_loaded row (heap w) (heap w') x) xs scan
      ∧ (∀ k r, (k, r) ∈ scan ↔ rows (employees (db w)) !! k = Some r)
      ∧ StronglySorted key_le scan
      ∧ length xs = size (rows (employees (db w))).
Proof.
  intros _. unfold result, after. rewrite get_all_employees_run.
  destruct (collect_run Query.employee_of_row (db w) employee_loaded
              (λ w0 row, employee_of_row_spec (db w) w0 row)
              employee_loaded_stable employee_loaded_weaken
              (table_scan (employees (db w))) w eq_refl)
    as (l & xs & h' & Hrun & Hsub & Hl & Hl' & Hnd & Hxs).
  exists l, xs. rewrite Hrun. simpl. repeat (split; [done|]).
  split.
  { eapply Forall2_impl; [exact Hxs|]. by intros y r [_ Hy]. }
  split; [apply elem_of_table_scan|]. split; [apply table_scan_sorted|].
  rewrite (Forall2_length _ _ _ Hxs). apply table_scan_length.
Qed.

(** X12: for an argument that is [None] or an integer of 64 bits,
    [get_tasks_by_project] returns a new list with one new task
    object for each task row whose project reference is the argument, in
    the order of the keys; a [None] argument selects no row.  The task has
    the key and the columns of its row.  Its employee is a new employee
    object made from the employee row that the task row refers to; a task
    row that refers to no employee, to the key [0] or to a key without
    row gives a task without employee. *)
Theorem get_tasks_by_project_loads (w : World) (pid : option Z) :
  real_rows (db w) → storable_int pid →
  ∃ l xs,
    result (Query.get_tasks_by_project pid) w = Ok l
    ∧ let w' := after (Query.get_tasks_by_project pid) w in
      let selected := task_rows_of (db w) pid in
      db w' = db w ∧ log w' = log w ∧ heap w ⊆ heap w'
      ∧ heap w !! l = None
      ∧ heap w' !! l = Some (OList xs)
      ∧ NoDup xs
      ∧ Forall2 (λ x row, task_loaded (db w) row (heap w) (heap w') x)
                xs selected
      ∧ (∀ k r, (k, r) ∈ selected
                ↔ rows (tasks (db w)) !! k = Some r
                  ∧ ∃ i, pid = Some i ∧ tr_project_id r = Some i)
      ∧ StronglySorted key_le selected.
Proof.
  intros _ _. unfold result, after. rewrite get_tasks_by_project_run.
  destruct (collect_tasks_run w (task_rows_of (db w) pid))
    as (l & xs & h' & Hrun & Hsub & Hl & Hl' & Hnd & Hxs).
  exists l, xs. rewrite Hrun. simpl. repeat (split; [done|]).
  split.
  { intros k r. rewrite elem_of_task_rows_of. split.
    - intros [Hk Hp]. split; [done|]. unfold sql_eq in Hp.
      destruct (tr_project_id r) as [a|], pid as [b|]; try done.
      apply bool_decide_eq_true_1 in Hp as ->. by exists b.
    - intros [Hk (i & -> & Hr)]. split; [done|]. rewrite Hr. simpl.
      by apply bool_decide_eq_true_2. }
  unfold task_rows_of. apply filter_StronglySorted, table_scan_sorted.
Qed.

(** X13: [get_all_tasks] returns a new list with one new task object for
    each row of the table of tasks, in the order of the keys, made as by
    [get_tasks_by_project]: also the tasks that refer to no project or to
    a project without row. *)
Theorem get_all_tasks_loads (w : World) :
  real_rows (db w) →
  ∃ l xs,
    result Query.get_all_tasks w = Ok l
    ∧ let w' := after Query.get_all_tasks w in
      let scan := table_scan (tasks (db w)) in
      db w' = db w ∧ log w' = log w ∧ heap w ⊆ heap w'
      ∧ heap w !! l = None
      ∧ heap w' !! l = Some (OList xs)
      ∧ NoDup xs
      ∧ Forall2 (λ x row, task_loaded (db w) row (heap w) (heap w') x)
                xs scan
      ∧ (∀ k r, (k, r) ∈ scan ↔ rows (tasks (db w)) !! k = Some r)
      ∧ length xs = size (rows (tasks (db w))).
Proof.
  intros _. unfold result, after. rewrite get_all_tasks_run.
  destruct (collect_tasks_run w (table_scan (tasks (db w))))
    as (l & xs & h' & Hrun & Hsub & Hl & Hl' & Hnd & Hxs).
  exists l, xs. rewrite Hrun. simpl. repeat (split; [done|]).
  split; [apply elem_of_table_scan|].
  rewrite (Forall2_length _ _ _ Hxs). apply table_scan_length.
Qed.

(** X14: [get_all_projects] returns a new list with one new project object
    for each row of the table of projects, in the order of the keys; each
    project has the key and the title of its row and a list of its own
    with the tasks that [get_tasks_by_project] makes for its key. *)
Theorem get_all_projects_loads (w : World) :
  real_rows (db w) →
  ∃ l xs,
    result Query.get_all_projects w = Ok l
    ∧ let w' := after Query.get_all_projects w in
      let scan := table_scan (projects (db w)) in
      db w' = db w ∧ log w' = log w ∧ heap w ⊆ heap w'
      ∧ heap w !! l = None
      ∧ heap w' !! l = Some (OList xs)
      ∧ NoDup xs
      ∧ Forall2 (λ x row, project_loaded (db w) row (heap w) (heap w') x)
                xs scan
      ∧ (∀ k r, (k, r) ∈ scan ↔ rows (projects (db w)) !! k = Some r)
      ∧ length xs = size (rows (projects (db w))).
Proof.
  intros _. unfold result, after. rewrite get_all_projects_run.
  destruct (collect_run Query.project_of_row (db w) (project_loaded (db w))
              (λ w0 row, project_of_row_spec (db w) w0 row)
              (project_loaded_stable (db w)) (project_loaded_weaken (db w))
              (table_scan (projects (db w))) w eq_refl)
    as (l & xs & h' & Hrun & Hsub & Hl & Hl' & Hnd & Hxs).
  exists l, xs. rewrite Hrun. simpl. repeat (split; [done|]).
  split.
  { eapply Forall2_impl; [exact Hxs|]. by intros y r [_ Hy]. }
  split; [apply elem_of_table_scan|].
  rewrite (Forall2_length _ _ _ Hxs). apply table_scan_length.
Qed.

(** ** The queries: one project *)

Lemma get_project_by_id_found (w : World) (i : Z) (r : project_row) :
  rows (projects (db w)) !! i = Some r →
  ∃ x h', Query.get_project_by_id i w
          = (Ok (Some x), mkWorld h' (db w) (log w))
          ∧ heap w ⊆ h'
          ∧ project_loaded (db w) (i, r) (heap w) h' x.
Proof.
  intros Hi. unfold Query.get_project_by_id, get_db, fetchone.
  unfold mbind at 1, M_bind at 1. simpl. rewrite Hi. simpl.
  destruct (project_of_row_spec (db w) w (i, r) eq_refl)
    as (x & h' & Hrun & Hsub & _ & _ & HP).
  exists x, h'. erewrite bind_Ok by exact Hrun. done.
Qed.

Lemma loaded_tasks_count (d : DB) (rs : list (Z * task_row))
    (h0 h : gmap loc object) (xs : list loc) :
  Forall2 (λ x row, task_loaded d row h0 h x) xs rs →
  Forall (λ x, is_Some (task_at h x)) xs
  ∧ completed_among h xs = completed_rows rs.
Proof.
  induction 1 as [|x row xs rs Hx _ [IH1 IH2]].
  - split; [constructor | done].
  - destruct Hx as (_ & t & Ht & _ & _ & _ & Hst & _).
    assert (Hat : task_at h x = Some t) by by apply task_at_Some.
    split; [constructor; [by rewrite Hat | done]|].
    unfold completed_among in *. rewrite count_of_cons, IH2.
    unfold completed_at, completed_rows. rewrite Hat, Hst. simpl.
    destruct (bool_decide (tr_status row.2 = Task.COMPLETED)); simpl; lia.
Qed.

(** X15: [get_project_by_id] of an identifier that the table has returns a
    new project object with that identifier, the title of the row and a
    list of its own with one new task object for each task row of the
    project; the objects that were there before and the store are left as
    they were. *)
Theorem get_project_by_id_loads (w : World) (i : Z) (r : project_row) :
  rows (projects (db w)) !! i = Some r →
  real_rows (db w) →
  ∃ x,
    result (Query.get_project_by_id i) w = Ok (Some x)
    ∧ let w' := after (Query.get_project_by_id i) w in
      db w' = db w ∧ log w' = log w ∧ heap w ⊆ heap w'
      ∧ project_loaded (db w) (i, r) (heap w) (heap w') x.
Proof.
  intros Hi _. destruct (get_project_by_id_found w i r Hi)
    as (x & h' & Hrun & Hsub & HP).
  exists x. unfold result, after. rewrite Hrun. done.
Qed.

(** X16: the progress of a project that was loaded from the store is the
    share of its task rows that have the completed status: [0.0] for a
    project without task rows, and [(k / n) * 100] for [k] completed rows
    among [n]; its count of completed tasks is [k]. *)
Theorem loaded_project_progress (w : World) (i : Z) (r : project_row) :
  rows (projects (db w)) !! i = Some r →
  real_rows (db w) →
  ∃ x,
    result (Query.get_project_by_id i) w = Ok (Some x)
    ∧ let w' := after (Query.get_project_by_id i) w in
      let rs := task_rows_of (db w) (Some i) in
      let n := Z.of_nat (length rs) in
      let k := completed_rows rs in
      0 ≤ k ≤ n
      ∧ result (Project.get_completed_tasks_count x) w' = Ok k
      ∧ (n = 0 → result (Project.project_progress x) w' = Ok 0%float)
      ∧ (0 < n →
         result (Project.project_progress x) w'
         = Ok (PrimFloat.mul (int_truediv k n) 100)).
Proof.
  intros Hi _. destruct (get_project_by_id_found w i r Hi)
    as (x & h' & Hrun & Hsub & _ & l & xs & Hx & _ & Hl & _ & Hxs).
  exists x. unfold result, after. rewrite Hrun. simpl.
  cbn [fst] in Hxs.
  destruct (loaded_tasks_count _ _ _ _ _ Hxs) as [Htasks Hcount].
  pose proof (Forall2_length _ _ _ Hxs) as Hlen.
  split; [done|]. split.
  { rewrite <- Hcount, <- Hlen. apply count_of_bounds. }
  split.
  { erewrite get_completed_tasks_count_run by (simpl; eauto). simpl.
    rewrite count_completed_tasks by done. by rewrite Hcount. }
  erewrite project_progress_run by (simpl; eauto). simpl.
  rewrite count_completed_tasks by done. rewrite Hcount, Hlen. simpl.
  split; intros Hn.
  - by rewrite bool_decide_eq_true_2.
  - by rewrite bool_decide_eq_false_2 by lia.
Qed.

(** ** The store: keys are handed out once *)

Lemma seq_le_refl (d : DB) : seq_le d d.
Proof. unfold seq_le. lia. Qed.

Lemma seq_le_trans (d1 d2 d3 : DB) : seq_le d1 d2 → seq_le d2 d3 → seq_le d1 d3.
Proof. unfold seq_le. lia. Qed.

Lemma keeps_seq_bind {A B} (m : M A) (f : A → M B) :
  keeps_seq m → (∀ a, keeps_seq (f a)) → keeps_seq (m ≫= f).
Proof.
  intros Hm Hf w. specialize (Hm w). unfold after, mbind, M_bind in *.
  destruct (m w) as [[a|e] w1]; simpl in *; [|done].
  eapply seq_le_trans; [exact Hm|]. apply Hf.
Qed.

Lemma keeps_seq_same {A} (m : M A) :
  (∀ w, db (after m w) = db w) → keeps_seq m.
Proof. intros Hm w. rewrite Hm. apply seq_le_refl. Qed.

Lemma keeps_seq_ret {A} (a : A) : keeps_seq (mret a).
Proof. by apply keeps_seq_same. Qed.

Lemma keeps_seq_raise {A} (e : exn) : keeps_seq (raise e : M A).
Proof. by apply keeps_seq_same. Qed.

Lemma keeps_seq_get_heap : keeps_seq get_heap.
Proof. by apply keeps_seq_same. Qed.

Lemma keeps_seq_put_heap (h : gmap loc object) : keeps_seq (put_heap h).
Proof. by apply keeps_seq_same. Qed.

Lemma keeps_seq_get_db : keeps_seq get_db.
Proof. by apply keeps_seq_same. Qed.

Lemma keeps_seq_commit : keeps_seq DatabaseManager.commit.
Proof. by apply keeps_seq_same. Qed.

Lemma exec_stmt_seq (s : Stmt) (d : DB) : seq_le d (exec_stmt s d).1.
Proof.
  unfold seq_le.
  destruct s as [n p sa h|n p sa h [i|]|e|[i|]|ti|ti [i|]|p|[i|]
                |ti de st e p|ti de st e p [i|]|[i|]]; simpl;
    repeat split; try lia.
  - pose proof (next_rowid_above_seq (employees d)). lia.
  - pose proof (next_rowid_above_seq (projects d)). lia.
  - pose proof (next_rowid_above_seq (tasks d)). lia.
Qed.

Lemma keeps_seq_execute (s : Stmt) : keeps_seq (DatabaseManager.execute s).
Proof.
  intros w. unfold after, DatabaseManager.execute.
  pose proof (exec_stmt_seq s (db w)) as H.
  by destruct (exec_stmt s (db w)) as [d' r].
Qed.

Lemma keeps_seq_foldM {S A} (body : S → A → M S) (l : list A) :
  (∀ s x, keeps_seq (body s x)) → ∀ s, keeps_seq (foldM body s l).
Proof.
  intros Hb. induction l as [|x l IH]; intros s; simpl.
  - apply keeps_seq_ret.
  - apply keeps_seq_bind; [apply Hb | apply IH].
Qed.

Ltac keeps_seq_step :=
  first [ apply keeps_seq_ret | apply keeps_seq_raise
        | apply keeps_seq_get_heap | apply keeps_seq_put_heap
        | apply keeps_seq_get_db | apply keeps_seq_commit
        | apply keeps_seq_execute
        | apply keeps_seq_bind; [|intros ?]
        | apply keeps_seq_foldM; intros ? ?
        | match goal with
          | |- keeps_seq (match ?x with _ => _ end) => destruct x
          | |- keeps_seq (if ?x then _ else _) => destruct x
          end ].

Ltac keeps_seq_auto := repeat keeps_seq_step.

Lemma keeps_seq_store_call (c : store_op) : keeps_seq (store_call c).
Proof.
  destruct c; unfold store_call, drop,
    DatabaseManager.add_employee, DatabaseManager.update_employee,
    DatabaseManager.delete_employee, DatabaseManager.add_project,
    DatabaseManager.update_project, DatabaseManager.delete_project,
    DatabaseManager.add_task, DatabaseManager.update_task,
    DatabaseManager.delete_task, DatabaseManager.employee_id_of,
    Query.get_all_employees, Query.get_employee_by_id,
    Query.get_all_projects, Query.get_project_by_id,
    Query.get_tasks_by_project, Query.get_all_tasks,
    Query.project_of_row, Query.get_tasks_by_project,
    collect, Query.task_of_row, Query.get_employee_by_id,
    Query.employee_of_row, PyList.append, store, alloc,
    Employee.__init__, Task.__init__, Project.__init__,
    Employee.get_name, Employee.get_position, Employee.get_salary,
    Employee.get_hours_worked, Employee.get_id,
    Project.get_title, Project.get_id, Project.set_tasks,
    Task.get_assigned_employee, Task.get_title, Task.get_description,
    Task.get_status, Task.get_project_id, Task.get_id,
    load_employee, load_task, load_project, load_list, alloc, store;
    keeps_seq_auto.
Qed.

Lemma run_calls_keeps_seq (calls : list store_op) (w : World) :
  seq_le (db w) (db (run_calls store_call calls w)).
Proof.
  revert w. induction calls as [|c calls IH]; intros w; simpl.
  - apply seq_le_refl.
  - eapply seq_le_trans; [apply keeps_seq_store_call | apply IH].
Qed.

Lemma add_employee_returns (w : World) (self : loc) (j : option Z) :
  result (DatabaseManager.add_employee self) w = Ok j →
  ∃ e, heap w !! self = Some (OEmployee e).
Proof.
  unfold result, DatabaseManager.add_employee, Employee.get_name,
    load_employee, get_heap, raise, mbind, M_bind. simpl.
  destruct (heap w !! self) as [[e|t|p|l]|]; simpl; try discriminate.
  by exists e.
Qed.

Lemma add_project_returns (w : World) (self : loc) (j : option Z) :
  result (DatabaseManager.add_project self) w = Ok j →
  ∃ p, heap w !! self = Some (OProject p).
Proof.
  unfold result, DatabaseManager.add_project, Project.get_title,
    load_project, get_heap, raise, mbind, M_bind. simpl.
  destruct (heap w !! self) as [[e|t|p|l]|]; simpl; try discriminate.
  by exists p.
Qed.

Lemma add_task_returns (w : World) (self : loc) (j : option Z) :
  result (DatabaseManager.add_task self) w = Ok j →
  ∃ t, heap w !! self = Some (OTask t) ∧ assignee_ok (heap w) t.
Proof.
  unfold result, DatabaseManager.add_task, Task.get_assigned_employee,
    DatabaseManager.employee_id_of, Employee.get_id,
    load_task, load_employee, get_heap, raise, mbind, M_bind. simpl.
  destruct (heap w !! self) as [[e|t|p|l]|]; simpl; try discriminate.
  intros H. exists t. split; [done|]. intros a Ha. rewrite Ha in H.
  simpl in H.
  destruct (heap w !! a) as [[e'|t'|p'|l']|]; simpl in H; try discriminate.
  by exists e'.
Qed.

(** X17: the three tables hand out each key once.  Whatever calls of the
    store come between two calls of [add_employee], of [add_project] or of
    [add_task] that return an identifier, deletions of the newest row
    among them, the second identifier is above the first. *)
Theorem identifiers_are_never_reused (w : World) (calls : list store_op)
    (x1 x2 : loc) (i j : Z) :
  let again (add : loc → M (option Z)) :=
    result (add x1) w = Ok (Some i)
    → result (add x2) (run_calls store_call calls (after (add x1) w))
      = Ok (Some j)
    → i < j in
  again DatabaseManager.add_employee
  ∧ again DatabaseManager.add_project
  ∧ again DatabaseManager.add_task.
Proof.
  simpl. split; [|split]; intros H1 H2.
  - destruct (add_employee_returns _ _ _ H1) as [e1 He1].
    destruct (add_employee_returns _ _ _ H2) as [e2 He2].
    unfold result in H1, H2.
    rewrite (add_employee_run _ _ _ He2) in H2.
    rewrite (add_employee_run _ _ _ He1) in H1.
    simpl in H1, H2. injection H1 as <-. injection H2 as <-.
    set (w1 := after (DatabaseManager.add_employee x1) w).
    pose proof (run_calls_keeps_seq calls w1) as (Hs & _ & _).
    pose proof (next_rowid_above_seq
                  (employees (db (run_calls store_call calls w1)))).
    assert (seq (employees (db w1)) = next_rowid (employees (db w)))
      by (unfold w1, after; by rewrite (add_employee_run _ _ _ He1)).
    lia.
  - destruct (add_project_returns _ _ _ H1) as [e1 He1].
    destruct (add_project_returns _ _ _ H2) as [e2 He2].
    unfold result in H1, H2.
    rewrite (add_project_run _ _ _ He2) in H2.
    rewrite (add_project_run _ _ _ He1) in H1.
    simpl in H1, H2. injection H1 as <-. injection H2 as <-.
    set (w1 := after (DatabaseManager.add_project x1) w).
    pose proof (run_calls_keeps_seq calls w1) as (_ & Hs & _).
    pose proof (next_rowid_above_seq
                  (projects (db (run_calls store_call calls w1)))).
    assert (seq (projects (db w1)) = next_rowid (projects (db w)))
      by (unfold w1, after; by rewrite (add_project_run _ _ _ He1)).
    lia.
  - destruct (add_task_returns _ _ _ H1) as (e1 & He1 & Ha1).
    destruct (add_task_returns _ _ _ H2) as (e2 & He2 & Ha2).
    unfold result in H1, H2.
    rewrite (add_task_run _ _ _ He2 Ha2) in H2.
    rewrite (add_task_run _ _ _ He1 Ha1) in H1.
    simpl in H1, H2. injection H1 as <-. injection H2 as <-.
    set (w1 := after (DatabaseManager.add_task x1) w).
    pose proof (run_calls_keeps_seq calls w1) as (_ & _ & Hs).
    pose proof (next_rowid_above_seq
                  (tasks (db (run_calls store_call calls w1)))).
    assert (seq (tasks (db w1)) = next_rowid (tasks (db w)))
      by (unfold w1, after; by rewrite (add_task_run _ _ _ He1 Ha1)).
    lia.
Qed.

Lemma identifiers_are_never_reused_witness :
  result (DatabaseManager.add_employee 1%positive) sample_world = Ok (Some 1)
  ∧ result (DatabaseManager.add_employee 1%positive)
      (run_calls store_call [S_delete_employee 1]
         (after (DatabaseManager.add_employee 1%positive) sample_world))
    = Ok (Some 2)
  ∧ 1 < 2.
Proof.
  destruct (identifiers_are_never_reused sample_world [S_delete_employee 1]
              1%positive 1%positive 1 2) as [H _].
  split; [reflexivity|]. split; [reflexivity|].
  apply H; reflexivity.
Defined.

(** ** The store: references of the task rows *)

(** X18: the three deletions leave no reference behind: when every
    reference of a task row that is not [NULL] is the key of a row, it is
    so after [delete_employee], after [delete_project] and after
    [delete_task], for any identifier. *)
Theorem deletions_keep_the_references (w : World) (id : Z) :
  references_ok (db w) →
  references_ok (db (after (DatabaseManager.delete_employee id) w))
  ∧ references_ok (db (after (DatabaseManager.delete_project id) w))
  ∧ references_ok (db (after (DatabaseManager.delete_task id) w)).
Proof.
  intros Hok. unfold after. rewrite delete_employee_run, delete_project_run.
  simpl. split; [|split]; intros k r Hk; simpl in *.
  - rewrite lookup_fmap in Hk.
    destruct (rows (tasks (db w)) !! k) as [r0|] eqn:Hk0; [|done].
    injection Hk as <-. destruct (Hok k r0 Hk0) as [He Hp].
    rewrite clear_employee_row. simpl. split; [|done].
    intros i Hi. case_decide as Hid; [done|].
    rewrite lookup_delete_ne by congruence. by apply He.
  - rewrite lookup_tasks_of_other_projects in Hk.
    destruct (rows (tasks (db w)) !! k) as [r0|] eqn:Hk0; [|done].
    case_decide as Hid; [done|]. injection Hk as <-.
    destruct (Hok k r0 Hk0) as [He Hp]. split; [done|].
    intros i Hi. rewrite lookup_delete_ne by congruence. by apply Hp.
  - destruct (decide (k = id)) as [->|Hne].
    + by rewrite lookup_delete_eq in Hk.
    + rewrite lookup_delete_ne in Hk by done. exact (Hok k r Hk).
Qed.

Lemma tracker_references_ok : references_ok tracker_DB.
Proof.
  intros k r Hk. simpl in Hk.
  apply lookup_insert_Some in Hk as [[<- <-]|[_ Hk]].
  - split; intros i [= <-]; by eexists.
  - apply lookup_singleton_Some in Hk as [<- <-].
    split; intros i Hi; [done|]. injection Hi as <-. by eexists.
Qed.

Lemma deletions_keep_the_references_witness :
  references_ok (db (after (DatabaseManager.delete_employee 1) tracker_world)).
Proof.
  destruct (deletions_keep_the_references tracker_world 1
              tracker_references_ok) as [H _].
  exact H.
Defined.

(** ** The store: a task of an employee that has no identifier *)




(** ** The store: load, change, update *)

Lemma employee_add_hours_run (w : World) (self : loc) (e : employee)
    (h : float) :
  PrimFloat.ltb h 0 = false →
  heap w !! self = Some (OEmployee e) →
  Employee.add_hours self h w
  = (Ok tt,
     mkWorld (<[self := OEmployee (mkEmployee (emp_id e) (emp_name e)
                                     (emp_position e) (emp_salary e)
                                     (PrimFloat.add (emp_hours_worked e) h))]>
                (heap w)) (db w) (log w)).
Proof.
  intros Hh He. unfold Employee.add_hours, store. rewrite Hh.
  by run_with He.
Qed.

(** X20: hours that are added to an employee loaded from the store and
    written back with [update_employee] replace the hours of the row by
    their sum with the hours that were read, which is not below them; the
    name, the position and the salary of the row are as they were read,
    and no other row changes. *)
Theorem added_hours_are_stored (w : World) (i : Z) (r : employee_row)
    (h : float) :
  rows (employees (db w)) !! i = Some r →
  real_rows (db w) →
  PrimFloat.ltb h 0 = false →
  ∃ x,
    result (Query.get_employee_by_id i) w = Ok (Some x)
    ∧ let w1 := after (Query.get_employee_by_id i) w in
      let m := Employee.add_hours x h ;; DatabaseManager.update_employee x in
      let hours := PrimFloat.add (real_column (er_hours_worked r)) h in
      result m w1 = Ok tt
      ∧ rows (employees (db (after m w1)))
        = <[i := mkEmployeeRow (er_name r) (er_position r)
                  (real_column (er_salary r)) hours]>
            (rows (employees (db w)))
      ∧ seq (employees (db (after m w1))) = seq (employees (db w))
      ∧ projects (db (after m w1)) = projects (db w)
      ∧ tasks (db (after m w1)) = tasks (db w)
      ∧ PrimFloat.ltb hours (real_column (er_hours_worked r)) = false.
Proof.
  intros Hi _ Hh. exists (fresh (dom (heap w))).
  unfold result, after. rewrite get_employee_by_id_run, Hi. simpl.
  split; [done|].
  set (x := fresh (dom (heap w))).
  set (w1 := mkWorld (<[x := OEmployee (employee_read i r)]> (heap w))
                     (db w) (log w)).
  assert (Hx : heap w1 !! x = Some (OEmployee (employee_read i r)))
    by apply lookup_insert_eq.
  unfold mbind, M_bind.
  rewrite (employee_add_hours_run w1 x _ h Hh Hx).
  erewrite update_employee_run by (simpl; apply lookup_insert_eq).
  cbn -[table_update]. rewrite table_update_present by by rewrite Hi.
  simpl. repeat (split; [done|]). by apply add_not_below.
Qed.

Lemma tracker_real_rows : real_rows tracker_DB.
Proof.
  unfold real_rows, tracker_DB. simpl. apply map_Forall_singleton. done.
Qed.

Lemma added_hours_are_stored_witness :
  ∃ x, result (Query.get_employee_by_id 1) tracker_world = Ok (Some x)
       ∧ result (Employee.add_hours x 8 ;; DatabaseManager.update_employee x)
                (after (Query.get_employee_by_id 1) tracker_world)
         = Ok tt.
Proof.
  destruct (added_hours_are_stored tracker_world 1
              (employee_row_of sample_employee) 8 eq_refl tracker_real_rows
              eq_refl) as (x & Hget & Hrun & _).
  exists x. split; [exact Hget | exact Hrun].
Defined.

(** X21: a loaded task that is marked complete and written back with
    [update_task] changes its row and no other: the row gets the completed
    status and keeps its title, description and project reference.  The
    employee reference of the row is kept when it is the key of an
    employee row other than [0]; any other reference is replaced by
    [NULL], since the task was loaded without employee. *)
Theorem completed_task_is_stored (w : World) (x : loc) (row : Z * task_row)
    (h0 : gmap loc object) :
  task_loaded (db w) row h0 (heap w) x →
  rows (tasks (db w)) !! row.1 = Some row.2 →
  let m := Task.mark_complete x ;; DatabaseManager.update_task x in
  result m w = Ok tt
  ∧ rows (tasks (db (after m w)))
    = <[row.1 := mkTaskRow (tr_title row.2) (tr_description row.2)
                   Task.COMPLETED
                   (fst <$> task_employee (db w) row.2)
                   (tr_project_id row.2)]>
        (rows (tasks (db w)))
  ∧ seq (tasks (db (after m w))) = seq (tasks (db w))
  ∧ employees (db (after m w)) = employees (db w)
  ∧ projects (db (after m w)) = projects (db w)
  ∧ (∀ i, tr_employee_id row.2 = Some i → i ≠ 0 →
          is_Some (rows (employees (db w)) !! i) →
          fst <$> task_employee (db w) row.2 = Some i)
  ∧ (tr_employee_id row.2 = None →
     fst <$> task_employee (db w) row.2 = None).
Proof.
  intros (_ & t & Hx & Hid & Hti & Hde & Hst & Hpr & Hemp) Hrow m.
  unfold m, result, after, mbind, M_bind.
  rewrite (mark_complete_run _ _ _ Hx).
  set (t' := mkTask _ _ _ _ _ _).
  set (w1 := mkWorld (<[x := OTask t']> (heap w)) (db w) (log w)).
  assert (Hx1 : heap w1 !! x = Some (OTask t')) by apply lookup_insert_eq.
  assert (Hid1 : assigned_employee_id (heap w1) t'
                 = fst <$> task_employee (db w) row.2).
  { unfold assigned_employee_id. simpl.
    destruct (task_assigned_employee t) as [a|],
      (task_employee (db w) row.2) as [er|]; try done.
    destruct Hemp as [_ Ha].
    rewrite lookup_insert_ne by (intros ->; congruence).
    by rewrite Ha. }
  assert (Hok : assignee_ok (heap w1) t').
  { intros a Ha. simpl in Ha. rewrite Ha in Hemp.
    destruct (task_employee (db w) row.2) as [er|]; [|done].
    destruct Hemp as [_ Hemp]. eexists. simpl.
    rewrite lookup_insert_ne by (intros ->; congruence). exact Hemp. }
  rewrite (update_task_run _ _ _ Hx1 Hok). cbn -[table_update].
  rewrite Hid, table_update_present by by rewrite Hrow.
  simpl. unfold task_row_of. simpl in Hid1. rewrite Hid1. simpl.
  rewrite Hti, Hde, Hpr.
  repeat (split; [done|]). split.
  - intros i Hi Hi0 [er Her]. unfold task_employee, fetchone.
    rewrite Hi, bool_decide_eq_false_2 by done. by rewrite Her.
  - intros Hi. unfold task_employee. by rewrite Hi.
Qed.

(** ** The queries on the sample store *)

Lemma two_lookups_make_two_objects_witness :
  ∃ x1 x2,
    result (Query.get_employee_by_id 1) tracker_world = Ok (Some x1)
    ∧ result (Query.get_employee_by_id 1)
             (after (Query.get_employee_by_id 1) tracker_world)
      = Ok (Some x2)
    ∧ x1 ≠ x2.
Proof.
  destruct (two_lookups_make_two_objects tracker_world 1
              (employee_row_of sample_employee) (of_ascii "Lead"%string)
              eq_refl tracker_real_rows eq_refl)
    as (x1 & x2 & H1 & H2 & Hne & _).
  exists x1, x2. split; [exact H1|]. split; [exact H2 | exact Hne].
Defined.

Lemma get_all_employees_loads_witness :
  ∃ l xs,
    result Query.get_all_employees tracker_world = Ok l
    ∧ heap (after Query.get_all_employees tracker_world) !! l
      = Some (OList xs)
    ∧ length xs = size (rows (employees tracker_DB)).
Proof.
  destruct (get_all_employees_loads tracker_world tracker_real_rows)
    as (l & xs & Hrun & _ & _ & _ & _ & Hl & _ & _ & _ & _ & Hlen).
  exists l, xs. split; [exact Hrun|]. split; [exact Hl | exact Hlen].
Defined.

Lemma get_tasks_by_project_loads_witness :
  ∃ l xs,
    result (Query.get_tasks_by_project (Some 1)) tracker_world = Ok l
    ∧ heap (after (Query.get_tasks_by_project (Some 1)) tracker_world) !! l
      = Some (OList xs)
    ∧ NoDup xs.
Proof.
  destruct (get_tasks_by_project_loads tracker_world (Some 1)
              tracker_real_rows key_1_storable)
    as (l & xs & Hrun & _ & _ & _ & _ & Hl & Hnd & _).
  exists l, xs. split; [exact Hrun|]. split; [exact Hl | exact Hnd].
Defined.

Lemma get_all_tasks_loads_witness :
  ∃ l xs,
    result Query.get_all_tasks tracker_world = Ok l
    ∧ heap (after Query.get_all_tasks tracker_world) !! l = Some (OList xs)
    ∧ length xs = size (rows (tasks tracker_DB)).
Proof.
  destruct (get_all_tasks_loads tracker_world tracker_real_rows)
    as (l & xs & Hrun & _ & _ & _ & _ & Hl & _ & _ & _ & Hlen).
  exists l, xs. split; [exact Hrun|]. split; [exact Hl | exact Hlen].
Defined.

Lemma get_all_projects_loads_witness :
  ∃ l xs,
    result Query.get_all_projects tracker_world = Ok l
    ∧ heap (after Query.get_all_projects tracker_world) !! l
      = Some (OList xs)
    ∧ length xs = size (rows (projects tracker_DB)).
Proof.
  destruct (get_all_projects_loads tracker_world tracker_real_rows)
    as (l & xs & Hrun & _ & _ & _ & _ & Hl & _ & _ & _ & Hlen).
  exists l, xs. split; [exact Hrun|]. split; [exact Hl | exact Hlen].
Defined.

Lemma get_project_by_id_loads_witness :
  ∃ x,
    result (Query.get_project_by_id 1) tracker_world = Ok (Some x)
    ∧ project_loaded tracker_DB (1, mkProjectRow (of_ascii "Tracker"%string))
        ∅ (heap (after (Query.get_project_by_id 1) tracker_world)) x.
Proof.
  destruct (get_project_by_id_loads tracker_world 1
              (mkProjectRow (of_ascii "Tracker"%string)) eq_refl
              tracker_real_rows)
    as (x & Hrun & _ & _ & _ & HP).
  exists x. split; [exact Hrun | exact HP].
Defined.

Lemma loaded_project_progress_witness :
  ∃ x,
    result (Query.get_project_by_id 1) tracker_world = Ok (Some x)
    ∧ result (Project.project_progress x)
             (after (Query.get_project_by_id 1) tracker_world)
      = Ok (PrimFloat.mul
              (int_truediv
                 (completed_rows (task_rows_of tracker_DB (Some 1)))
                 (Z.of_nat (length (task_rows_of tracker_DB (Some 1)))))
              100).
Proof.
  destruct (loaded_project_progress tracker_world 1
              (mkProjectRow (of_ascii "Tracker"%string)) eq_refl
              tracker_real_rows)
    as (x & Hrun & _ & _ & _ & Hp).
  exists x. split; [exact Hrun|]. apply Hp. reflexivity.
Defined.

Lemma completed_task_is_stored_witness :
  let w := after (Query.get_tasks_by_project (Some 1)) tracker_world in
  result (Task.mark_complete 4%positive ;;
          DatabaseManager.update_task 4%positive) w = Ok tt.
Proof.
  intros w.
  destruct (completed_task_is_stored w 4%positive
              (2, mkTaskRow (of_ascii "Build"%string) [] Task.IN_PROGRESS
                    None (Some 1)) ∅) as [H _].
  - split; [reflexivity|]. eexists. split; [reflexivity|].
    repeat split.
  - reflexivity.
  - exact H.
Defined.

(** ** The store: [delete_task] *)

Lemma delete_task_run (w : World) (id : Z) :
  DatabaseManager.delete_task id w
  = (Ok tt,
     mkWorld (heap w)
       (mkDB (employees (db w)) (projects (db w))
             (mkTable (delete id (rows (tasks (db w)))) (seq (tasks (db w)))))
       (log w ++ [Executed (DELETE_task (Some id)); Committed])).
Proof.
  unfold DatabaseManager.delete_task, DatabaseManager.execute,
    DatabaseManager.commit, mbind, M_bind. simpl.
  by rewrite <- !app_assoc.
Qed.

(** X22: for an identifier that is an integer of 64 bits, [delete_task]
    does not raise, also when no row has the identifier, and then it leaves
    the tables as they were.  It removes the row with the identifier and no
    other: the employees and the projects stay, and [get_tasks_by_project]
    selects afterwards, for every project, the rows it selected before
    without that row. *)
Theorem delete_task_removes_one_row (w : World) (id : Z) :
  storable_int (Some id) →
  let w' := after (DatabaseManager.delete_task id) w in
  result (DatabaseManager.delete_task id) w = Ok tt
  ∧ heap w' = heap w
  ∧ employees (db w') = employees (db w)
  ∧ projects (db w') = projects (db w)
  ∧ rows (tasks (db w')) = delete id (rows (tasks (db w)))
  ∧ seq (tasks (db w')) = seq (tasks (db w))
  ∧ (rows (tasks (db w)) !! id = None → db w' = db w)
  ∧ (∀ pid k r, (k, r) ∈ task_rows_of (db w') pid
                ↔ k ≠ id ∧ (k, r) ∈ task_rows_of (db w) pid).
Proof.
  intros _. unfold result, after. rewrite delete_task_run. simpl.
  repeat (split; [done|]). split.
  - intros Hid. rewrite delete_id by done.
    by rewrite table_eta, DB_eta.
  - intros pid k r. rewrite !elem_of_task_rows_of. simpl.
    rewrite lookup_delete_Some.
    split; [intros [[H1 H2] H3] | intros [H1 [H2 H3]]];
      repeat split; auto; congruence.
Qed.

Lemma delete_task_removes_one_row_witness :
  result (DatabaseManager.delete_task 1) tracker_world = Ok tt
  ∧ rows (tasks (db (after (DatabaseManager.delete_task 1) tracker_world)))
    = delete 1 (rows (tasks tracker_DB)).
Proof.
  destruct (delete_task_removes_one_row tracker_world 1 key_1_storable)
    as (Hrun & _ & _ & _ & Hrows & _).
  split; [exact Hrun | exact Hrows].
Defined.

(** ** analytics.py: totals *)

Lemma get_hours_worked_run (w : World) (self : loc) (e : employee) :
  heap w !! self = Some (OEmployee e) →
  Employee.get_hours_worked self w = (Ok (emp_hours_worked e), w).
Proof. intros He. unfold Employee.get_hours_worked. by run_with He. Qed.

Lemma add_nonneg (x y : float) :
  PrimFloat.ltb x 0 = false → PrimFloat.ltb y 0 = false →
  PrimFloat.ltb (PrimFloat.add x y) 0 = false.
Proof.
  intros Hx Hy. eapply not_below_nonneg; [exact Hx|]. by apply not_below_add.
Qed.

Lemma foldM_app {S A} (body : S → A → M S) (s : S) (l1 l2 : list A)
    (w : World) :
  foldM body s (l1 ++ l2) w
  = match foldM body s l1 w with
    | (Ok s', w') => foldM body s' l2 w'
    | (Raise e, w') => (Raise e, w')
    end.
Proof.
  revert s w. induction l1 as [|x l1 IH]; intros s w; [done|].
  simpl app. rewrite !foldM_cons.
  destruct (body s x w) as [[s'|e] w']; [apply IH | done].
Qed.

Lemma total_hours_loop (w : World) (es : list loc) (total : float) :
  Forall (employee_ok (heap w)) es →
  PrimFloat.ltb total 0 = false →
  ∃ v, foldM (λ (total : float) (emp : loc),
                hours ← Employee.get_hours_worked emp;
                mret (PrimFloat.add total hours)) total es w = (Ok v, w)
       ∧ PrimFloat.ltb v 0 = false
       ∧ not_below total v.
Proof.
  intros Hes. revert total.
  induction Hes as [|x es (e & He & Hs & Hh) _ IH]; intros total Ht.
  - exists total. split; [done|]. split; [done | apply not_below_refl].
  - rewrite foldM_cons. unfold mbind at 1, M_bind at 1.
    rewrite (get_hours_worked_run _ _ _ He). simpl.
    destruct (IH (PrimFloat.add total (emp_hours_worked e)))
      as (v & Hrun & Hv & Hnb); [by apply add_nonneg|].
    exists v. split; [exact Hrun|]. split; [exact Hv|].
    eapply not_below_trans; [|exact Hnb]. by apply not_below_add.
Qed.

Lemma pay_nonneg (e : employee) :
  salary_ok e → hours_ok e →
  PrimFloat.ltb (PrimFloat.mul (emp_hours_worked e)
                   (PrimFloat.div (emp_salary e) 176)) 0 = false.
Proof.
  intros Hs Hh. apply ltb_zero_nonneg. rewrite mul_spec, div_spec.
  apply SFmul_nonneg; [by apply ltb_zero_nonneg|].
  assert (Hd : ∃ m k, Prim2SF 176 = S754_finite false m k)
    by (vm_compute; eauto).
  destruct Hd as (m & k & ->). apply SFdiv_nonneg. by apply ltb_zero_nonneg.
Qed.

Lemma total_pay_loop (w : World) (es : list loc) (total : float) :
  Forall (employee_ok (heap w)) es →
  PrimFloat.ltb total 0 = false →
  ∃ v, foldM (λ (total : float) (emp : loc),
                pay ← Employee.calculate_pay emp;
                mret (PrimFloat.add total pay)) total es w = (Ok v, w)
       ∧ PrimFloat.ltb v 0 = false
       ∧ not_below total v.
Proof.
  intros Hes. revert total.
  induction Hes as [|x es (e & He & Hs & Hh) _ IH]; intros total Ht.
  - exists total. split; [done|]. split; [done | apply not_below_refl].
  - rewrite foldM_cons. unfold mbind at 1, M_bind at 1.
    rewrite (calculate_pay_run _ _ _ He). simpl.
    pose proof (pay_nonneg e Hs Hh) as Hp.
    destruct (IH (PrimFloat.add total
                    (PrimFloat.mul (emp_hours_worked e)
                       (PrimFloat.div (emp_salary e) 176))))
      as (v & Hrun & Hv & Hnb); [by apply add_nonneg|].
    exists v. split; [exact Hrun|]. split; [exact Hv|].
    eapply not_below_trans; [|exact Hnb]. by apply not_below_add.
Qed.

(** X23: over employees whose salaries and hours are not negative,
    [get_total_hours_worked] and [get_total_salary_expenses] return totals
    that are not negative, and a total does not get smaller when more
    employees follow in the list: the total over a list is not below the
    total over a prefix of it.  The calls raise nothing and change
    nothing; over no employees both totals are zero. *)
Theorem totals_are_not_negative (w : World) (es more : list loc) :
  Forall (employee_ok (heap w)) (es ++ more) →
  ∃ hours pay hours' pay',
    WorkAnalytics.get_total_hours_worked es w = (Ok hours, w)
    ∧ WorkAnalytics.get_total_salary_expenses es w = (Ok pay, w)
    ∧ WorkAnalytics.get_total_hours_worked (es ++ more) w = (Ok hours', w)
    ∧ WorkAnalytics.get_total_salary_expenses (es ++ more) w = (Ok pay', w)
    ∧ PrimFloat.ltb hours 0 = false ∧ PrimFloat.ltb pay 0 = false
    ∧ PrimFloat.ltb hours' hours = false ∧ PrimFloat.ltb pay' pay = false
    ∧ (es = [] → hours = 0%float ∧ pay = 0%float).
Proof.
  intros Hall. apply Forall_app in Hall as [Hes Hmore].
  unfold WorkAnalytics.get_total_hours_worked,
    WorkAnalytics.get_total_salary_expenses.
  destruct (total_hours_loop w es 0 Hes eq_refl) as (hours & Hh & Hh0 & _).
  destruct (total_pay_loop w es 0 Hes eq_refl) as (pay & Hp & Hp0 & _).
  destruct (total_hours_loop w more hours Hmore Hh0)
    as (hours' & Hh' & _ & Hhnb).
  destruct (total_pay_loop w more pay Hmore Hp0) as (pay' & Hp' & _ & Hpnb).
  exists hours, pay, hours', pay'.
  rewrite !foldM_app, Hh, Hp.
  repeat (split; [done|]).
  split; [by apply not_below_ltb|]. split; [by apply not_below_ltb|].
  intros ->. simpl in Hh, Hp. unfold mret, M_ret in Hh, Hp.
  injection Hh as <-. injection Hp as <-. done.
Qed.

Lemma employee_ok_stored : employee_ok (heap stored_world) 1%positive.
Proof. exists stored_employee. by repeat split. Qed.

Lemma totals_are_not_negative_witness :
  ∃ hours pay,
    WorkAnalytics.get_total_hours_worked [1%positive] stored_world
    = (Ok hours, stored_world)
    ∧ WorkAnalytics.get_total_salary_expenses [1%positive] stored_world
      = (Ok pay, stored_world)
    ∧ PrimFloat.ltb hours 0 = false ∧ PrimFloat.ltb pay 0 = false.
Proof.
  destruct (totals_are_not_negative stored_world [1%positive] [1%positive])
    as (hours & pay & _ & _ & Hh & Hp & _ & _ & Hh0 & Hp0 & _).
  - repeat constructor; apply employee_ok_stored.
  - exists hours, pay. auto.
Defined.

(** ** analytics.py: overall progress *)

Lemma completed_among_ext (h h' : gmap loc object) (xs : list loc) :
  (∀ x, x ∈ xs → task_at h' x = task_at h x) →
  completed_among h' xs = completed_among h xs.
Proof.
  unfold completed_among. induction xs as [|x xs IH]; intros Hext; [done|].
  rewrite !count_of_cons, IH.
  - unfold completed_at. rewrite Hext; [done | left].
  - intros y Hy. apply Hext. by right.
Qed.

Lemma overall_progress_loop (h0 : gmap loc object) (ls : list loc) :
  Forall (project_ok h0) ls →
  ∀ (w : World) (n k : Z), h0 ⊆ heap w →
    ∃ w',
      foldM (λ (c : Z * Z) (proj : loc),
               let '(total_tasks, completed_tasks) := c in
               l ← Project.get_tasks proj;
               tasks ← load_list l;
               let total_tasks := total_tasks + Z.of_nat (length tasks) in
               n ← foldM (λ (n : Z) (t : loc),
                      c ← Task.is_completed t;
                      if (c : bool) then mret (n + 1) else mret n) 0 tasks;
               mret (total_tasks, completed_tasks + n)) (n, k) ls w
      = (Ok (n + Z.of_nat (length (all_tasks h0 ls)),
             k + completed_among h0 (all_tasks h0 ls)), w')
      ∧ heap w ⊆ heap w' ∧ db w' = db w ∧ log w' = log w.
Proof.
  induction 1 as [|l ls (xs & Hl & Hxs) _ IH]; intros w n k Hsub.
  - exists w. simpl. unfold mret, M_ret, completed_among, count_of. simpl.
    rewrite !Z.add_0_r. done.
  - pose proof (project_tasks_weaken _ _ _ _ Hsub Hl) as Hl'.
    apply project_tasks_Some in Hl' as (p & Hp & Hlp).
    rewrite foldM_cons.
    unfold mbind at 1, M_bind at 1.
    rewrite (get_tasks_run _ _ p xs Hp Hlp).
    set (f := fresh (dom (heap w))).
    set (w1 := mkWorld (<[f := OList xs]> (heap w)) (db w) (log w)).
    assert (Hf : heap w !! f = None) by apply fresh_loc_unused.
    assert (Hsub1 : heap w ⊆ heap w1) by by apply insert_subseteq.
    unfold mbind at 1, M_bind at 1.
    erewrite load_list_Ok by apply lookup_insert_eq.
    unfold mbind at 1, M_bind at 1.
    rewrite count_loop.
    assert (Hsame : ∀ x, x ∈ xs → task_at (heap w1) x = task_at h0 x).
    { intros x Hx. apply task_at_weaken; [by etrans|].
      by eapply Forall_forall in Hxs. }
    assert (Hcount : count_completed (heap w1) 0 xs
                     = Ok (completed_among h0 xs)).
    { rewrite count_completed_tasks.
      - rewrite Z.add_0_l. f_equal. by apply completed_among_ext.
      - apply Forall_forall. intros x Hx. rewrite Hsame by done.
        by eapply Forall_forall in Hxs. }
    rewrite Hcount. unfold mret at 1, M_ret at 1.
    destruct (IH w1 (n + Z.of_nat (length xs)) (k + completed_among h0 xs))
      as (w2 & Hrun & Hsub2 & Hdb & Hlog); [by etrans|].
    exists w2. split.
    { etrans; [exact Hrun|].
      rewrite (all_tasks_cons _ _ _ _ Hl), length_app, completed_among_app.
      do 3 f_equal; lia. }
    split; [by etrans|]. split; [by rewrite Hdb | by rewrite Hlog].
Qed.

(** X24: over projects whose lists hold tasks, [get_overall_progress] is
    the share of the completed tasks among all the tasks of all the
    projects, each task with the same weight: [0.0] when there is no
    project or no task, and the float [(k / n) * 100] for [k] completed
    tasks among [n] otherwise.  It is the [completion_rate] that
    [get_task_statistics] returns for the same projects, and for a single
    project it is its [project_progress].  The call changes no object and
    no row. *)
Theorem overall_progress_is_completion_rate (w : World) (ls : list loc) :
  Forall (project_ok (heap w)) ls →
  let ts := all_tasks (heap w) ls in
  let n := Z.of_nat (length ts) in
  let k := completed_among (heap w) ts in
  ∃ v s,
    result (WorkAnalytics.get_overall_progress ls) w = Ok v
    ∧ result (get_task_statistics ls) w = Ok s
    ∧ v = completion_rate s
    ∧ (n = 0 → v = 0%float)
    ∧ (0 < n → v = PrimFloat.mul (int_truediv k n) 100)
    ∧ (∀ l, ls = [l] → result (Project.project_progress l) w = Ok v)
    ∧ heap w ⊆ heap (after (WorkAnalytics.get_overall_progress ls) w)
    ∧ db (after (WorkAnalytics.get_overall_progress ls) w) = db w.
Proof.
  intros Hok ts n k.
  destruct (count_projects_run (heap w) ls Hok w (0, 0, 0, 0, 0))
    as (ws & Hstat & _ & _ & _); [done|].
  rewrite tally_closed in Hstat.
  exists (rate k n), (mkStats n k (n - k)
                      (count_of (assigned_at (heap w)) ts)
                      (n - count_of (assigned_at (heap w)) ts)
                      (rate k n)
                      (rate (count_of (assigned_at (heap w)) ts) n)).
  assert (Hn : 0 ≤ n) by (unfold n; lia).
  assert (Hrate0 : n = 0 → rate k n = 0%float).
  { intros Hn0. unfold rate. by rewrite bool_decide_eq_false_2 by lia. }
  assert (Hrate : 0 < n → rate k n = PrimFloat.mul (int_truediv k n) 100).
  { intros Hn0. unfold rate. by rewrite bool_decide_eq_true_2 by lia. }
  assert (Hv : ∃ w', WorkAnalytics.get_overall_progress ls w
                     = (Ok (rate k n), w')
                     ∧ heap w ⊆ heap w' ∧ db w' = db w).
  { unfold WorkAnalytics.get_overall_progress. case_bool_decide as Hls.
    - exists w. subst ls. split; [|done]. unfold mret, M_ret.
      by rewrite Hrate0.
    - destruct (overall_progress_loop (heap w) ls Hok w 0 0)
        as (w' & Hrun & Hsub & Hdb & _); [done|].
      exists w'. split; [|done]. erewrite bind_Ok by exact Hrun.
      rewrite !Z.add_0_l. fold ts. fold n. fold k.
      case_bool_decide as Hn0; unfold mret, M_ret.
      + by rewrite Hrate0.
      + by rewrite Hrate by lia. }
  destruct Hv as (w' & Hrun & Hsub & Hdb).
  unfold result, after. rewrite Hrun. simpl.
  split; [done|]. split.
  { unfold get_task_statistics. erewrite bind_Ok by exact Hstat.
    simpl. unfold mret, M_ret. simpl. fold ts. fold n. fold k.
    do 2 f_equal; lia. }
  split; [done|]. split; [done|]. split; [done|]. split; [|done].
  intros l ->. apply Forall_cons in Hok as [(xs & Hl & Hxs) _].
  pose proof Hl as Hl0.
  apply project_tasks_Some in Hl as (p & Hp & Hlp).
  rewrite (project_progress_run _ _ _ _ Hp Hlp). simpl.
  rewrite count_completed_tasks by done. simpl.
  assert (Hts : ts = xs).
  { unfold ts. rewrite (all_tasks_cons _ _ _ _ Hl0).
    unfold all_tasks. simpl. apply app_nil_r. }
  unfold k, n. rewrite Hts. unfold rate.
  case_bool_decide as H0; case_bool_decide as H1; try done; lia.
Qed.

Lemma overall_progress_is_completion_rate_witness :
  ∃ v s,
    result (WorkAnalytics.get_overall_progress [5%positive]) sample_world
    = Ok v
    ∧ result (get_task_statistics [5%positive]) sample_world = Ok s
    ∧ v = completion_rate s.
Proof.
  destruct (overall_progress_is_completion_rate sample_world [5%positive]
              sample_project_ok) as (v & s & Hv & Hs & Heq & _).
  exists v, s. auto.
Defined.

(** ** utils.py: [truncate_text] *)

Lemma slice_to_length (text : str) (stop : Z) :
  Z.of_nat (length (Utils.slice_to text stop))
  = if stop <? 0 then Z.max (Z.of_nat (length text) + stop) 0
    else Z.min stop (Z.of_nat (length text)).
Proof.
  unfold Utils.slice_to. rewrite length_take.
  destruct (stop <? 0) eqn:Hs; lia.
Qed.

(** X25: [truncate_text] returns a text of at most [max_length] characters
    unchanged.  It shortens a longer text to exactly [max_length]
    characters, the first [max_length - 3] of the text and three dots,
    when [max_length] is at least 3, so that truncating twice is truncating
    once; when [max_length] is below 3 the result of shortening is longer
    than [max_length]. *)
Theorem truncate_text_length (text : str) (max_length : Z) :
  let out := Utils.truncate_text text max_length in
  let n := Z.of_nat (length text) in
  (n ≤ max_length → out = text)
  ∧ (max_length < n → 3 ≤ max_length →
     out = take (Z.to_nat (max_length - 3)) text ++ of_ascii "..."%string
     ∧ Z.of_nat (length out) = max_length)
  ∧ (3 ≤ max_length → Z.of_nat (length out) ≤ max_length)
  ∧ (3 ≤ max_length → Utils.truncate_text out max_length = out)
  ∧ (max_length < n → max_length < 3 → max_length < Z.of_nat (length out)).
Proof.
  intros out n.
  assert (Hshort : n ≤ max_length → out = text).
  { intros Hn. unfold out, Utils.truncate_text.
    by rewrite (proj2 (Z.leb_le _ _)) by done. }
  assert (Hlong : max_length < n →
            out = Utils.slice_to text (max_length - 3)
                  ++ of_ascii "..."%string).
  { intros Hn. unfold out, Utils.truncate_text.
    by rewrite (proj2 (Z.leb_gt _ _)) by done. }
  assert (Hlen : max_length < n → 3 ≤ max_length →
            Z.of_nat (length out) = max_length).
  { intros Hn Hm. rewrite (Hlong Hn), length_app, Nat2Z.inj_add.
    rewrite slice_to_length. rewrite (proj2 (Z.ltb_ge _ _)) by lia.
    change (Z.of_nat (length (of_ascii "..."%string))) with 3. fold n. lia. }
  split; [exact Hshort|]. split.
  { intros Hn Hm. split; [|by apply Hlen]. rewrite (Hlong Hn). f_equal.
    unfold Utils.slice_to. rewrite (proj2 (Z.ltb_ge _ _)) by lia.
    f_equal. fold n. lia. }
  assert (Hbound : 3 ≤ max_length → Z.of_nat (length out) ≤ max_length).
  { intros Hm. destruct (Z_le_gt_dec n max_length) as [Hn|Hn].
    - rewrite Hshort by done. by fold n.
    - rewrite Hlen by lia. lia. }
  split; [exact Hbound|]. split.
  { intros Hm. unfold Utils.truncate_text at 1.
    by rewrite (proj2 (Z.leb_le _ _)) by by apply Hbound. }
  intros Hn Hm. rewrite (Hlong Hn), length_app, Nat2Z.inj_add.
  change (Z.of_nat (length (of_ascii "..."%string))) with 3.
  rewrite slice_to_length, (proj2 (Z.ltb_lt _ _)) by lia. lia.
Qed.

(** ** utils.py: [calculate_percentage] *)

Lemma SFdiv_core_binary_same (p : positive) (e : Z) :
  SFdiv_core_binary prec emax (Zpos p) e (Zpos p) e
  = (2 ^ 53, -53, loc_Exact).
Proof.
  unfold SFdiv_core_binary.
  replace (Zdigits2 (Z.pos p) + e - (Zdigits2 (Z.pos p) + e)) with 0 by lia.
  replace (e - e) with 0 by lia.
  change (Z.min (fexp prec emax 0) 0) with (-53).
  change (0 - -53) with 53. cbv iota beta.
  rewrite div_eucl_div_mod, Z.shiftl_mul_pow2 by lia.
  rewrite (Z.mul_comm (Z.pos p)), Z.div_mul, Z.mod_mul by lia.
  unfold new_location, new_location_even, new_location_odd.
  by destruct (Z.even (Z.pos p)).
Qed.

(** A finite float that is not zero, divided by itself, is [1.0]. *)
Lemma div_same (x : float) (s : bool) (m : positive) (e : Z) :
  Prim2SF x = S754_finite s m e → PrimFloat.div x x = 1%float.
Proof.
  intros Hx. apply Prim2SF_inj. rewrite div_spec, Hx.
  unfold SF64div, SFdiv. rewrite SFdiv_core_binary_same.
  destruct s; vm_compute; reflexivity.
Qed.

(** X26: [calculate_percentage] raises nothing, whatever the two floats
    are: a total that is zero, of either sign, gives [0.0] instead of the
    division by zero, and every other total gives [(part / total) * 100].
    A finite total that is not zero is [100.0] percent of itself. *)
Theorem calculate_percentage_never_raises (part total : float) (w : World) :
  ∃ v, Utils.calculate_percentage part total w = (Ok v, w)
       ∧ (PrimFloat.eqb total 0 = true → v = 0%float)
       ∧ (PrimFloat.eqb total 0 = false →
          v = PrimFloat.mul (PrimFloat.div part total) 100)
       ∧ (∀ s m e, Prim2SF total = S754_finite s m e → part = total →
                   v = 100%float).
Proof.
  unfold Utils.calculate_percentage, Utils.float_truediv.
  destruct (PrimFloat.eqb total 0) eqn:Hz.
  - exists 0%float. split; [done|]. split; [done|]. split; [done|].
    intros s m e Ht _. apply eqb_zero in Hz as [s' Hz]. congruence.
  - eexists. split; [reflexivity|]. split; [done|]. split; [done|].
    intros s m e Ht ->. by rewrite (div_same total s m e Ht).
Qed.

(** ** analytics.py: sorting *)

Section Stable_sort.

Context {A : Type} (before : A → A → bool) (rank : A → Z) (reverse : bool).
Context (good : A → Prop).

Hypothesis before_rank : ∀ a b, good a → good b →
  before a b = if reverse then rank b <? rank a else rank a <? rank b.

(** [a] may come before [b]. *)
Let le (a b : A) : Prop :=
  if reverse then rank b ≤ rank a else rank a ≤ rank b.







End Stable_sort.









(** ** Regular expressions: the derivative decides the match *)

Lemma nullable_denotes (r : Re.regex) :
  Re.nullable r = true ↔ Re.denotes r [].
Proof.
  induction r as [| |c|r1 IH1 r2 IH2|r1 IH1 r2 IH2|r IH]; simpl.
  - done.
  - done.
  - split; [done|]. by intros (a & Ha & _).
  - rewrite andb_true_iff, IH1, IH2. split.
    + intros [H1 H2]. by exists [], [].
    + intros (s1 & s2 & Hs & H1 & H2). symmetry in Hs.
      apply app_eq_nil in Hs as [-> ->]. done.
  - by rewrite orb_true_iff, IH1, IH2.
  - split; [|done]. intros _. exists []. split; [done | constructor].
Qed.

Lemma star_cons (r : Re.regex) (a : N) (s : str) :
  Re.denotes (Re.Star r) (a :: s)
  ↔ ∃ s1 s2, s = s1 ++ s2 ∧ Re.denotes r (a :: s1)
             ∧ Re.denotes (Re.Star r) s2.
Proof.
  simpl. split.
  - intros (ss & Hs & Hss). induction Hss as [|t ss Ht Hss IH]; [done|].
    destruct t as [|b t].
    + apply IH. exact Hs.
    + simpl in Hs. injection Hs as <- ->.
      exists t, (concat ss). split; [done|]. split; [done|]. by exists ss.
  - intros (s1 & s2 & -> & H1 & ss & -> & Hss).
    exists ((a :: s1) :: ss). split; [done|]. by constructor.
Qed.

Lemma deriv_denotes (r : Re.regex) (a : N) (s : str) :
  Re.denotes (Re.deriv a r) s ↔ Re.denotes r (a :: s).
Proof.
  revert s. induction r as [| |c|r1 IH1 r2 IH2|r1 IH1 r2 IH2|r IH];
    intros s.
  - done.
  - done.
  - simpl. destruct (c a) eqn:Hc; simpl.
    + split.
      * intros ->. by exists a.
      * by intros (b & [= <- ->] & _).
    + split; [done|]. intros (b & [= <- ->] & Hb). congruence.
  - cbn [Re.deriv].
    assert (Hcat : Re.denotes (Re.Cat (Re.deriv a r1) r2) s
                   ↔ ∃ s1 s2, s = s1 ++ s2 ∧ Re.denotes r1 (a :: s1)
                              ∧ Re.denotes r2 s2).
    { simpl. split; intros (s1 & s2 & Hs & H1 & H2); exists s1, s2;
        (split; [done|]); (split; [|done]); by apply IH1. }
    assert (Hsplit : Re.denotes (Re.Cat r1 r2) (a :: s)
                     ↔ (Re.denotes r1 [] ∧ Re.denotes r2 (a :: s))
                       ∨ ∃ s1 s2, s = s1 ++ s2 ∧ Re.denotes r1 (a :: s1)
                                  ∧ Re.denotes r2 s2).
    { simpl. split.
      - intros (s1 & s2 & Hs & H1 & H2). destruct s1 as [|b s1].
        + left. simpl in Hs. by subst s2.
        + right. simpl in Hs. injection Hs as <- ->. by exists s1, s2.
      - intros [[H1 H2]|(s1 & s2 & -> & H1 & H2)].
        + by exists [], (a :: s).
        + by exists (a :: s1), s2. }
    rewrite Hsplit. destruct (Re.nullable r1) eqn:Hn.
    + change (Re.denotes (Re.Alt ?x ?y) s)
        with (Re.denotes x s ∨ Re.denotes y s).
      rewrite Hcat, IH2. apply nullable_denotes in Hn. tauto.
    + rewrite Hcat. split; [by right|]. intros [[H1 _]|H]; [|done].
      apply nullable_denotes in H1. congruence.
  - simpl. by rewrite IH1, IH2.
  - rewrite star_cons. cbn [Re.deriv].
    change (Re.denotes (Re.Cat ?x ?y) s)
      with (∃ s1 s2, s = s1 ++ s2 ∧ Re.denotes x s1 ∧ Re.denotes y s2).
    split; intros (s1 & s2 & Hs & H1 & H2); exists s1, s2;
      (split; [done|]); (split; [|done]); by apply IH.
Qed.

Lemma fullmatch_denotes (r : Re.regex) (s : str) :
  Re.fullmatch r s = true ↔ Re.denotes r s.
Proof.
  unfold Re.fullmatch. revert r. induction s as [|a s IH]; intros r; simpl.
  - apply nullable_denotes.
  - rewrite IH. apply deriv_denotes.
Qed.

Lemma star_class (c : N → bool) (s : str) :
  Re.denotes (Re.Star (Re.Class c)) s ↔ forallb c s = true.
Proof.
  simpl. split.
  - intros (ss & -> & Hss). induction Hss as [|t ss (a & -> & Ha) _ IH];
      [done|]. simpl. by rewrite Ha, IH.
  - intros Hs. exists ((λ a, [a]) <$> s). split.
    + clear Hs. induction s as [|a s IH]; [done|].
      rewrite fmap_cons. cbn [concat app]. by rewrite <- IH.
    + induction s as [|a s IH]; [constructor|].
      cbn [forallb] in Hs. apply andb_true_iff in Hs as [Ha Hs].
      rewrite fmap_cons. constructor; [by exists a | by apply IH].
Qed.

Lemma plus_class (c : N → bool) (s : str) :
  Re.denotes (Re.Plus (Re.Class c)) s ↔ s ≠ [] ∧ forallb c s = true.
Proof.
  unfold Re.Plus.
  change (Re.denotes (Re.Cat ?x ?y) s)
    with (∃ s1 s2, s = s1 ++ s2 ∧ Re.denotes x s1 ∧ Re.denotes y s2).
  split.
  - intros (s1 & s2 & -> & (a & -> & Ha) & Hs2).
    apply star_class in Hs2. split; [done|]. simpl. by rewrite Ha, Hs2.
  - intros [Hne Hs]. destruct s as [|a s]; [done|]. simpl in Hs.
    apply andb_true_iff in Hs as [Ha Hs].
    exists [a], s. split; [done|]. split; [by exists a|].
    by apply star_class.
Qed.

Lemma at_least_2_class (c : N → bool) (s : str) :
  Re.denotes (Re.AtLeast2 (Re.Class c)) s
  ↔ (2 ≤ length s)%nat ∧ forallb c s = true.
Proof.
  unfold Re.AtLeast2.
  change (Re.denotes (Re.Cat ?x (Re.Cat ?y ?z)) s)
    with (∃ s1 s2, s = s1 ++ s2 ∧ Re.denotes x s1
                   ∧ ∃ s3 s4, s2 = s3 ++ s4 ∧ Re.denotes y s3
                              ∧ Re.denotes z s4).
  split.
  - intros (s1 & s2 & -> & (a & -> & Ha) & s3 & s4 & -> & (b & -> & Hb) & Hs).
    apply star_class in Hs. simpl. rewrite Ha, Hb, Hs. split; [lia | done].
  - intros [Hlen Hs]. destruct s as [|a [|b s]]; simpl in Hlen; try lia.
    simpl in Hs. apply andb_true_iff in Hs as [Ha Hs].
    apply andb_true_iff in Hs as [Hb Hs].
    exists [a], (b :: s). split; [done|]. split; [by exists a|].
    exists [b], s. split; [done|]. split; [by exists b|].
    by apply star_class.
Qed.

Lemma EMAIL_denotes (s : str) : Re.denotes Utils.EMAIL s ↔ address s.
Proof.
  unfold Utils.EMAIL, address.
  change (Re.denotes (Re.Cat ?a (Re.Cat ?b (Re.Cat ?c (Re.Cat ?d ?e)))) s)
    with (∃ s1 r1, s = s1 ++ r1 ∧ Re.denotes a s1
          ∧ ∃ s2 r2, r1 = s2 ++ r2 ∧ Re.denotes b s2
            ∧ ∃ s3 r3, r2 = s3 ++ r3 ∧ Re.denotes c s3
              ∧ ∃ s4 s5, r3 = s4 ++ s5 ∧ Re.denotes d s4
                         ∧ Re.denotes e s5).
  split.
  - intros (s1 & r1 & -> & H1 & s2 & r2 & -> & (a & -> & Ha) & s3 & r3 & ->
            & H3 & s4 & s5 & -> & (b & -> & Hb) & H5).
    apply plus_class in H1 as [Hn1 Hc1]. apply plus_class in H3 as [Hn3 Hc3].
    apply at_least_2_class in H5 as [Hlen Hc5].
    apply N.eqb_eq in Ha as <-. apply N.eqb_eq in Hb as <-.
    by exists s1, s3, s5.
  - intros (name & domain & tld & -> & Hn1 & Hc1 & Hn3 & Hc3 & Hlen & Hc5).
    exists name, ([64%N] ++ domain ++ [46%N] ++ tld). split; [done|].
    split; [by apply plus_class|].
    exists [64%N], (domain ++ [46%N] ++ tld). split; [done|].
    split; [by exists 64%N|].
    exists domain, ([46%N] ++ tld). split; [done|].
    split; [by apply plus_class|].
    exists [46%N], tld. split; [done|]. split; [by exists 46%N|].
    by apply at_least_2_class.
Qed.

(** ** utils.py: [validate_email] *)

Lemma match_anchored_spec (r : Re.regex) (s : str) :
  Re.match_anchored r s = true
  ↔ Re.denotes r s ∨ ∃ s', s = s' ++ [10%N] ∧ Re.denotes r s'.
Proof.
  unfold Re.match_anchored. rewrite orb_true_iff, fullmatch_denotes.
  apply or_iff_compat_l. split.
  - destruct (rev s) as [|c t] eqn:Hrev; [done|].
    destruct (N.eq_dec c 10%N) as [->|Hc].
    + intros Hm. apply fullmatch_denotes in Hm. exists (rev t).
      split; [|done]. rewrite <- (rev_involutive s), Hrev. done.
    + destruct c as [|p]; [done|].
      destruct p as [p|p|]; try done.
      destruct p as [p|p|]; try done.
      destruct p as [p|p|]; try done.
      destruct p as [p|p|]; try done.
  - intros (s' & -> & Hs'). rewrite rev_app_distr. simpl.
    rewrite rev_involutive. by apply fullmatch_denotes.
Qed.

Lemma filter_none (c : N → bool) (a : N) (l : list N) :
  forallb c l = true → c a = false → List.filter (N.eqb a) l = [].
Proof.
  intros Hl Ha. induction l as [|b l IH]; [done|].
  cbn [forallb] in Hl. apply andb_true_iff in Hl as [Hb Hl].
  cbn [List.filter]. destruct (N.eqb_spec a b) as [->|_]; [congruence|].
  by apply IH.
Qed.

Lemma forallb_weaken (c d : N → bool) (l : list N) :
  (∀ a, c a = true → d a = true) → forallb c l = true → forallb d l = true.
Proof.
  intros Hcd. rewrite !forallb_forall. auto.
Qed.

Lemma domain_char_local (a : N) :
  Utils.domain_char a = true → Utils.local_char a = true.
Proof.
  unfold Utils.domain_char, Utils.local_char.
  rewrite !orb_true_iff. tauto.
Qed.

Lemma letter_local (a : N) :
  Utils.letter a = true → Utils.local_char a = true.
Proof. unfold Utils.local_char. intros ->. done. Qed.

Lemma address_one_at (s : str) :
  address s → length (List.filter (N.eqb 64) s) = 1%nat.
Proof.
  intros (name & domain & tld & -> & _ & Hc1 & _ & Hc3 & _ & Hc5).
  rewrite !List.filter_app.
  rewrite (filter_none _ _ _ Hc1), (filter_none _ _ _ Hc3),
    (filter_none _ _ _ Hc5) by done.
  done.
Qed.

Lemma address_chars (s : str) :
  address s → Forall (λ c, Utils.local_char c = true ∨ c = 64%N) s.
Proof.
  intros (name & domain & tld & -> & _ & Hc1 & _ & Hc3 & _ & Hc5).
  assert (Hl : ∀ l, forallb Utils.local_char l = true →
                    Forall (λ c, Utils.local_char c = true ∨ c = 64%N) l).
  { intros l Hl. apply Forall_forall. intros c Hc. left.
    rewrite forallb_forall in Hl. apply Hl. by apply list_elem_of_In. }
  repeat apply Forall_app_2.
  - by apply Hl.
  - constructor; [by right | constructor].
  - apply Hl. eapply forallb_weaken; [apply domain_char_local | done].
  - constructor; [by left | constructor].
  - apply Hl. eapply forallb_weaken; [apply letter_local | done].
Qed.

(** X29: [validate_email] accepts exactly the strings that are a local
    part, [@], a domain, a dot and at least two letters, and those strings
    followed by one newline.  An accepted string has exactly one [@], and
    each of its characters is an ASCII letter, a digit, one of [._%+-@],
    or the final newline. *)
Theorem validate_email_accepts_addresses (email : str) :
  (Utils.validate_email email = true
   ↔ address email ∨ ∃ s, email = s ++ [10%N] ∧ address s)
  ∧ (Utils.validate_email email = true →
     length (List.filter (N.eqb 64) email) = 1%nat
     ∧ Forall (λ c, Utils.local_char c = true ∨ c = 64%N ∨ c = 10%N) email).
Proof.
  assert (Hiff : Utils.validate_email email = true
                 ↔ address email ∨ ∃ s, email = s ++ [10%N] ∧ address s).
  { unfold Utils.validate_email. rewrite match_anchored_spec.
    rewrite EMAIL_denotes. apply or_iff_compat_l.
    split; intros (s & Hs & Ha); exists s; (split; [done|]);
      by apply EMAIL_denotes. }
  split; [exact Hiff|]. intros Hv. apply Hiff in Hv as [Ha|(s & -> & Ha)].
  - split; [by apply address_one_at|].
    eapply Forall_impl; [by apply address_chars|]. simpl. tauto.
  - split.
    + rewrite List.filter_app, length_app, address_one_at by done. done.
    + apply Forall_app_2.
      * eapply Forall_impl; [by apply address_chars|]. simpl. tauto.
      * constructor; [by right; right | constructor].
Qed.

(** [a@b.co] is accepted, with and without a newline at its end, and
    [a@b.c] is not. *)
Example validate_email_examples :
  Utils.validate_email (of_ascii "a@b.co"%string) = true
  ∧ Utils.validate_email (of_ascii "a@b.co"%string ++ [10%N]) = true
  ∧ Utils.validate_email (of_ascii "a@b.c"%string) = false
  ∧ Utils.validate_email (of_ascii "a@@b.co"%string) = false.
Proof. vm_compute. done. Qed.
